(** * Derecho: views, sub-views, the group-management rows of the SST and
    the RPC manager's view-change callback.

    A shallow embedding of [derecho/view.cpp], of the [DerechoSST] row
    declared in [derecho_sst.h] and of [RPCManager::new_view_callback]
    from [src/core/rpc_manager.cpp], with the properties of the
    specification that concern them. *)

From stdpp Require Import base numbers list option gmap strings.
From Stdlib Require Import ZArith Lia.

Local Open Scope Z_scope.

(** ** Machine integers

    C++ integers are modelled as [Z]; conversions to a fixed width are
    written out where the source performs them. *)

Definition to_uint32 (z : Z) : Z := z mod 2 ^ 32.

Definition to_int32 (z : Z) : Z := (z + 2 ^ 31) mod 2 ^ 32 - 2 ^ 31.

Definition to_size_t (z : Z) : Z := z mod 2 ^ 64.

Definition INT_MAX : Z := 2 ^ 31 - 1.

(** ** Outcomes of a call

    A call returns a value, throws a C++ exception, or has undefined
    behaviour (an unchecked out-of-range [operator[]], a division by zero,
    a signed overflow). *)

Inductive exn : Type :=
  | subgroup_provisioning_exception
  | std_out_of_range.

Inductive res (A : Type) : Type :=
  | Ret (a : A)
  | Throw (e : exn)
  | Undef.

Arguments Ret {A} a.
Arguments Throw {A} e.
Arguments Undef {A}.

#[global] Instance res_ret : MRet res := λ A a, Ret a.

#[global] Instance res_bind : MBind res := λ A B f m,
  match m with
  | Ret a => f a
  | Throw e => Throw e
  | Undef => Undef
  end.

(** [v[i]] on a [std::vector]: reading outside the vector is undefined. *)
Definition vec_get {A} (v : list A) (i : Z) : res A :=
  if decide (0 ≤ i) then
    match v !! Z.to_nat i with
    | Some x => Ret x
    | None => Undef
    end
  else Undef.

(** [v.at(i)]: reading outside the vector throws [std::out_of_range]. *)
Definition vec_at {A} (v : list A) (i : nat) : res A :=
  match v !! i with
  | Some x => Ret x
  | None => Throw std_out_of_range
  end.

(** [v[i] = x] on a [std::vector]. *)
Definition vec_set {A} (v : list A) (i : Z) (x : A) : res (list A) :=
  if decide (0 ≤ i ∧ (Z.to_nat i < length v)%nat) then Ret (<[Z.to_nat i := x]> v)
  else Undef.

(** A counted loop [for(x : l) s = body(x, s)] that stops at the first
    exception or undefined step. *)
Fixpoint for_each {A S} (l : list A) (body : A → S → res S) (s : S) : res S :=
  match l with
  | [] => Ret s
  | x :: l' => s' ← body x s; for_each l' body s'
  end.

(** ** Basic types *)

Abbreviation node_id_t := N.

Abbreviation ip_addr_t := string.

(** [std::tuple<ip_addr_t, uint16_t, uint16_t, uint16_t, uint16_t>] *)
Definition ip_and_ports : Type := (ip_addr_t * Z * Z * Z * Z)%type.

Abbreviation subgroup_id_t := nat.

Abbreviation subgroup_type_id_t := nat.

(** [std::type_index], an opaque tag of a replicated type. *)
Abbreviation type_index := string.

(** Modelled from the spec: the enumeration [Mode] is declared in
    [view.h], which is not among the sources; the data model lists its
    three values. *)
Inductive Mode : Type := ORDERED | UNORDERED | RAW.

(** ** SubView *)

Module SubView.

Record t : Type := mk {
  mode : Mode;
  members : list node_id_t;
  is_sender : list Z;
  member_ips_and_ports : list ip_and_ports;
  joined : list node_id_t;
  departed : list node_id_t;
  my_rank : Z
}.

(** [SubView::SubView(Mode, members, is_sender, member_ips_and_ports)]:
    [is_sender] is first filled with [members.size()] ones and then
    replaced by the argument when the argument is not empty. *)
Definition make (mode : Mode) (members : list node_id_t) (is_sender : list Z)
    (member_ips_and_ports : list ip_and_ports) : t :=
  let all_senders := replicate (length members) 1 in
  {| mode := mode;
     members := members;
     is_sender := if decide (length is_sender = 0%nat) then all_senders else is_sender;
     member_ips_and_ports := member_ips_and_ports;
     joined := [];
     departed := [];
     my_rank := -1 |}.

(** [SubView::num_senders]: a [uint32_t] counter incremented once per
    nonzero entry. *)
Definition num_senders (sv : t) : Z :=
  fold_left (λ num i, if decide (i = 0) then num else to_uint32 (num + 1))
            (is_sender sv) 0.

(** [SubView::rank_of]: the loop counter is a [std::size_t], the result an
    [int]. *)
Fixpoint rank_of_from (rank : nat) (ms : list node_id_t) (who : node_id_t) : Z :=
  match ms with
  | [] => -1
  | m :: ms' =>
      if decide (m = who) then to_int32 (Z.of_nat rank)
      else rank_of_from (S rank) ms' who
  end.

Definition rank_of (sv : t) (who : node_id_t) : Z :=
  rank_of_from 0 (members sv) who.

(** [SubView::sender_rank_of]: [is_sender[rank]] is read first; the count
    [num] is an [int]. *)
Definition sender_rank_of (sv : t) (rank : Z) : res Z :=
  s ← vec_get (is_sender sv) rank;
  if decide (s = 0) then Ret (-1)
  else
    for_each (seqZ 0 rank)
      (λ i num,
         si ← vec_get (is_sender sv) i;
         if decide (si = 0) then Ret num
         else if decide (num < INT_MAX) then Ret (num + 1) else Undef)
      0.

End SubView.

(** ** The shared state table

    [DerechoSST] of [derecho_sst.h]: one row per member of the view; a
    row's fields in the order of the [SSTInit] call. *)

Module DerechoSST.

(** [sst::Message] (declared in [sst/multicast_msg.h]) is kept opaque: a
    slot holds the bytes of one small message. *)
Definition Message : Type := list Z.

Record Row : Type := mkRow {
  seq_num : list Z;
  stable_num : list Z;
  delivered_num : list Z;
  persisted_num : list Z;
  vid : Z;
  suspected : list bool;
  changes : list node_id_t;
  joiner_ips : list Z;
  num_changes : Z;
  num_committed : Z;
  num_acked : Z;
  num_installed : Z;
  num_received : list Z;
  wedged : bool;
  global_min : list Z;
  global_min_ready : list bool;
  slots : list Message;
  num_received_sst : list Z;
  local_stability_frontier : list Z
}.

Inductive Field : Type :=
  | F_seq_num | F_stable_num | F_delivered_num | F_persisted_num
  | F_vid | F_suspected | F_changes | F_joiner_ips
  | F_num_changes | F_num_committed | F_num_acked | F_num_installed
  | F_num_received | F_wedged | F_global_min | F_global_min_ready
  | F_slots | F_num_received_sst | F_local_stability_frontier.

#[global] Instance Field_eq_dec : EqDecision Field.
Proof. solve_decision. Defined.

(** The arguments of [SSTInit], in order. *)
Definition fields_in_order : list Field :=
  [F_seq_num; F_stable_num; F_delivered_num; F_persisted_num;
   F_vid; F_suspected; F_changes; F_joiner_ips;
   F_num_changes; F_num_committed; F_num_acked; F_num_installed;
   F_num_received; F_wedged; F_global_min; F_global_min_ready;
   F_slots; F_num_received_sst; F_local_stability_frontier].

(** The constructor's arguments: [parameters.members.size()],
    [num_subgroups], [num_received_size], [window_size]; and the size of
    one [sst::Message]. *)
Record Params : Type := mkParams {
  num_rows : nat;
  num_subgroups : nat;
  num_received_size : nat;
  window_size : nat;
  sizeof_Message : nat
}.

(** Number of elements of each field, from the constructor's initialiser
    list ([1] for an [SSTField]). *)
Definition field_count (p : Params) (f : Field) : nat :=
  match f with
  | F_seq_num | F_stable_num | F_delivered_num | F_persisted_num => num_subgroups p
  | F_suspected => num_rows p
  | F_changes | F_joiner_ips => (100 + num_rows p)%nat
  | F_num_received | F_global_min | F_num_received_sst => num_received_size p
  | F_global_min_ready | F_local_stability_frontier => num_subgroups p
  | F_slots => (window_size p * num_subgroups p)%nat
  | F_vid | F_num_changes | F_num_committed | F_num_acked | F_num_installed
  | F_wedged => 1%nat
  end.

(** [sizeof] of one element of each field: [message_id_t] and the [int]
    fields are 32-bit, [version_t] and the stability frontier 64-bit,
    [bool] one byte. *)
Definition sizeof_elem (p : Params) (f : Field) : nat :=
  match f with
  | F_persisted_num | F_local_stability_frontier => 8%nat
  | F_suspected | F_wedged | F_global_min_ready => 1%nat
  | F_slots => sizeof_Message p
  | _ => 4%nat
  end.

Definition field_bytes (p : Params) (f : Field) : nat :=
  (sizeof_elem p f * field_count p f)%nat.

(** Modelled from the spec: [sst.h] is not among the sources. A row is a
    fixed-width record whose fields lie one after the other in the order
    of [SSTInit]; [f.get_base() - getBaseAddress()] is the byte offset of
    field [f] in a row and [put(byte_offset, length)] publishes that
    contiguous range of the local row. *)
Fixpoint offset_in (p : Params) (fs : list Field) (f : Field) : nat :=
  match fs with
  | [] => 0%nat
  | g :: fs' => if decide (g = f) then 0%nat
                else (field_bytes p g + offset_in p fs' f)%nat
  end.

Definition get_base (p : Params) (f : Field) : Z :=
  Z.of_nat (offset_in p fields_in_order f).

(** The fields of which [put(offset, size)] publishes at least one byte. *)
Definition published_fields (p : Params) (offset size : Z) : list Field :=
  filter (λ f, get_base p f < offset + size
               ∧ offset < get_base p f + Z.of_nat (field_bytes p f))
         fields_in_order.

Record t : Type := mk {
  params : Params;
  rows : list Row
}.

(** [gmsSST->changes.size()] *)
Definition changes_size (s : t) : nat := field_count (params s) F_changes.

(** The row updates that [View] performs on its own row. *)
Definition with_changes (r : Row) (x : list node_id_t) : Row :=
  mkRow (seq_num r) (stable_num r) (delivered_num r) (persisted_num r)
        (vid r) (suspected r) x (joiner_ips r)
        (num_changes r) (num_committed r) (num_acked r) (num_installed r)
        (num_received r) (wedged r) (global_min r) (global_min_ready r)
        (slots r) (num_received_sst r) (local_stability_frontier r).

Definition with_num_changes (r : Row) (x : Z) : Row :=
  mkRow (seq_num r) (stable_num r) (delivered_num r) (persisted_num r)
        (vid r) (suspected r) (changes r) (joiner_ips r)
        x (num_committed r) (num_acked r) (num_installed r)
        (num_received r) (wedged r) (global_min r) (global_min_ready r)
        (slots r) (num_received_sst r) (local_stability_frontier r).

Definition with_num_committed (r : Row) (x : Z) : Row :=
  mkRow (seq_num r) (stable_num r) (delivered_num r) (persisted_num r)
        (vid r) (suspected r) (changes r) (joiner_ips r)
        (num_changes r) x (num_acked r) (num_installed r)
        (num_received r) (wedged r) (global_min r) (global_min_ready r)
        (slots r) (num_received_sst r) (local_stability_frontier r).

Definition with_wedged (r : Row) (x : bool) : Row :=
  mkRow (seq_num r) (stable_num r) (delivered_num r) (persisted_num r)
        (vid r) (suspected r) (changes r) (joiner_ips r)
        (num_changes r) (num_committed r) (num_acked r) (num_installed r)
        (num_received r) x (global_min r) (global_min_ready r)
        (slots r) (num_received_sst r) (local_stability_frontier r).

(** The table as the constructor leaves it: the group-management fields of
    every row are zero or false. The multicast fields and the stability
    frontier (a clock reading) are left to their owner and start here at
    zero. *)
Definition initial_row (p : Params) : Row :=
  mkRow (replicate (field_count p F_seq_num) 0)
        (replicate (field_count p F_stable_num) 0)
        (replicate (field_count p F_delivered_num) 0)
        (replicate (field_count p F_persisted_num) 0)
        0
        (replicate (field_count p F_suspected) false)
        (replicate (field_count p F_changes) 0%N)
        (replicate (field_count p F_joiner_ips) 0)
        0 0 0 0
        (replicate (field_count p F_num_received) 0)
        false
        (replicate (field_count p F_global_min) 0)
        (replicate (field_count p F_global_min_ready) false)
        (replicate (field_count p F_slots) [])
        (replicate (field_count p F_num_received_sst) 0)
        (replicate (field_count p F_local_stability_frontier) 0).

Definition init (p : Params) : t :=
  mk p (replicate (num_rows p) (initial_row p)).

End DerechoSST.

(** ** The multicast group and the effects a view performs

    Modelled from the spec: [MulticastGroup] is not among the sources.
    What a view needs of it is [wedge]: the engine refuses new sends from
    then on. *)

Module MulticastGroup.

Record t : Type := mk { wedged : bool }.

Definition wedge (g : t) : t := {| wedged := true |}.

End MulticastGroup.

(** The externally ordered effects of a member function, oldest first:
    wedging the multicast group, a [gmssst::set] (or [increment]) of one
    field of one row, and a [put] of a byte range of the local row. *)
Inductive Effect : Type :=
  | E_multicast_wedge
  | E_set (row : Z) (f : DerechoSST.Field)
  | E_put (offset size : Z).

(** What [gmsSST] and [multicast_group] point to, with the effects
    performed so far. *)
Record World : Type := mkWorld {
  gmsSST : DerechoSST.t;
  multicast_group : MulticastGroup.t;
  trace : list Effect
}.

Module gmssst.

Import DerechoSST.

Definition get_row (w : World) (row : Z) : res Row :=
  vec_get (rows (gmsSST w)) row.

Definition write_row (w : World) (row : Z) (f : Field) (r : Row) : res World :=
  rs ← vec_set (rows (gmsSST w)) row r;
  Ret (mkWorld (DerechoSST.mk (params (gmsSST w)) rs) (multicast_group w)
               (trace w ++ [E_set row f])).

(** [set(volatile Elem& e, const Elem& value)] on a scalar field. *)
Definition set_num_changes (w : World) (row : Z) (value : Z) : res World :=
  r ← get_row w row; write_row w row F_num_changes (with_num_changes r value).

Definition set_num_committed (w : World) (row : Z) (value : Z) : res World :=
  r ← get_row w row; write_row w row F_num_committed (with_num_committed r value).

Definition set_wedged (w : World) (row : Z) (value : bool) : res World :=
  r ← get_row w row; write_row w row F_wedged (with_wedged r value).

(** [set(volatile Elem* array, volatile Elem* value, size_t length)]: a
    [memcpy] of the first [length] elements; both arrays must hold them. *)
Definition memcpy {A} (array value : list A) (length : nat) : res (list A) :=
  if decide ((length ≤ List.length array)%nat ∧ (length ≤ List.length value)%nat)
  then Ret (take length value ++ drop length array)
  else Undef.

Definition set_changes (w : World) (row : Z) (value : list node_id_t)
    (length : nat) : res World :=
  r ← get_row w row;
  a ← memcpy (changes r) value length;
  write_row w row F_changes (with_changes r a).

(** [set(e, value)] on one slot [changes[row][slot]]. *)
Definition set_changes_slot (w : World) (row : Z) (slot : Z) (value : node_id_t)
    : res World :=
  r ← get_row w row;
  a ← vec_set (changes r) slot value;
  write_row w row F_changes (with_changes r a).

(** Modelled from the spec: [increment(volatile int&)] is only declared in
    the sources; it adds one to the counter. Overflow of the [int] is
    undefined. *)
Definition increment_num_changes (w : World) (row : Z) : res World :=
  r ← get_row w row;
  if decide (num_changes r < INT_MAX)
  then write_row w row F_num_changes (with_num_changes r (num_changes r + 1))
  else Undef.

(** [gmsSST->put(offset, size)] *)
Definition put (w : World) (offset size : Z) : World :=
  mkWorld (gmsSST w) (multicast_group w) (trace w ++ [E_put offset size]).

End gmssst.

(** ** View *)

Module View.

Import DerechoSST gmssst.

(** The data members of [View] that [view.cpp] uses. [failed] is a
    [std::vector<char>] of flags; [node_id_to_rank] is the index that both
    constructors build; [i_know_i_am_leader] starts out false. The pointers
    [gmsSST] and [multicast_group] are the [World] passed to the member
    functions that use them. *)
Record t : Type := mk {
  vid : Z;
  members : list node_id_t;
  member_ips_and_ports : list ip_and_ports;
  failed : list bool;
  num_failed : Z;
  joined : list node_id_t;
  departed : list node_id_t;
  num_members : Z;
  my_rank : Z;
  next_unassigned_rank : Z;
  subgroup_type_order : list type_index;
  subgroup_ids_by_type_id : gmap subgroup_type_id_t (list subgroup_id_t);
  subgroup_shard_views : list (list SubView.t);
  my_subgroups : gmap subgroup_id_t Z;
  node_id_to_rank : gmap node_id_t Z;
  i_know_i_am_leader : bool
}.

(** The loop shared by both constructors:
    [for(rank = 0; rank < num_members; ++rank) node_id_to_rank[members[rank]] = rank]. *)
Definition index_members (members : list node_id_t) (num_members : Z)
    : res (gmap node_id_t Z) :=
  for_each (seqZ 0 num_members)
    (λ rank m, id ← vec_get members rank; Ret (<[id := rank]> m))
    ∅.

(** The constructor used when a view is received: every serialized field
    is an argument; [my_rank] and [next_unassigned_rank] are set to 0. *)
Definition from_fields (vid : Z) (members : list node_id_t)
    (member_ips_and_ports : list ip_and_ports) (failed : list bool)
    (num_failed : Z) (joined departed : list node_id_t) (num_members : Z)
    (subgroup_ids_by_type_id : gmap subgroup_type_id_t (list subgroup_id_t))
    (subgroup_shard_views : list (list SubView.t))
    (my_subgroups : gmap subgroup_id_t Z) : res t :=
  idx ← index_members members num_members;
  Ret {| vid := vid;
         members := members;
         member_ips_and_ports := member_ips_and_ports;
         failed := failed;
         num_failed := num_failed;
         joined := joined;
         departed := departed;
         num_members := num_members;
         my_rank := 0;
         next_unassigned_rank := 0;
         subgroup_type_order := [];
         subgroup_ids_by_type_id := subgroup_ids_by_type_id;
         subgroup_shard_views := subgroup_shard_views;
         my_subgroups := my_subgroups;
         node_id_to_rank := idx;
         i_know_i_am_leader := false |}.

(** The constructor used locally: [num_members] is [members.size()] and
    [num_failed] counts the set flags of [failed]. *)
Definition make (vid : Z) (members : list node_id_t)
    (member_ips_and_ports : list ip_and_ports) (failed : list bool)
    (joined departed : list node_id_t) (my_rank next_unassigned_rank : Z)
    (subgroup_type_order : list type_index) : res t :=
  let num_members := to_int32 (Z.of_nat (length members)) in
  idx ← index_members members num_members;
  nf ← for_each failed
         (λ c nf, if c then (if decide (nf < INT_MAX) then Ret (nf + 1) else Undef)
                  else Ret nf)
         0;
  Ret {| vid := vid;
         members := members;
         member_ips_and_ports := member_ips_and_ports;
         failed := failed;
         num_failed := nf;
         joined := joined;
         departed := departed;
         num_members := num_members;
         my_rank := my_rank;
         next_unassigned_rank := next_unassigned_rank;
         subgroup_type_order := subgroup_type_order;
         subgroup_ids_by_type_id := ∅;
         subgroup_shard_views := [];
         my_subgroups := ∅;
         node_id_to_rank := idx;
         i_know_i_am_leader := false |}.

(** Modelled from the spec: the serialization of a [View] is generated by
    a macro of [view.h], which is not among the sources. The serialized
    form carries the fields that the receiving constructor takes, in its
    parameter order. *)
Record Serialized : Type := mkSerialized {
  s_vid : Z;
  s_members : list node_id_t;
  s_member_ips_and_ports : list ip_and_ports;
  s_failed : list bool;
  s_num_failed : Z;
  s_joined : list node_id_t;
  s_departed : list node_id_t;
  s_num_members : Z;
  s_subgroup_ids_by_type_id : gmap subgroup_type_id_t (list subgroup_id_t);
  s_subgroup_shard_views : list (list SubView.t);
  s_my_subgroups : gmap subgroup_id_t Z
}.

Definition serialize (v : t) : Serialized :=
  mkSerialized (vid v) (members v) (member_ips_and_ports v) (failed v)
               (num_failed v) (joined v) (departed v) (num_members v)
               (subgroup_ids_by_type_id v) (subgroup_shard_views v)
               (my_subgroups v).

Definition deserialize (s : Serialized) : res t :=
  from_fields (s_vid s) (s_members s) (s_member_ips_and_ports s) (s_failed s)
              (s_num_failed s) (s_joined s) (s_departed s) (s_num_members s)
              (s_subgroup_ids_by_type_id s) (s_subgroup_shard_views s)
              (s_my_subgroups s).

(** [View::rank_of_leader] *)
Fixpoint first_not_failed (failed : list bool) (rs : list Z) : res Z :=
  match rs with
  | [] => Ret (-1)
  | r :: rs' =>
      f ← vec_get failed r;
      if (f : bool) then first_not_failed failed rs' else Ret r
  end.

Definition rank_of_leader (v : t) : res Z :=
  first_not_failed (failed v) (seqZ 0 (num_members v)).

(** [View::rank_of(const node_id_t&)] *)
Definition rank_of (v : t) (who : node_id_t) : Z :=
  match node_id_to_rank v !! who with
  | Some rank => rank
  | None => -1
  end.

(** [View::make_subview] *)
Fixpoint find_pos (ms : list node_id_t) (x : node_id_t) : nat :=
  match ms with
  | [] => 0%nat
  | m :: ms' => if decide (m = x) then 0%nat else S (find_pos ms' x)
  end.

Definition default_ip_and_ports : ip_and_ports := (String.EmptyString, 0, 0, 0, 0).

(** The body of the loop over [subview_rank]. *)
Definition place_member (v : t) (with_members : list node_id_t)
    (subview_rank : nat) (ips : list ip_and_ports) : res (list ip_and_ports) :=
  id ← vec_get with_members (Z.of_nat subview_rank);
  let member_pos := find_pos (members v) id in
  if decide (member_pos = length (members v))
  then Throw subgroup_provisioning_exception
  else x ← vec_get (member_ips_and_ports v) (Z.of_nat member_pos);
       vec_set ips (Z.of_nat subview_rank) x.

Definition make_subview (v : t) (with_members : list node_id_t) (mode : Mode)
    (is_sender : list Z) : res SubView.t :=
  ips ← for_each (seq 0 (length with_members))
          (place_member v with_members)
          (replicate (length with_members) default_ip_and_ports);
  Ret (SubView.make mode with_members is_sender ips).

(** [View::subview_rank_of_shard_leader] *)
Fixpoint first_live_member (v : t) (rank : nat) (ms : list node_id_t) : res Z :=
  match ms with
  | [] => Ret (-1)
  | m :: ms' =>
      f ← vec_get (failed v) (rank_of v m);
      if (f : bool) then first_live_member v (S rank) ms' else Ret (to_int32 (Z.of_nat rank))
  end.

Definition subview_rank_of_shard_leader (v : t) (subgroup_id : subgroup_id_t)
    (shard_index : nat) : res Z :=
  shards ← vec_at (subgroup_shard_views v) subgroup_id;
  if decide (length shards ≤ shard_index)%nat then Ret (-1)
  else
    shard_view ← vec_at shards shard_index;
    first_live_member v 0 (SubView.members shard_view).

(** [View::i_am_leader] *)
Definition i_am_leader (v : t) : res bool :=
  r ← rank_of_leader v; Ret (bool_decide (r = my_rank v)).

(** [View::i_am_new_leader]: the pairs [(n, row)] in the order of the two
    nested loops; the scan returns [false] at the first pair with neither
    [failed[n]] nor [suspected[row][n]]. *)
Definition leader_pairs (my_rank : Z) : list (Z * Z) :=
  concat (map (λ n, map (λ row, (n, row)) (seqZ 0 my_rank)) (seqZ 0 my_rank)).

Fixpoint all_below_gone (v : t) (w : World) (ps : list (Z * Z)) : res bool :=
  match ps with
  | [] => Ret true
  | (n, row) :: ps' =>
      f ← vec_get (failed v) n;
      if (f : bool) then all_below_gone v w ps'
      else
        r ← get_row w row;
        s ← vec_get (suspected r) n;
        if (s : bool) then all_below_gone v w ps' else Ret false
  end.

Definition set_i_know_i_am_leader (v : t) (b : bool) : t :=
  mk (vid v) (members v) (member_ips_and_ports v) (failed v) (num_failed v)
     (joined v) (departed v) (num_members v) (my_rank v)
     (next_unassigned_rank v) (subgroup_type_order v)
     (subgroup_ids_by_type_id v) (subgroup_shard_views v) (my_subgroups v)
     (node_id_to_rank v) b.

Definition i_am_new_leader (v : t) (w : World) : res (bool * t) :=
  if i_know_i_am_leader v then Ret (false, v)
  else
    b ← all_below_gone v w (leader_pairs (my_rank v));
    if (b : bool) then Ret (true, set_i_know_i_am_leader v true) else Ret (false, v).

(** [View::merge_changes], first loop: one row [n] merged into the local
    row [myRank]. *)
Definition merge_row (myRank n : Z) (w : World) : res World :=
  me ← get_row w myRank;
  other ← get_row w n;
  w1 ← (if decide (num_changes me < num_changes other)
        then
          w' ← set_changes w myRank (changes other) (changes_size (gmsSST w));
          other' ← get_row w' n;
          set_num_changes w' myRank (num_changes other')
        else Ret w);
  me1 ← get_row w1 myRank;
  other1 ← get_row w1 n;
  if decide (num_committed me1 < num_committed other1)
  then set_num_committed w1 myRank (num_committed other1)
  else Ret w1.

(** [c % gmsSST->changes.size()] with [c] an [int] converted to
    [std::size_t]; the size is at least 100. *)
Definition changes_index (w : World) (c : Z) : Z :=
  to_size_t c mod Z.of_nat (changes_size (gmsSST w)).

(** The search [for(c = num_committed; c < num_changes && !found; c++)]
    for [members[n]] in the local row's log. *)
Fixpoint scan_changes (v : t) (w : World) (n : Z) (cs : list Z) (found : bool)
    : res bool :=
  match cs with
  | [] => Ret found
  | c :: cs' =>
      if found then Ret found
      else
        me ← get_row w (my_rank v);
        x ← vec_get (changes me) (changes_index w c);
        m ← vec_get (members v) n;
        scan_changes v w n cs' (bool_decide (x = m))
  end.

(** Second loop, one member [n]; [found] is declared before the loop and
    carried from one member to the next. *)
Definition propose_failure (v : t) (n : Z) (st : bool * World)
    : res (bool * World) :=
  let '(found, w) := st in
  f ← vec_get (failed v) n;
  found1 ← (if (f : bool) then
              me ← get_row w (my_rank v);
              scan_changes v w n
                (seqZ (num_committed me) (num_changes me - num_committed me))
                found
            else Ret true);
  if (found1 : bool) then Ret (found1, w)
  else
    me ← get_row w (my_rank v);
    m ← vec_get (members v) n;
    w1 ← set_changes_slot w (my_rank v) (changes_index w (num_changes me)) m;
    w2 ← increment_num_changes w1 (my_rank v);
    Ret (found1, w2).

Definition merge_changes (v : t) (w : World) : res World :=
  let p := params (gmsSST w) in
  w1 ← for_each (seqZ 0 (num_members v)) (merge_row (my_rank v)) w;
  st ← for_each (seqZ 0 (num_members v)) (propose_failure v) (false, w1);
  let w2 := put st.2 (get_base p F_changes)
                (get_base p F_joiner_ips - get_base p F_changes) in
  let w3 := put w2 (get_base p F_joiner_ips)
                (get_base p F_num_changes - get_base p F_joiner_ips) in
  let w4 := put w3 (get_base p F_num_changes)
                (get_base p F_num_committed - get_base p F_num_changes) in
  Ret (put w4 (get_base p F_num_committed)
           (get_base p F_num_acked - get_base p F_num_committed)).

(** [View::wedge] *)
Definition wedge (v : t) (w : World) : res World :=
  let p := params (gmsSST w) in
  let w1 := mkWorld (gmsSST w) (MulticastGroup.wedge (multicast_group w))
                    (trace w ++ [E_multicast_wedge]) in
  w2 ← set_wedged w1 (my_rank v) true;
  Ret (put w2 (get_base p F_wedged) (Z.of_nat (sizeof_elem p F_wedged))).

(** [View::rank_of(const std::tuple<...>&)]: a linear search over the
    ranks below [num_members]. *)
Fixpoint first_with_address (ips : list ip_and_ports) (who : ip_and_ports)
    (rs : list Z) : res Z :=
  match rs with
  | [] => Ret (-1)
  | r :: rs' =>
      a ← vec_get ips r;
      if decide (a = who) then Ret r else first_with_address ips who rs'
  end.

Definition rank_of_address (v : t) (who : ip_and_ports) : res Z :=
  first_with_address (member_ips_and_ports v) who (seqZ 0 (num_members v)).

End View.

(** ** Pending RPC results and the RPC manager *)

Module PendingResults.

(** How the entry of one target node was completed. *)
Inductive Outcome : Type := replied | node_removed.

(** Modelled from the spec: [PendingResults] is not among the sources. A
    pending result has a reply map over its target nodes once
    [fulfill_map] has run, and one entry per target that is completed
    either by that node's reply or by the [node_removed] error, after
    which no further reply is expected from the node. *)
Record t : Type := mk {
  map_fulfilled : bool;
  dest_nodes : list node_id_t;
  outcomes : gmap node_id_t Outcome
}.

(** The pending result still expects a reply from [n]. *)
Definition waiting_on (p : t) (n : node_id_t) : Prop :=
  map_fulfilled p = true ∧ n ∈ dest_nodes p ∧ outcomes p !! n = None.

(** Modelled from the spec: every target of the reply map is completed. *)
Definition all_responded (p : t) : bool :=
  map_fulfilled p && forallb (λ n, bool_decide (is_Some (outcomes p !! n))) (dest_nodes p).

(** Modelled from the spec: a target that left the view is completed with
    [node_removed]; the call does nothing for a node that is not a target
    of this pending result or whose entry is already completed. *)
Definition set_exception_for_removed_node (p : t) (removed_nid : node_id_t) : t :=
  if decide (map_fulfilled p = true ∧ removed_nid ∈ dest_nodes p
             ∧ outcomes p !! removed_nid = None)
  then mk (map_fulfilled p) (dest_nodes p) (<[removed_nid := node_removed]> (outcomes p))
  else p.

End PendingResults.

Module RPCManager.

(** The two tables of pending results, each a [std::map] from subgroup id
    to a sequence, as the list of its pairs in key order; every entry
    stands for the referenced [PendingResults] object. [connections] is
    the member list the P2P connections were built for. *)
Record t : Type := mk {
  connections : list node_id_t;
  pending_results_to_fulfill : list (subgroup_id_t * list PendingResults.t);
  fulfilled_pending_results : list (subgroup_id_t * list PendingResults.t)
}.

(** The two inner loops of [new_view_callback] for one pending result:
    every node in the [departed] list of every shard of the subgroup. *)
Definition remove_departed (shards : list SubView.t) (p : PendingResults.t)
    : PendingResults.t :=
  fold_left
    (λ p shard,
       fold_left PendingResults.set_exception_for_removed_node
                 (SubView.departed shard) p)
    shards p.

(** The loop over the pending results of one subgroup: a result that has
    all its responses is erased from the list, any other is completed for
    the departed nodes. [new_view.subgroup_shard_views[subgroup_id]] is an
    unchecked access. *)
Fixpoint sweep (new_view : View.t) (subgroup_id : subgroup_id_t)
    (prs : list PendingResults.t) : res (list PendingResults.t) :=
  match prs with
  | [] => Ret []
  | p :: prs' =>
      if PendingResults.all_responded p then sweep new_view subgroup_id prs'
      else
        shards ← vec_get (View.subgroup_shard_views new_view) (Z.of_nat subgroup_id);
        rest ← sweep new_view subgroup_id prs';
        Ret (remove_departed shards p :: rest)
  end.

Fixpoint sweep_all (new_view : View.t)
    (m : list (subgroup_id_t * list PendingResults.t))
    : res (list (subgroup_id_t * list PendingResults.t)) :=
  match m with
  | [] => Ret []
  | (subgroup_id, prs) :: m' =>
      prs' ← sweep new_view subgroup_id prs;
      rest ← sweep_all new_view m';
      Ret ((subgroup_id, prs') :: rest)
  end.

(** [RPCManager::new_view_callback] *)
Definition new_view_callback (new_view : View.t) (st : t) : res t :=
  fulfilled ← sweep_all new_view (fulfilled_pending_results st);
  Ret (mk (View.members new_view) (pending_results_to_fulfill st) fulfilled).

End RPCManager.

(** ** The layout functions of the sample applications

    The [SubgroupInfo] lambdas of the three-type demo and of the
    persistent-object demo: each maps the current view and the running
    [next_unassigned_rank] to one subgroup with one shard, or throws.
    [make_subview] is called with its default arguments, which are
    declared in [view.h]; they are the parameters [mode] and [is_sender]
    here. *)

Module Demos.

Section layouts.

Variable mode : Mode.
Variable is_sender : list Z.

(** [std::vector<node_id_t>(&v[first], &v[first] + count)]: the elements
    must exist. *)
Definition vec_range {A} (v : list A) (first count : nat) : res (list A) :=
  if decide (first + count ≤ length v)%nat then Ret (take count (drop first v))
  else Undef.

(** The layout of [Foo] and of [Bar]: the first three members. *)
Definition first_three_layout (curr_view : View.t) (next_unassigned_rank : Z)
    : res (list (list SubView.t) * Z) :=
  if decide (View.num_members curr_view < 3)
  then Throw subgroup_provisioning_exception
  else
    first_3_nodes ← vec_range (View.members curr_view) 0 3;
    sv ← View.make_subview curr_view first_3_nodes mode is_sender;
    Ret ([[sv]], Z.max next_unassigned_rank 3).

(** The layout of [Cache]: the members of ranks 3 to 5;
    [next_unassigned_rank += 3] on an [int]. *)
Definition next_three_layout (curr_view : View.t) (next_unassigned_rank : Z)
    : res (list (list SubView.t) * Z) :=
  if decide (View.num_members curr_view < 6)
  then Throw subgroup_provisioning_exception
  else
    next_3_nodes ← vec_range (View.members curr_view) 3 3;
    sv ← View.make_subview curr_view next_3_nodes mode is_sender;
    if decide (next_unassigned_rank + 3 ≤ INT_MAX)
    then Ret ([[sv]], next_unassigned_rank + 3)
    else Undef.

(** The layout of [PFoo]: the nodes with ids 0 and 1. *)
Definition pfoo_layout (curr_view : View.t) (next_unassigned_rank : Z)
    : res (list (list SubView.t) * Z) :=
  if decide (View.num_members curr_view < 2)
  then Throw subgroup_provisioning_exception
  else
    sv ← View.make_subview curr_view [0%N; 1%N] mode is_sender;
    Ret ([[sv]], Z.max next_unassigned_rank 2).

End layouts.

End Demos.

(** ** Type packs of [Group]

    [index_of_type_impl] and [contains] of [group.h] are evaluated by the
    compiler over a pack of types, here a list of type tags; a target that
    is not in the pack has no instantiation ([None]). The counter is a
    [uint32_t]. *)

Module Group.

Fixpoint index_of_type_impl (counter : Z) (target : type_index)
    (pack : list type_index) : option Z :=
  match pack with
  | [] => None
  | first :: rest =>
      if decide (target = first) then Some counter
      else index_of_type_impl (to_uint32 (counter + 1)) target rest
  end.

Definition index_of_type (target : type_index) (pack : list type_index)
    : option Z :=
  index_of_type_impl 0 target pack.

Definition contains (target : type_index) (pack : list type_index) : bool :=
  foldr (λ t acc, bool_decide (target = t) || acc) false pack.

End Group.

(** ** Vocabulary of the properties *)

(** The class invariants of a [View] on which its rank arithmetic relies:
    the parallel vectors have one entry per member, [num_members] is the
    member count, [node_id_to_rank] is the index the constructors build,
    and no node id occurs twice. *)
Record well_formed_view (v : View.t) : Prop := {
  wf_num_members : View.num_members v = Z.of_nat (length (View.members v));
  wf_failed : length (View.failed v) = length (View.members v);
  wf_ips : length (View.member_ips_and_ports v) = length (View.members v);
  wf_index : View.index_members (View.members v) (View.num_members v)
             = Ret (View.node_id_to_rank v);
  wf_nodup : NoDup (View.members v)
}.

(** Node [m] is a member of the view and is marked failed in it. *)
Definition marked_failed (v : View.t) (m : node_id_t) : Prop :=
  ∃ k : nat, View.members v !! k = Some m ∧ View.failed v !! k = Some true.

(** Every member of every shard of every subgroup is a member of the
    view. *)
Definition shards_within_members (v : View.t) : Prop :=
  ∀ shards shard m,
    shards ∈ View.subgroup_shard_views v → shard ∈ shards →
    m ∈ SubView.members shard → m ∈ View.members v.

(** A sequence of calls of [i_am_new_leader] on one view object with their
    results, oldest first. Between two calls the rest of the program may
    change the view and the table in any way, except for the flag
    [i_know_i_am_leader], which only [i_am_new_leader] writes. *)
Inductive leader_calls : View.t → list bool → View.t → Prop :=
  | leader_calls_done (v : View.t) : leader_calls v [] v
  | leader_calls_step (v : View.t) (w : World) (b : bool) (v1 v2 : View.t)
      (bs : list bool) (v3 : View.t) :
      View.i_am_new_leader v w = Ret (b, v1) →
      View.i_know_i_am_leader v2 = View.i_know_i_am_leader v1 →
      leader_calls v2 bs v3 →
      leader_calls v (b :: bs) v3.

(** The local row [me] of [w'] continues the one of [w]: the table keeps
    its shape, the other rows are as before, and the local row's
    [num_changes] and [num_committed] have not decreased. *)
Definition local_grows (me : Z) (w w' : World) : Prop :=
  DerechoSST.params (gmsSST w') = DerechoSST.params (gmsSST w)
  ∧ length (DerechoSST.rows (gmsSST w')) = length (DerechoSST.rows (gmsSST w))
  ∧ (∀ k : nat, k ≠ Z.to_nat me →
       DerechoSST.rows (gmsSST w') !! k = DerechoSST.rows (gmsSST w) !! k)
  ∧ (∀ r, gmssst.get_row w me = Ret r →
       ∃ r', gmssst.get_row w' me = Ret r'
             ∧ DerechoSST.num_changes r ≤ DerechoSST.num_changes r'
             ∧ DerechoSST.num_committed r ≤ DerechoSST.num_committed r').

(** The table has [L] rows, each with a change log of [cap] entries, the
    capacity of the table, and with [num_changes] at most [B]. *)
Definition table_bounded (cap : nat) (B : Z) (L : nat) (w : World) : Prop :=
  DerechoSST.changes_size (gmsSST w) = cap
  ∧ length (DerechoSST.rows (gmsSST w)) = L
  ∧ Forall (λ row, length (DerechoSST.changes row) = cap
                   ∧ DerechoSST.num_changes row ≤ B)
           (DerechoSST.rows (gmsSST w)).

(** What [merge_changes] needs to run without an out-of-range access or
    an overflow: the local rank names a row, there is a row, a [failed]
    flag and a member id for every rank below [num_members], every row's
    log has the table's capacity, and the counters leave room for one
    proposal per member. *)
Definition merge_ready (v : View.t) (w : World) : Prop :=
  0 ≤ View.my_rank v < Z.of_nat (length (DerechoSST.rows (gmsSST w)))
  ∧ View.num_members v ≤ Z.of_nat (length (DerechoSST.rows (gmsSST w)))
  ∧ View.num_members v ≤ Z.of_nat (length (View.failed v))
  ∧ View.num_members v ≤ Z.of_nat (length (View.members v))
  ∧ Forall (λ row, length (DerechoSST.changes row)
                   = DerechoSST.changes_size (gmsSST w)
                   ∧ DerechoSST.num_changes row + Z.max 0 (View.num_members v)
                     ≤ INT_MAX)
           (DerechoSST.rows (gmsSST w)).

(** Node [n] is listed as departed in some shard of subgroup
    [subgroup_id] of the view. *)
Definition departed_in (new_view : View.t) (subgroup_id : subgroup_id_t)
    (n : node_id_t) : Prop :=
  ∃ shards shard,
    View.subgroup_shard_views new_view !! subgroup_id = Some shards
    ∧ shard ∈ shards ∧ n ∈ SubView.departed shard.

(** What a pending result [p'] is with respect to an earlier state [p] of
    it once the nodes of [ds] have been removed: the same targets, every
    completed entry kept, no entry added but [node_removed] for a node of
    [ds] that was waited on, and no node of [ds] waited on any more. *)
Definition completed_for (ds : list node_id_t) (p p' : PendingResults.t) : Prop :=
  PendingResults.map_fulfilled p' = PendingResults.map_fulfilled p
  ∧ PendingResults.dest_nodes p' = PendingResults.dest_nodes p
  ∧ (∀ m o, PendingResults.outcomes p !! m = Some o →
            PendingResults.outcomes p' !! m = Some o)
  ∧ (∀ m o, PendingResults.outcomes p' !! m = Some o →
       PendingResults.outcomes p !! m = Some o
       ∨ (m ∈ ds ∧ o = PendingResults.node_removed
          ∧ PendingResults.waiting_on p m))
  ∧ (∀ d, d ∈ ds → ¬ PendingResults.waiting_on p' d)
  ∧ (∀ d, d ∈ ds → PendingResults.waiting_on p d →
          PendingResults.outcomes p' !! d = Some PendingResults.node_removed).

(** The number of senders among the ranks below [rank]. *)
Definition senders_below (sv : SubView.t) (rank : nat) : nat :=
  length (filter (λ s, s ≠ 0) (take rank (SubView.is_sender sv))).

(** The number of set flags of a [failed] vector. *)
Definition count_failed (failed : list bool) : nat :=
  length (filter (λ f, f = true) failed).

(** Row [r'] differs from [r] at most in the change log and its two
    counters. *)
Definition log_fields_only (r r' : DerechoSST.Row) : Prop :=
  DerechoSST.seq_num r' = DerechoSST.seq_num r
  ∧ DerechoSST.stable_num r' = DerechoSST.stable_num r
  ∧ DerechoSST.delivered_num r' = DerechoSST.delivered_num r
  ∧ DerechoSST.persisted_num r' = DerechoSST.persisted_num r
  ∧ DerechoSST.vid r' = DerechoSST.vid r
  ∧ DerechoSST.suspected r' = DerechoSST.suspected r
  ∧ DerechoSST.joiner_ips r' = DerechoSST.joiner_ips r
  ∧ DerechoSST.num_acked r' = DerechoSST.num_acked r
  ∧ DerechoSST.num_installed r' = DerechoSST.num_installed r
  ∧ DerechoSST.num_received r' = DerechoSST.num_received r
  ∧ DerechoSST.wedged r' = DerechoSST.wedged r
  ∧ DerechoSST.global_min r' = DerechoSST.global_min r
  ∧ DerechoSST.global_min_ready r' = DerechoSST.global_min_ready r
  ∧ DerechoSST.slots r' = DerechoSST.slots r
  ∧ DerechoSST.num_received_sst r' = DerechoSST.num_received_sst r
  ∧ DerechoSST.local_stability_frontier r'
    = DerechoSST.local_stability_frontier r.

Definition log_field (f : DerechoSST.Field) : Prop :=
  f = DerechoSST.F_changes ∨ f = DerechoSST.F_num_changes
  ∨ f = DerechoSST.F_num_committed.

(** [w'] is reached from [w] by writes to row [me] alone, each to one of
    the three log fields and leaving the other fields of the row alone. *)
Inductive log_writes (me : Z) : World → World → Prop :=
  | log_writes_none (w : World) : log_writes me w w
  | log_writes_more (w w1 w2 : World) (r0 r1 : DerechoSST.Row)
      (f : DerechoSST.Field) :
      log_writes me w w1 →
      gmssst.get_row w1 me = Ret r0 →
      gmssst.write_row w1 me f r1 = Ret w2 →
      log_field f → log_fields_only r0 r1 →
      log_writes me w w2.

(** The ranks below [num_members] that are marked failed. *)
Definition failed_ranks (v : View.t) : list Z :=
  filter (λ n, View.failed v !! Z.to_nat n = Some true)
         (seqZ 0 (View.num_members v)).

(** Row [o] is one of the rows that [merge_changes] reads: the local row
    or the row of a rank below [num_members]. *)
Definition row_read (v : View.t) (w : World) (o : DerechoSST.Row) : Prop :=
  gmssst.get_row w (View.my_rank v) = Ret o
  ∨ ∃ n, 0 ≤ n < View.num_members v ∧ gmssst.get_row w n = Ret o.

(** ** Example configurations *)

Definition addr (last : Z) : ip_and_ports :=
  ("10.0.0.1"%string, 23580 + last, 28366, 37683, 32645).

Definition shard_10_11 : SubView.t :=
  SubView.make ORDERED [10%N; 11%N] [] [addr 0; addr 1].

(** Three members, the lowest-ranked one failed, seen from rank 1. *)
Definition view3 : View.t :=
  {| View.vid := 5;
     View.members := [10%N; 11%N; 12%N];
     View.member_ips_and_ports := [addr 0; addr 1; addr 2];
     View.failed := [true; false; false];
     View.num_failed := 1;
     View.joined := [];
     View.departed := [];
     View.num_members := 3;
     View.my_rank := 1;
     View.next_unassigned_rank := 2;
     View.subgroup_type_order := ["Foo"%string];
     View.subgroup_ids_by_type_id := {[ 0%nat := [0%nat] ]};
     View.subgroup_shard_views := [[shard_10_11]];
     View.my_subgroups := {[ 0%nat := 0 ]};
     View.node_id_to_rank := <[12%N := 2]> (<[11%N := 1]> (<[10%N := 0]> ∅));
     View.i_know_i_am_leader := false |}.

(** The table of [view3] as its constructor leaves it, with an unwedged
    multicast group and no effect performed yet. *)
Definition world3 : World :=
  mkWorld (DerechoSST.init (DerechoSST.mkParams 3 1 3 16 256))
          (MulticastGroup.mk false) [].

(** The table of [view3] once the member of rank 2 has a log of three
    proposals, the first of them committed. *)
Definition row_with_log : DerechoSST.Row :=
  let r := DerechoSST.initial_row (DerechoSST.params (gmsSST world3)) in
  DerechoSST.with_num_committed
    (DerechoSST.with_num_changes
       (DerechoSST.with_changes r
          (<[0%nat := 13%N]> (<[1%nat := 14%N]> (<[2%nat := 15%N]>
             (DerechoSST.changes r)))))
       3)
    1.

Definition world3_behind : World :=
  mkWorld (DerechoSST.mk (DerechoSST.params (gmsSST world3))
             (<[2%nat := row_with_log]> (DerechoSST.rows (gmsSST world3))))
          (MulticastGroup.mk false) [].

(** Two members, the second one failed, seen from rank 0, with a fresh
    table. *)
Definition view2 : View.t :=
  {| View.vid := 0;
     View.members := [10%N; 11%N];
     View.member_ips_and_ports := [addr 0; addr 1];
     View.failed := [false; true];
     View.num_failed := 1;
     View.joined := [];
     View.departed := [];
     View.num_members := 2;
     View.my_rank := 0;
     View.next_unassigned_rank := 0;
     View.subgroup_type_order := [];
     View.subgroup_ids_by_type_id := ∅;
     View.subgroup_shard_views := [];
     View.my_subgroups := ∅;
     View.node_id_to_rank := <[11%N := 1]> (<[10%N := 0]> ∅);
     View.i_know_i_am_leader := false |}.

Definition world2 : World :=
  mkWorld (DerechoSST.init (DerechoSST.mkParams 2 1 2 16 256))
          (MulticastGroup.mk false) [].

(** The view that follows [view3] once node 10 is removed: its one shard
    lists node 10 as departed. *)
Definition shard_after : SubView.t :=
  SubView.mk ORDERED [11%N; 12%N] [1; 1] [addr 1; addr 2] [] [10%N] 0.

Definition view_after : View.t :=
  {| View.vid := 6;
     View.members := [11%N; 12%N];
     View.member_ips_and_ports := [addr 1; addr 2];
     View.failed := [false; false];
     View.num_failed := 0;
     View.joined := [];
     View.departed := [10%N];
     View.num_members := 2;
     View.my_rank := 0;
     View.next_unassigned_rank := 2;
     View.subgroup_type_order := ["Foo"%string];
     View.subgroup_ids_by_type_id := {[ 0%nat := [0%nat] ]};
     View.subgroup_shard_views := [[shard_after]];
     View.my_subgroups := {[ 0%nat := 0 ]};
     View.node_id_to_rank := <[12%N := 1]> (<[11%N := 0]> ∅);
     View.i_know_i_am_leader := false |}.

(** A query to nodes 10 and 11 that node 11 has answered, and one to node
    12 that is complete. *)
Definition pending_on_10 : PendingResults.t :=
  PendingResults.mk true [10%N; 11%N] {[ 11%N := PendingResults.replied ]}.

Definition pending_done : PendingResults.t :=
  PendingResults.mk true [12%N] {[ 12%N := PendingResults.replied ]}.

Definition manager3 : RPCManager.t :=
  RPCManager.mk [10%N; 11%N; 12%N] [] [(0%nat, [pending_done; pending_on_10])].

(** Six live members, seen from rank 4. *)
Definition view6 : View.t :=
  {| View.vid := 9;
     View.members := [20%N; 21%N; 22%N; 23%N; 24%N; 25%N];
     View.member_ips_and_ports :=
       [addr 0; addr 1; addr 2; addr 3; addr 4; addr 5];
     View.failed := [false; false; false; false; false; false];
     View.num_failed := 0;
     View.joined := [];
     View.departed := [];
     View.num_members := 6;
     View.my_rank := 4;
     View.next_unassigned_rank := 0;
     View.subgroup_type_order := ["Foo"; "Bar"; "Cache"]%string;
     View.subgroup_ids_by_type_id := ∅;
     View.subgroup_shard_views := [];
     View.my_subgroups := ∅;
     View.node_id_to_rank :=
       <[25%N := 5]> (<[24%N := 4]> (<[23%N := 3]> (<[22%N := 2]>
         (<[21%N := 1]> (<[20%N := 0]> ∅)))));
     View.i_know_i_am_leader := false |}.

(** * Properties *)

(** ** Auxiliary facts on outcomes and vectors *)

Lemma bind_Ret {A B} (m : res A) (f : A → res B) (b : B) :
  m ≫= f = Ret b ↔ ∃ a, m = Ret a ∧ f a = Ret b.
Proof.
  destruct m as [a| |]; simpl; split.
  - intros H; exists a; auto.
  - intros (a' & Ha & H). by inversion Ha; subst.
  - discriminate.
  - intros (a' & Ha & _); discriminate.
  - discriminate.
  - intros (a' & Ha & _); discriminate.
Qed.

Lemma vec_get_Ret {A} (v : list A) (i : Z) (x : A) :
  vec_get v i = Ret x ↔ 0 ≤ i ∧ v !! Z.to_nat i = Some x.
Proof.
  unfold vec_get. destruct (decide (0 ≤ i)) as [Hi|Hi].
  - destruct (v !! Z.to_nat i) as [y|] eqn:E; split.
    + intros [= ->]; auto.
    + intros [_ [= ->]]; auto.
    + discriminate.
    + intros [_ ?]; discriminate.
  - split; [discriminate | intros [? _]; lia].
Qed.

Lemma vec_get_nat {A} (v : list A) (i : nat) (x : A) :
  v !! i = Some x → vec_get v (Z.of_nat i) = Ret x.
Proof. intros H. apply vec_get_Ret. rewrite Nat2Z.id. split; [lia | done]. Qed.

Lemma vec_set_Ret {A} (v v' : list A) (i : Z) (x : A) :
  vec_set v i x = Ret v' ↔
  0 ≤ i ∧ (Z.to_nat i < length v)%nat ∧ v' = <[Z.to_nat i := x]> v.
Proof.
  unfold vec_set. destruct (decide _) as [H|H]; split.
  - intros [= <-]. tauto.
  - intros (_ & _ & ->). done.
  - discriminate.
  - intros (? & ? & _). tauto.
Qed.

(** ** SubView: senders *)

Lemma count_all_senders (n : nat) (acc : Z) :
  0 ≤ acc → acc + Z.of_nat n < 2 ^ 32 →
  fold_left (λ num i, if decide (i = 0) then num else to_uint32 (num + 1))
            (replicate n 1) acc = acc + Z.of_nat n.
Proof.
  revert acc. induction n as [|n IH]; intros acc H0 Hb; simpl.
  - lia.
  - destruct (decide (1 = 0)) as [?|_]; [lia|].
    unfold to_uint32 at 2. rewrite Z.mod_small by lia.
    rewrite IH by lia. lia.
Qed.

(** C9. A [SubView] built with an empty [is_sender] argument has one
    nonzero flag per member, so every rank is a sender, and [num_senders]
    is the number of members (as long as that number fits the [uint32_t]
    result); a non-empty [is_sender] argument is stored as it is given. *)
Theorem subview_default_senders (mode : Mode) (members : list node_id_t)
    (ips : list ip_and_ports) :
  let sv := SubView.make mode members [] ips in
  length (SubView.is_sender sv) = length members
  ∧ (∀ i : nat, (i < length members)%nat →
       ∃ x, SubView.is_sender sv !! i = Some x ∧ x ≠ 0)
  ∧ (Z.of_nat (length members) < 2 ^ 32 →
       SubView.num_senders sv = Z.of_nat (length members))
  ∧ (∀ is_sender : list Z, is_sender ≠ [] →
       SubView.is_sender (SubView.make mode members is_sender ips) = is_sender).
Proof.
  intros sv. subst sv. unfold SubView.num_senders. simpl.
  split; [by rewrite length_replicate|].
  split.
  { intros i Hi. exists 1. split; [|lia].
    apply lookup_replicate. auto. }
  split.
  { intros Hlen. rewrite count_all_senders; lia. }
  intros is_sender Hne. destruct is_sender; [done|]. reflexivity.
Qed.

Lemma subview_default_senders_witness :
  let sv := SubView.make ORDERED [4%N; 7%N; 9%N] [] [] in
  SubView.is_sender sv = [1; 1; 1]
  ∧ SubView.num_senders sv = 3
  ∧ SubView.is_sender (SubView.make ORDERED [4%N; 7%N; 9%N] [0; 1; 5] []) = [0; 1; 5].
Proof.
  destruct (subview_default_senders ORDERED [4%N; 7%N; 9%N] [])
    as (_ & _ & Hnum & Hgiven).
  split; [reflexivity|]. split.
  - apply Hnum. simpl. lia.
  - apply Hgiven. discriminate.
Defined.

(** ** View: leaders *)

Lemma first_not_failed_spec (failed : list bool) (n : nat) (a : Z) :
  0 ≤ a → a + Z.of_nat n ≤ Z.of_nat (length failed) →
  ∃ r, View.first_not_failed failed (seqZ a (Z.of_nat n)) = Ret r
       ∧ ((r = -1 ∧ ∀ k, a ≤ k < a + Z.of_nat n →
                      failed !! Z.to_nat k = Some true)
          ∨ (a ≤ r < a + Z.of_nat n
             ∧ failed !! Z.to_nat r = Some false
             ∧ ∀ k, a ≤ k < r → failed !! Z.to_nat k = Some true)).
Proof.
  revert a. induction n as [|n IH]; intros a Ha Hlen.
  - simpl. exists (-1). split; [done|]. left. split; [done|]. intros; lia.
  - rewrite seqZ_cons by lia. simpl.
    destruct (lookup_lt_is_Some_2 failed (Z.to_nat a)) as [f Hf]; [lia|].
    rewrite (proj2 (vec_get_Ret failed a f)) by auto. simpl.
    replace (Z.pred (Z.of_nat (S n))) with (Z.of_nat n) by lia.
    destruct f.
    + destruct (IH (Z.succ a)) as (r & Hr & Hcase); [lia..|].
      exists r. split; [done|].
      destruct Hcase as [[-> Hall]|(Hrng & Hlive & Hall)].
      * left. split; [done|]. intros k Hk.
        destruct (decide (k = a)) as [->|]; [done|]. apply Hall. lia.
      * right. split; [lia|]. split; [done|]. intros k Hk.
        destruct (decide (k = a)) as [->|]; [done|]. apply Hall. lia.
    + exists a. split; [done|]. right. split; [lia|]. split; [done|].
      intros; lia.
Qed.

(** C4. [rank_of_leader] returns the smallest rank whose [failed] flag is
    clear, and -1 when the flag of every rank below [num_members] is set;
    [i_am_leader] returns whether that rank equals [my_rank], so a member
    ([my_rank] at least 0) is told it is the leader exactly when it is the
    lowest-ranked member that has not failed. *)
Theorem rank_of_leader_lowest_live (v : View.t) :
  View.num_members v ≤ Z.of_nat (length (View.failed v)) →
  ∃ r, View.rank_of_leader v = Ret r
       ∧ ((r = -1 ∧ ∀ k, 0 ≤ k < View.num_members v →
                      View.failed v !! Z.to_nat k = Some true)
          ∨ (0 ≤ r < View.num_members v
             ∧ View.failed v !! Z.to_nat r = Some false
             ∧ ∀ k, 0 ≤ k < r → View.failed v !! Z.to_nat k = Some true))
       ∧ View.i_am_leader v = Ret (bool_decide (r = View.my_rank v))
       ∧ (0 ≤ View.my_rank v →
          (View.i_am_leader v = Ret true ↔
           View.my_rank v < View.num_members v
           ∧ View.failed v !! Z.to_nat (View.my_rank v) = Some false
           ∧ ∀ k, 0 ≤ k < View.my_rank v →
                  View.failed v !! Z.to_nat k = Some true)).
Proof.
  intros Hlen. unfold View.i_am_leader, View.rank_of_leader.
  destruct (decide (0 ≤ View.num_members v)) as [Hn|Hn].
  - destruct (first_not_failed_spec (View.failed v)
                (Z.to_nat (View.num_members v)) 0) as (r & Hr & Hcase);
      [lia..|].
    rewrite Z2Nat.id in Hr, Hcase by done. rewrite Z.add_0_l in Hcase.
    exists r. rewrite Hr. simpl. split; [done|]. split; [done|].
    split; [done|]. intros Hme. split.
    + intros [= Heq]. apply bool_decide_eq_true in Heq. subst r.
      destruct Hcase as [[? _]|(? & ? & ?)]; [lia|]. auto with lia.
    + intros (Hlt & Hlive & Hbelow). f_equal. apply bool_decide_eq_true.
      destruct Hcase as [[-> Hall]|(Hrng & Hrlive & Hall)].
      * rewrite Hall in Hlive by lia. discriminate.
      * destruct (Z.lt_trichotomy r (View.my_rank v)) as [Hlt'|[->|Hgt]];
          [|done|].
        -- rewrite Hbelow in Hrlive by lia. discriminate.
        -- rewrite Hall in Hlive by lia. discriminate.
  - rewrite seqZ_nil by lia. simpl. exists (-1).
    split; [done|]. split; [left; split; [done|]; intros; lia|].
    split; [done|]. intros Hme. split.
    + intros [= Heq]. apply bool_decide_eq_true in Heq. lia.
    + intros (? & _). lia.
Qed.

Lemma rank_of_leader_lowest_live_witness :
  View.num_members view3 ≤ Z.of_nat (length (View.failed view3))
  ∧ View.rank_of_leader view3 = Ret 1
  ∧ View.i_am_leader view3 = Ret true.
Proof.
  assert (H : View.num_members view3 ≤ Z.of_nat (length (View.failed view3)))
    by (simpl; lia).
  split; [exact H|].
  destruct (rank_of_leader_lowest_live view3 H) as (r & Hr & _ & Hlead & _).
  split; [reflexivity|]. rewrite Hlead.
  assert (r = 1) as -> by (vm_compute in Hr; congruence).
  reflexivity.
Defined.

(** ** View: the rank index and shard leaders *)

Lemma index_members_lookup (ms : list node_id_t) (n : nat) (a : Z)
    (m0 m' : gmap node_id_t Z) :
  0 ≤ a →
  for_each (seqZ a (Z.of_nat n))
    (λ rank m, id ← vec_get ms rank; Ret (<[id := rank]> m)) m0 = Ret m' →
  (∀ id, (∀ k, a ≤ k < a + Z.of_nat n → ms !! Z.to_nat k ≠ Some id) →
         m' !! id = m0 !! id)
  ∧ (NoDup ms → ∀ k id, a ≤ k < a + Z.of_nat n →
       ms !! Z.to_nat k = Some id → m' !! id = Some k).
Proof.
  revert a m0. induction n as [|n IH]; intros a m0 Ha Hrun.
  - simpl in Hrun. injection Hrun as <-. split; [done|]. intros; lia.
  - rewrite seqZ_cons in Hrun by lia. simpl in Hrun.
    apply bind_Ret in Hrun as (m1 & Hbody & Hrest).
    apply bind_Ret in Hbody as (id0 & Hget & [= <-]).
    apply vec_get_Ret in Hget as [_ Hid0].
    replace (Z.pred (Z.of_nat (S n))) with (Z.of_nat n) in Hrest by lia.
    destruct (IH (Z.succ a) _ ltac:(lia) Hrest) as [Hout Hin].
    split.
    + intros id Hno. rewrite Hout by (intros k Hk; apply Hno; lia).
      apply lookup_insert_ne. intros ->. by apply (Hno a ltac:(lia)).
    + intros Hnd k id Hk Hkid.
      destruct (decide (k = a)) as [->|Hne].
      * assert (id = id0) as -> by congruence.
        rewrite Hout; [apply lookup_insert_eq|].
        intros k' Hk' Hk'id.
        pose proof (NoDup_lookup _ _ _ _ Hnd Hk'id Hid0). lia.
      * apply Hin; [done|lia|done].
Qed.

Lemma rank_of_member (v : View.t) (k : nat) (m : node_id_t) :
  well_formed_view v → View.members v !! k = Some m →
  View.rank_of v m = Z.of_nat k.
Proof.
  intros [Hn _ _ Hidx Hnd] Hk. unfold View.rank_of, View.index_members in *.
  rewrite Hn in Hidx.
  destruct (index_members_lookup _ _ 0 _ _ ltac:(lia) Hidx) as [_ Hin].
  rewrite (Hin Hnd (Z.of_nat k) m); [done| |by rewrite Nat2Z.id].
  apply lookup_lt_Some in Hk. lia.
Qed.

Lemma failed_flag_of_member (v : View.t) (m : node_id_t) :
  well_formed_view v → m ∈ View.members v →
  ∃ f, vec_get (View.failed v) (View.rank_of v m) = Ret f
       ∧ (f = true ↔ marked_failed v m).
Proof.
  intros Hwf Hm. apply list_elem_of_lookup in Hm as [k Hk].
  rewrite (rank_of_member v k m Hwf Hk).
  destruct (lookup_lt_is_Some_2 (View.failed v) k) as [f Hf].
  { rewrite (wf_failed v Hwf). by eapply lookup_lt_Some. }
  exists f. split; [by apply vec_get_nat|]. split.
  - intros ->. by exists k.
  - intros (k' & Hk' & Hf').
    assert (k' = k) as -> by (eapply NoDup_lookup; eauto using wf_nodup).
    congruence.
Qed.

Lemma first_live_member_spec (v : View.t) (ms : list node_id_t) (rank : nat) :
  well_formed_view v → (∀ m, m ∈ ms → m ∈ View.members v) →
  ∃ z, View.first_live_member v rank ms = Ret z
       ∧ ((z = -1 ∧ ∀ m, m ∈ ms → marked_failed v m)
          ∨ ∃ (j : nat) (m : node_id_t),
              ms !! j = Some m
              ∧ z = to_int32 (Z.of_nat (rank + j))
              ∧ ¬ marked_failed v m
              ∧ ∀ (i : nat) m', (i < j)%nat → ms !! i = Some m' →
                                marked_failed v m').
Proof.
  intros Hwf. revert rank. induction ms as [|m ms IH]; intros rank Hsub.
  - simpl. exists (-1). split; [done|]. left. split; [done|].
    intros m Hm. by apply elem_of_nil in Hm.
  - simpl.
    destruct (failed_flag_of_member v m Hwf) as (f & Hget & Hf).
    { apply Hsub. left. }
    rewrite Hget. simpl. destruct f.
    + destruct (IH (S rank)) as (z & Hz & Hcase).
      { intros m' Hm'. apply Hsub. by right. }
      exists z. split; [done|].
      destruct Hcase as [[-> Hall]|(j & m' & Hj & -> & Hlive & Hbelow)].
      * left. split; [done|]. intros m' [->|Hm']%elem_of_cons; [by apply Hf|auto].
      * right. exists (S j), m'. split; [done|].
        split; [f_equal; lia|]. split; [done|].
        intros [|i] m'' Hi Hm''; simpl in Hm''.
        -- injection Hm'' as <-. by apply Hf.
        -- apply (Hbelow i); [lia|done].
    + exists (to_int32 (Z.of_nat rank)). split; [done|]. right.
      exists 0%nat, m. split; [done|]. split; [f_equal; lia|].
      split; [|intros; lia].
      intros Hmf. apply Hf in Hmf. discriminate.
Qed.

Lemma to_int32_small (z : Z) : 0 ≤ z ≤ INT_MAX → to_int32 z = z.
Proof.
  unfold to_int32, INT_MAX. intros H. rewrite Z.mod_small; lia.
Qed.

(** C5. In a well-formed view whose shard members are all members of the
    view, [subview_rank_of_shard_leader] returns -1 when [shard_index] is
    out of range for the subgroup or when every member of the shard is
    marked failed, and otherwise the smallest rank of the shard's member
    list whose member is not marked failed (converted to [int], which
    leaves a rank up to [INT_MAX] as it is). *)
Theorem shard_leader_lowest_live (v : View.t) (subgroup_id : subgroup_id_t)
    (shard_index : nat) (shards : list SubView.t) :
  well_formed_view v → shards_within_members v →
  View.subgroup_shard_views v !! subgroup_id = Some shards →
  ∃ z, View.subview_rank_of_shard_leader v subgroup_id shard_index = Ret z
       ∧ match shards !! shard_index with
         | None => z = -1
         | Some shard =>
             (z = -1 ∧ ∀ m, m ∈ SubView.members shard → marked_failed v m)
             ∨ ∃ (k : nat) (m : node_id_t),
                 SubView.members shard !! k = Some m
                 ∧ z = to_int32 (Z.of_nat k)
                 ∧ (Z.of_nat k ≤ INT_MAX → z = Z.of_nat k)
                 ∧ ¬ marked_failed v m
                 ∧ ∀ (i : nat) m', (i < k)%nat →
                     SubView.members shard !! i = Some m' →
                     marked_failed v m'
         end.
Proof.
  intros Hwf Hin Hsg. unfold View.subview_rank_of_shard_leader, vec_at.
  rewrite Hsg. simpl.
  destruct (decide (length shards ≤ shard_index)%nat) as [Hge|Hlt].
  - exists (-1). split; [done|]. by rewrite lookup_ge_None_2.
  - destruct (lookup_lt_is_Some_2 shards shard_index) as [shard Hshard]; [lia|].
    rewrite Hshard. simpl.
    destruct (first_live_member_spec v (SubView.members shard) 0 Hwf)
      as (z & Hz & Hcase).
    { intros m Hm. eapply Hin; [|eapply list_elem_of_lookup_2, Hshard|done].
      eapply list_elem_of_lookup_2, Hsg. }
    exists z. split; [done|].
    destruct Hcase as [?|(j & m & Hj & -> & Hlive & Hbelow)]; [by left|].
    right. exists j, m. split; [done|]. split; [done|].
    split; [|done]. intros Hj'. apply to_int32_small. simpl. lia.
Qed.

Lemma view3_well_formed : well_formed_view view3.
Proof.
  split; try reflexivity.
  simpl. by apply (bool_decide_unpack _).
Qed.

Lemma view3_shards_within : shards_within_members view3.
Proof.
  intros shards shard m Hs Hsh Hm. simpl in *.
  apply list_elem_of_singleton in Hs as ->.
  apply list_elem_of_singleton in Hsh as ->.
  simpl in Hm. rewrite !elem_of_cons in Hm. rewrite !elem_of_cons.
  destruct Hm as [->|[->|Hm]]; [by left|by right; left|].
  by apply elem_of_nil in Hm.
Qed.

Lemma shard_leader_lowest_live_witness :
  well_formed_view view3 ∧ shards_within_members view3
  ∧ View.subview_rank_of_shard_leader view3 0 0 = Ret 1
  ∧ View.subview_rank_of_shard_leader view3 0 1 = Ret (-1).
Proof.
  split; [exact view3_well_formed|]. split; [exact view3_shards_within|].
  destruct (shard_leader_lowest_live view3 0 0 [shard_10_11]
              view3_well_formed view3_shards_within eq_refl) as (z & Hz & _).
  destruct (shard_leader_lowest_live view3 0 1 [shard_10_11]
              view3_well_formed view3_shards_within eq_refl) as (z' & Hz' & ->).
  split; [|exact Hz'].
  rewrite Hz. vm_compute in Hz. congruence.
Defined.

(** ** View: sub-views *)

Lemma find_pos_le (ms : list node_id_t) (x : node_id_t) :
  (View.find_pos ms x ≤ length ms)%nat.
Proof. induction ms as [|m ms IH]; simpl; [lia|]. destruct (decide (m = x)); lia. Qed.

Lemma find_pos_absent (ms : list node_id_t) (x : node_id_t) :
  View.find_pos ms x = length ms ↔ x ∉ ms.
Proof.
  induction ms as [|m ms IH]; simpl.
  - split; [intros _; apply not_elem_of_nil | done].
  - destruct (decide (m = x)) as [->|Hne].
    + split; [discriminate|]. intros H. exfalso. apply H. left.
    + rewrite not_elem_of_cons. split.
      * intros [= H]. split; [congruence|]. by apply IH.
      * intros [_ H]. f_equal. by apply IH.
Qed.

Lemma find_pos_first (ms : list node_id_t) (x : node_id_t) :
  x ∈ ms →
  ms !! View.find_pos ms x = Some x
  ∧ ∀ j : nat, (j < View.find_pos ms x)%nat → ms !! j ≠ Some x.
Proof.
  induction ms as [|m ms IH]; intros Hx.
  - by apply elem_of_nil in Hx.
  - simpl. destruct (decide (m = x)) as [->|Hne].
    + split; [done|]. intros; lia.
    + apply elem_of_cons in Hx as [->|Hx]; [done|].
      destruct (IH Hx) as [Hat Hbefore]. split; [done|].
      intros [|j] Hj; simpl; [congruence|]. apply Hbefore. lia.
Qed.

Section make_subview.

Variable v : View.t.
Variable with_members : list node_id_t.
Hypothesis Hips :
  length (View.member_ips_and_ports v) = length (View.members v).

Lemma body_present (rank : nat) (id : node_id_t) (acc : list ip_and_ports) :
  with_members !! rank = Some id → id ∈ View.members v →
  (rank < length acc)%nat →
  ∃ a, View.member_ips_and_ports v !! View.find_pos (View.members v) id = Some a
       ∧ (View.place_member v with_members) rank acc = Ret (<[rank := a]> acc).
Proof.
  intros Hid Hin Hlen. unfold View.place_member.
  rewrite (vec_get_nat _ _ _ Hid). simpl.
  destruct (decide _) as [Habs|_].
  { by apply find_pos_absent in Habs. }
  destruct (find_pos_first _ _ Hin) as [Hat _].
  destruct (lookup_lt_is_Some_2 (View.member_ips_and_ports v)
              (View.find_pos (View.members v) id)) as [a Ha].
  { rewrite Hips. by eapply lookup_lt_Some. }
  exists a. split; [done|]. rewrite (vec_get_nat _ _ _ Ha). simpl.
  unfold vec_set. rewrite Nat2Z.id.
  destruct (decide _) as [_|Hbad]; [done|]. exfalso. apply Hbad. lia.
Qed.

Lemma fill_all_present (d k : nat) (acc : list ip_and_ports) :
  (k + d ≤ length with_members)%nat → length acc = length with_members →
  (∀ (rank : nat) id, (k ≤ rank < k + d)%nat →
     with_members !! rank = Some id → id ∈ View.members v) →
  ∃ acc', for_each (seq k d) (View.place_member v with_members) acc = Ret acc'
          ∧ length acc' = length with_members
          ∧ (∀ rank : nat, (rank < k)%nat → acc' !! rank = acc !! rank)
          ∧ (∀ (rank : nat) id, (k ≤ rank < k + d)%nat →
               with_members !! rank = Some id →
               acc' !! rank
               = View.member_ips_and_ports v !! View.find_pos (View.members v) id).
Proof.
  revert k acc. induction d as [|d IH]; intros k acc Hk Hlen Hall.
  - simpl. exists acc. split; [done|]. split; [done|]. split; [done|].
    intros; lia.
  - simpl.
    destruct (lookup_lt_is_Some_2 with_members k) as [id Hid]; [lia|].
    destruct (body_present k id acc Hid) as (a & Ha & Hbody).
    { apply (Hall k); [lia|done]. }
    { lia. }
    rewrite Hbody. simpl.
    destruct (IH (S k) (<[k := a]> acc)) as (acc' & Hrun & Hlen' & Hlow & Hhigh).
    { lia. }
    { by rewrite length_insert. }
    { intros rank id' Hr. apply Hall. lia. }
    exists acc'. split; [done|]. split; [done|]. split.
    + intros rank Hr. rewrite Hlow by lia. apply list_lookup_insert_ne. lia.
    + intros rank id' Hr Hid'.
      destruct (decide (rank = k)) as [->|Hne].
      * rewrite Hlow by lia. rewrite list_lookup_insert_eq by lia.
        congruence.
      * apply Hhigh; [lia|done].
Qed.

Lemma fill_one_absent (d k : nat) (acc : list ip_and_ports) :
  (k + d ≤ length with_members)%nat → length acc = length with_members →
  (∃ (rank : nat) id, (k ≤ rank < k + d)%nat
     ∧ with_members !! rank = Some id ∧ id ∉ View.members v) →
  for_each (seq k d) (View.place_member v with_members) acc = Throw subgroup_provisioning_exception.
Proof.
  revert k acc. induction d as [|d IH]; intros k acc Hk Hlen Hex.
  - destruct Hex as (rank & _ & Hr & _). lia.
  - simpl.
    destruct (lookup_lt_is_Some_2 with_members k) as [id Hid]; [lia|].
    destruct (decide (id ∈ View.members v)) as [Hin|Hout].
    + destruct (body_present k id acc Hid Hin) as (a & _ & Hbody); [lia|].
      rewrite Hbody. simpl. apply IH; [lia|by rewrite length_insert|].
      destruct Hex as (rank & id' & Hr & Hid' & Hout).
      exists rank, id'. split; [|done].
      destruct (decide (rank = k)) as [->|]; [congruence|lia].
    + unfold View.place_member. rewrite (vec_get_nat _ _ _ Hid). simpl.
      destruct (decide _) as [_|Hbad]; [done|].
      exfalso. by apply Hbad, find_pos_absent.
Qed.

End make_subview.

(** C6. With one address entry per member, [make_subview] throws
    [subgroup_provisioning_exception] exactly when some id of
    [with_members] is not among the view's members; otherwise it returns a
    [SubView] whose members are [with_members] and whose address entry at
    each rank is the view's entry at the position of that node. The call
    is a [const] member: it reads the view and yields only the [SubView]. *)
Theorem make_subview_throws_iff_unknown_member (v : View.t)
    (with_members : list node_id_t) (mode : Mode) (is_sender : list Z) :
  length (View.member_ips_and_ports v) = length (View.members v) →
  (View.make_subview v with_members mode is_sender
   = Throw subgroup_provisioning_exception
   ↔ ∃ id, id ∈ with_members ∧ id ∉ View.members v)
  ∧ ((∀ id, id ∈ with_members → id ∈ View.members v) →
     ∃ sv, View.make_subview v with_members mode is_sender = Ret sv
           ∧ SubView.members sv = with_members
           ∧ SubView.mode sv = mode
           ∧ length (SubView.member_ips_and_ports sv) = length with_members
           ∧ ∀ (rank : nat) id, with_members !! rank = Some id →
               ∃ (pos : nat) a,
                 View.members v !! pos = Some id
                 ∧ (∀ j : nat, (j < pos)%nat → View.members v !! j ≠ Some id)
                 ∧ View.member_ips_and_ports v !! pos = Some a
                 ∧ SubView.member_ips_and_ports sv !! rank = Some a).
Proof.
  intros Hips.
  assert (Hpresent : (∀ id, id ∈ with_members → id ∈ View.members v) →
     ∃ sv, View.make_subview v with_members mode is_sender = Ret sv
           ∧ SubView.members sv = with_members
           ∧ SubView.mode sv = mode
           ∧ length (SubView.member_ips_and_ports sv) = length with_members
           ∧ ∀ (rank : nat) id, with_members !! rank = Some id →
               ∃ (pos : nat) a,
                 View.members v !! pos = Some id
                 ∧ (∀ j : nat, (j < pos)%nat → View.members v !! j ≠ Some id)
                 ∧ View.member_ips_and_ports v !! pos = Some a
                 ∧ SubView.member_ips_and_ports sv !! rank = Some a).
  { intros Hall. unfold View.make_subview.
    destruct (fill_all_present v with_members Hips (length with_members) 0
                (replicate (length with_members) View.default_ip_and_ports))
      as (ips & Hrun & Hlen & _ & Hfill).
    { lia. }
    { apply length_replicate. }
    { intros rank id _ Hid. apply Hall. by eapply list_elem_of_lookup_2. }
    rewrite Hrun. simpl. eexists. split; [reflexivity|]. simpl.
    split; [done|]. split; [done|]. split; [done|].
    intros rank id Hid.
    assert (Hin : id ∈ View.members v)
      by (apply Hall; by eapply list_elem_of_lookup_2).
    destruct (find_pos_first _ _ Hin) as [Hat Hbefore].
    destruct (lookup_lt_is_Some_2 (View.member_ips_and_ports v)
                (View.find_pos (View.members v) id)) as [a Ha].
    { rewrite Hips. by eapply lookup_lt_Some. }
    exists (View.find_pos (View.members v) id), a.
    split; [done|]. split; [done|]. split; [done|].
    rewrite (Hfill rank id); [done| |done].
    apply lookup_lt_Some in Hid. lia. }
  split; [|exact Hpresent]. split.
  - intros Hthrow.
    destruct (decide (Forall (λ id, id ∈ View.members v) with_members))
      as [Hall|Hnot].
    + rewrite Forall_forall in Hall.
      destruct (Hpresent Hall) as (sv & Hsv & _). congruence.
    + apply not_Forall_Exists in Hnot; [|intros id; apply _].
      apply Exists_exists in Hnot as (id & Hid & Hout). eauto.
  - intros (id & Hid & Hout). unfold View.make_subview.
    apply list_elem_of_lookup in Hid as [rank Hrank].
    rewrite (fill_one_absent v with_members Hips (length with_members) 0);
      [done|lia|apply length_replicate|].
    exists rank, id. split; [|done]. apply lookup_lt_Some in Hrank. lia.
Qed.

Lemma make_subview_throws_iff_unknown_member_witness :
  length (View.member_ips_and_ports view3) = length (View.members view3)
  ∧ View.make_subview view3 [12%N; 10%N] RAW [] =
      Ret (SubView.make RAW [12%N; 10%N] [] [addr 2; addr 0])
  ∧ View.make_subview view3 [12%N; 13%N] RAW []
    = Throw subgroup_provisioning_exception.
Proof.
  split; [reflexivity|].
  destruct (make_subview_throws_iff_unknown_member view3 [12%N; 13%N] RAW []
              eq_refl) as [Hthrow _].
  split; [reflexivity|].
  apply Hthrow. exists 13%N. split.
  - right. left.
  - simpl. rewrite !not_elem_of_cons. repeat split; try discriminate.
    apply not_elem_of_nil.
Defined.

(** ** View: serialization *)

Lemma index_members_defined (ms : list node_id_t) (n : nat) (a : Z)
    (m0 : gmap node_id_t Z) :
  0 ≤ a → a + Z.of_nat n ≤ Z.of_nat (length ms) →
  ∃ m', for_each (seqZ a (Z.of_nat n))
          (λ rank m, id ← vec_get ms rank; Ret (<[id := rank]> m)) m0 = Ret m'.
Proof.
  revert a m0. induction n as [|n IH]; intros a m0 Ha Hlen.
  - simpl. eauto.
  - rewrite seqZ_cons by lia. simpl.
    destruct (lookup_lt_is_Some_2 ms (Z.to_nat a)) as [id Hid]; [lia|].
    rewrite (proj2 (vec_get_Ret ms a id)) by auto. simpl.
    replace (Z.pred (Z.of_nat (S n))) with (Z.of_nat n) by lia.
    apply IH; lia.
Qed.

(** C3, as the code has it. For a view whose [num_members] does not exceed
    its member count, deserializing the serialized form succeeds and
    yields a view equal to the original in each serialized field; the
    local fields [my_rank] and [next_unassigned_rank] are not carried over
    and are both 0 in the result. *)
Theorem deserialize_serialize_fields (v : View.t) :
  View.num_members v ≤ Z.of_nat (length (View.members v)) →
  ∃ v', View.deserialize (View.serialize v) = Ret v'
        ∧ View.vid v' = View.vid v
        ∧ View.members v' = View.members v
        ∧ View.member_ips_and_ports v' = View.member_ips_and_ports v
        ∧ View.failed v' = View.failed v
        ∧ View.num_failed v' = View.num_failed v
        ∧ View.joined v' = View.joined v
        ∧ View.departed v' = View.departed v
        ∧ View.num_members v' = View.num_members v
        ∧ View.subgroup_ids_by_type_id v' = View.subgroup_ids_by_type_id v
        ∧ View.subgroup_shard_views v' = View.subgroup_shard_views v
        ∧ View.my_subgroups v' = View.my_subgroups v
        ∧ View.my_rank v' = 0
        ∧ View.next_unassigned_rank v' = 0.
Proof.
  intros Hlen. unfold View.deserialize, View.serialize, View.from_fields.
  simpl. unfold View.index_members.
  destruct (decide (0 ≤ View.num_members v)) as [Hn|Hn].
  - destruct (index_members_defined (View.members v)
                (Z.to_nat (View.num_members v)) 0 ∅) as [idx Hidx]; [lia..|].
    rewrite Z2Nat.id in Hidx by done. rewrite Hidx. simpl.
    eexists. split; [reflexivity|]. simpl. repeat split.
  - rewrite seqZ_nil by lia. simpl.
    eexists. split; [reflexivity|]. simpl. repeat split.
Qed.

Lemma deserialize_serialize_fields_witness :
  View.num_members view3 ≤ Z.of_nat (length (View.members view3))
  ∧ ∃ v', View.deserialize (View.serialize view3) = Ret v'
          ∧ View.members v' = [10%N; 11%N; 12%N]
          ∧ View.failed v' = [true; false; false]
          ∧ View.my_rank v' = 0.
Proof.
  assert (H : View.num_members view3 ≤ Z.of_nat (length (View.members view3)))
    by (simpl; lia).
  split; [exact H|].
  destruct (deserialize_serialize_fields view3 H)
    as (v' & Hv' & _ & Hm & _ & Hf & _ & _ & _ & _ & _ & _ & _ & Hr & _).
  exists v'. split; [exact Hv'|]. split; [exact Hm|]. split; [exact Hf|].
  exact Hr.
Defined.

(** C3, as the claim has it, fails: [view3] has [my_rank] 1 and
    [next_unassigned_rank] 2, and the view read back has 0 for both. *)
Lemma deserialize_serialize_loses_my_rank :
  View.deserialize (View.serialize view3) ≠ Ret view3.
Proof.
  intros H.
  apply (f_equal (λ r, match r with Ret v' => View.my_rank v' | _ => 1 end)) in H.
  vm_compute in H. discriminate.
Qed.

(** ** View: the new leader *)

Lemma i_am_new_leader_true_sets_flag (v v1 : View.t) (w : World) :
  View.i_am_new_leader v w = Ret (true, v1) →
  View.i_know_i_am_leader v1 = true.
Proof.
  unfold View.i_am_new_leader.
  destruct (View.i_know_i_am_leader v); [discriminate|].
  intros H. apply bind_Ret in H as (b & _ & H).
  destruct b; [|discriminate]. by injection H as <-.
Qed.

Lemma i_am_new_leader_old_leader (v : View.t) (w : World) :
  View.i_know_i_am_leader v = true →
  View.i_am_new_leader v w = Ret (false, v).
Proof. unfold View.i_am_new_leader. by intros ->. Qed.

Lemma leader_calls_old_leader (v v' : View.t) (bs : list bool) :
  leader_calls v bs v' → View.i_know_i_am_leader v = true →
  Forall (λ b, b = false) bs.
Proof.
  induction 1 as [|v w b v1 v2 bs v3 Hcall Henv _ IH]; intros Hknow.
  - constructor.
  - rewrite (i_am_new_leader_old_leader v w Hknow) in Hcall.
    injection Hcall as <- <-. constructor; [done|].
    apply IH. congruence.
Qed.

(** C10. In any sequence of calls of [i_am_new_leader] on one view, a call
    that returns true is followed only by calls that return false: the
    function returns true at most once. *)
Theorem i_am_new_leader_true_at_most_once (v v' : View.t) (bs : list bool) :
  leader_calls v bs v' →
  ∀ i j : nat, (i < j < length bs)%nat →
    bs !! i = Some true → bs !! j = Some false.
Proof.
  induction 1 as [|v w b v1 v2 bs v3 Hcall Henv Hrest IH]; intros i j Hij Hi.
  - simpl in Hij. lia.
  - destruct i as [|i]; simpl in Hi.
    + injection Hi as ->.
      apply i_am_new_leader_true_sets_flag in Hcall.
      assert (Hall : Forall (λ b, b = false) bs)
        by (eapply leader_calls_old_leader; [done|congruence]).
      destruct j as [|j]; [lia|]. simpl in *.
      destruct (lookup_lt_is_Some_2 bs j) as [b Hb]; [lia|].
      rewrite Hb. f_equal. eapply (proj1 (Forall_lookup _ _) Hall); done.
    + destruct j as [|j]; [lia|]. simpl in *. apply (IH i j); [lia|done].
Qed.

Lemma i_am_new_leader_true_at_most_once_witness :
  leader_calls view3 [true; false; false] (View.set_i_know_i_am_leader view3 true)
  ∧ [true; false; false] !! 2%nat = Some false.
Proof.
  assert (H : leader_calls view3 [true; false; false]
                (View.set_i_know_i_am_leader view3 true)).
  { eapply (leader_calls_step view3 world3); [reflexivity|reflexivity|].
    eapply (leader_calls_step _ world3); [reflexivity|reflexivity|].
    eapply (leader_calls_step _ world3); [reflexivity|reflexivity|].
    apply leader_calls_done. }
  split; [exact H|].
  apply (i_am_new_leader_true_at_most_once _ _ _ H 0%nat 2%nat);
    [simpl; lia|reflexivity].
Defined.

(** ** The row layout and [wedge] *)

Lemma filter_none {A} (P : A → Prop) `{!∀ x, Decision (P x)} (l : list A) :
  (∀ x, x ∈ l → ¬ P x) → filter P l = [].
Proof.
  induction l as [|x l IH]; intros Hall; [done|].
  rewrite filter_cons_False by (apply Hall; left).
  apply IH. intros y Hy. apply Hall. by right.
Qed.

Lemma offset_in_head (p : DerechoSST.Params) (f : DerechoSST.Field)
    (fs : list DerechoSST.Field) :
  DerechoSST.offset_in p (f :: fs) f = 0%nat.
Proof. simpl. by rewrite decide_True. Qed.

Lemma offset_in_tail (p : DerechoSST.Params) (h g : DerechoSST.Field)
    (fs : list DerechoSST.Field) :
  h ≠ g →
  DerechoSST.offset_in p (h :: fs) g
  = (DerechoSST.field_bytes p h + DerechoSST.offset_in p fs g)%nat.
Proof. intros Hne. simpl. by rewrite decide_False. Qed.

(** A byte range that is exactly the extent of a non-empty field meets
    no other field of the layout. *)
Lemma range_of_field_meets_only_it (p : DerechoSST.Params)
    (fs : list DerechoSST.Field) (f : DerechoSST.Field)
    (P : DerechoSST.Field → Prop) `{!∀ g, Decision (P g)} :
  NoDup fs → f ∈ fs → (0 < DerechoSST.field_bytes p f)%nat →
  (∀ g, g ∈ fs →
     P g ↔ (DerechoSST.offset_in p fs g
              < DerechoSST.offset_in p fs f + DerechoSST.field_bytes p f
            ∧ DerechoSST.offset_in p fs f
              < DerechoSST.offset_in p fs g + DerechoSST.field_bytes p g)%nat) →
  filter P fs = [f].
Proof.
  induction fs as [|h fs IH]; intros Hnd Hf Hpos HP.
  - by apply elem_of_nil in Hf.
  - apply NoDup_cons in Hnd as [Hh Hnd].
    destruct (decide (h = f)) as [->|Hne].
    + rewrite filter_cons_True.
      2:{ apply HP; [left|]. rewrite offset_in_head. lia. }
      f_equal. apply filter_none. intros g Hg HPg.
      assert (f ≠ g) by (intros ->; done).
      apply HP in HPg; [|by right].
      rewrite offset_in_head, offset_in_tail in HPg by done. lia.
    + apply elem_of_cons in Hf as [->|Hf]; [done|].
      rewrite filter_cons_False.
      2:{ intros HPh. apply HP in HPh; [|left].
          rewrite offset_in_head, offset_in_tail in HPh by done. lia. }
      apply IH; [done..|]. intros g Hg.
      assert (h ≠ g) by (intros ->; done).
      rewrite (HP g) by (by right).
      rewrite !offset_in_tail by done. lia.
Qed.

Lemma fields_in_order_NoDup : NoDup DerechoSST.fields_in_order.
Proof. by apply (bool_decide_unpack _). Qed.

Lemma put_of_wedged_publishes_wedged (p : DerechoSST.Params) :
  DerechoSST.published_fields p (DerechoSST.get_base p DerechoSST.F_wedged)
    (Z.of_nat (DerechoSST.sizeof_elem p DerechoSST.F_wedged))
  = [DerechoSST.F_wedged].
Proof.
  unfold DerechoSST.published_fields.
  apply (range_of_field_meets_only_it p).
  - apply fields_in_order_NoDup.
  - by apply (bool_decide_unpack _).
  - cbv. lia.
  - intros g _. unfold DerechoSST.get_base.
    change (DerechoSST.sizeof_elem p DerechoSST.F_wedged) with 1%nat.
    change (DerechoSST.field_bytes p DerechoSST.F_wedged) with 1%nat.
    lia.
Qed.

Lemma write_row_Ret (w w' : World) (row : Z) (f : DerechoSST.Field)
    (r : DerechoSST.Row) :
  gmssst.write_row w row f r = Ret w' ↔
  0 ≤ row ∧ (Z.to_nat row < length (DerechoSST.rows (gmsSST w)))%nat
  ∧ w' = mkWorld (DerechoSST.mk (DerechoSST.params (gmsSST w))
                    (<[Z.to_nat row := r]> (DerechoSST.rows (gmsSST w))))
                 (multicast_group w) (trace w ++ [E_set row f]).
Proof.
  unfold gmssst.write_row. rewrite bind_Ret. split.
  - intros (rs & Hset & [= <-]). apply vec_set_Ret in Hset as (? & ? & ->).
    done.
  - intros (? & ? & ->). eexists. split; [|reflexivity].
    apply vec_set_Ret. done.
Qed.

Lemma get_row_Ret (w : World) (row : Z) (r : DerechoSST.Row) :
  gmssst.get_row w row = Ret r ↔
  0 ≤ row ∧ DerechoSST.rows (gmsSST w) !! Z.to_nat row = Some r.
Proof. apply vec_get_Ret. Qed.

(** C8. On a valid local row, [wedge] performs three effects in this
    order: it wedges the multicast group, it sets the local row's
    [wedged] field, and it issues one [put] whose byte range meets the
    field [wedged] and no other. Afterwards the local row has [wedged]
    true, whatever it was before, and every other field as before; the
    other rows are untouched. *)
Theorem wedge_sets_and_publishes_only_wedged (v : View.t) (w : World)
    (r : DerechoSST.Row) :
  gmssst.get_row w (View.my_rank v) = Ret r →
  ∃ (w' : World) (r' : DerechoSST.Row) (offset size : Z),
    View.wedge v w = Ret w'
    ∧ trace w' = trace w ++ [E_multicast_wedge;
                             E_set (View.my_rank v) DerechoSST.F_wedged;
                             E_put offset size]
    ∧ DerechoSST.published_fields (DerechoSST.params (gmsSST w)) offset size
      = [DerechoSST.F_wedged]
    ∧ MulticastGroup.wedged (multicast_group w') = true
    ∧ gmssst.get_row w' (View.my_rank v) = Ret r'
    ∧ DerechoSST.wedged r' = true
    ∧ (DerechoSST.seq_num r' = DerechoSST.seq_num r
       ∧ DerechoSST.stable_num r' = DerechoSST.stable_num r
       ∧ DerechoSST.delivered_num r' = DerechoSST.delivered_num r
       ∧ DerechoSST.persisted_num r' = DerechoSST.persisted_num r
       ∧ DerechoSST.vid r' = DerechoSST.vid r
       ∧ DerechoSST.suspected r' = DerechoSST.suspected r
       ∧ DerechoSST.changes r' = DerechoSST.changes r
       ∧ DerechoSST.joiner_ips r' = DerechoSST.joiner_ips r
       ∧ DerechoSST.num_changes r' = DerechoSST.num_changes r
       ∧ DerechoSST.num_committed r' = DerechoSST.num_committed r
       ∧ DerechoSST.num_acked r' = DerechoSST.num_acked r
       ∧ DerechoSST.num_installed r' = DerechoSST.num_installed r
       ∧ DerechoSST.num_received r' = DerechoSST.num_received r
       ∧ DerechoSST.global_min r' = DerechoSST.global_min r
       ∧ DerechoSST.global_min_ready r' = DerechoSST.global_min_ready r
       ∧ DerechoSST.slots r' = DerechoSST.slots r
       ∧ DerechoSST.num_received_sst r' = DerechoSST.num_received_sst r
       ∧ DerechoSST.local_stability_frontier r'
         = DerechoSST.local_stability_frontier r)
    ∧ (∀ k, Z.to_nat k ≠ Z.to_nat (View.my_rank v) →
         gmssst.get_row w' k = gmssst.get_row w k).
Proof.
  intros Hr. pose proof Hr as Hr0. apply get_row_Ret in Hr0 as [Hge Hlook].
  pose proof (lookup_lt_Some _ _ _ Hlook) as Hlt.
  set (w1 := mkWorld (gmsSST w) (MulticastGroup.wedge (multicast_group w))
                     (trace w ++ [E_multicast_wedge])).
  set (w2 := mkWorld
               (DerechoSST.mk (DerechoSST.params (gmsSST w))
                  (<[Z.to_nat (View.my_rank v) := DerechoSST.with_wedged r true]>
                     (DerechoSST.rows (gmsSST w))))
               (multicast_group w1)
               (trace w1 ++ [E_set (View.my_rank v) DerechoSST.F_wedged])).
  assert (Hset : gmssst.set_wedged w1 (View.my_rank v) true = Ret w2).
  { unfold gmssst.set_wedged.
    change (gmssst.get_row w1 (View.my_rank v))
      with (gmssst.get_row w (View.my_rank v)).
    rewrite Hr. simpl. apply write_row_Ret. done. }
  exists (gmssst.put w2
            (DerechoSST.get_base (DerechoSST.params (gmsSST w)) DerechoSST.F_wedged)
            (Z.of_nat (DerechoSST.sizeof_elem (DerechoSST.params (gmsSST w))
                         DerechoSST.F_wedged))),
         (DerechoSST.with_wedged r true),
         (DerechoSST.get_base (DerechoSST.params (gmsSST w)) DerechoSST.F_wedged),
         (Z.of_nat (DerechoSST.sizeof_elem (DerechoSST.params (gmsSST w))
                      DerechoSST.F_wedged)).
  split.
  { unfold View.wedge. fold w1. rewrite Hset. reflexivity. }
  split.
  { simpl. by rewrite <- !app_assoc. }
  split; [apply put_of_wedged_publishes_wedged|].
  split; [reflexivity|].
  split.
  { apply get_row_Ret. split; [done|]. simpl.
    by apply list_lookup_insert_eq. }
  split; [reflexivity|].
  split; [repeat split|].
  intros k Hk. unfold gmssst.get_row, vec_get. simpl.
  by rewrite list_lookup_insert_ne.
Qed.

Lemma wedge_sets_and_publishes_only_wedged_witness :
  gmssst.get_row world3 (View.my_rank view3)
  = Ret (DerechoSST.initial_row (DerechoSST.params (gmsSST world3)))
  ∧ ∃ w', View.wedge view3 world3 = Ret w'
          ∧ trace w' = [E_multicast_wedge; E_set 1 DerechoSST.F_wedged;
                        E_put 879 1].
Proof.
  split; [reflexivity|].
  destruct (wedge_sets_and_publishes_only_wedged view3 world3 _ eq_refl)
    as (w' & r' & offset & size & Hw' & Htrace & _).
  exists w'. split; [exact Hw'|].
  vm_compute in Hw'. injection Hw' as <-. reflexivity.
Defined.

(** ** [merge_changes]: the local counters never decrease *)

Lemma local_grows_refl (me : Z) (w : World) : local_grows me w w.
Proof.
  split; [done|]. split; [done|]. split; [done|].
  intros r Hr. exists r. split; [done|]. lia.
Qed.

Lemma local_grows_trans (me : Z) (w1 w2 w3 : World) :
  local_grows me w1 w2 → local_grows me w2 w3 → local_grows me w1 w3.
Proof.
  intros (Hp1 & Hl1 & Ho1 & Hr1) (Hp2 & Hl2 & Ho2 & Hr2).
  split; [congruence|]. split; [congruence|]. split.
  - intros k Hk. rewrite Ho2, Ho1; done.
  - intros r Hr. destruct (Hr1 r Hr) as (r' & Hr' & ? & ?).
    destruct (Hr2 r' Hr') as (r'' & Hr'' & ? & ?).
    exists r''. split; [done|]. lia.
Qed.

Lemma get_row_write_eq (w w' : World) (me : Z) (f : DerechoSST.Field)
    (r : DerechoSST.Row) :
  gmssst.write_row w me f r = Ret w' → gmssst.get_row w' me = Ret r.
Proof.
  intros (Hge & Hlt & ->)%write_row_Ret. apply get_row_Ret.
  split; [done|]. simpl. by apply list_lookup_insert_eq.
Qed.

Lemma get_row_write_ne (w w' : World) (me k : Z) (f : DerechoSST.Field)
    (r : DerechoSST.Row) :
  gmssst.write_row w me f r = Ret w' → Z.to_nat k ≠ Z.to_nat me →
  gmssst.get_row w' k = gmssst.get_row w k.
Proof.
  intros (Hge & Hlt & ->)%write_row_Ret Hk. unfold gmssst.get_row, vec_get.
  simpl. by rewrite list_lookup_insert_ne.
Qed.

Lemma write_row_grows (w w' : World) (me : Z) (f : DerechoSST.Field)
    (r0 r1 : DerechoSST.Row) :
  gmssst.get_row w me = Ret r0 →
  gmssst.write_row w me f r1 = Ret w' →
  DerechoSST.num_changes r0 ≤ DerechoSST.num_changes r1 →
  DerechoSST.num_committed r0 ≤ DerechoSST.num_committed r1 →
  local_grows me w w'.
Proof.
  intros Hr0 Hw Hc Hm. pose proof (get_row_write_eq _ _ _ _ _ Hw) as Hr1.
  apply write_row_Ret in Hw as (Hge & Hlt & ->).
  split; [done|]. split; [simpl; by rewrite length_insert|]. split.
  - intros k Hk. simpl. by rewrite list_lookup_insert_ne.
  - intros r Hr. assert (r = r0) as -> by congruence. eauto.
Qed.

Lemma merge_row_spec (me n : Z) (w w1 : World) :
  View.merge_row me n w = Ret w1 →
  local_grows me w w1
  ∧ ∀ o, gmssst.get_row w n = Ret o →
      ∃ r1, gmssst.get_row w1 me = Ret r1
            ∧ DerechoSST.num_changes o ≤ DerechoSST.num_changes r1
            ∧ DerechoSST.num_committed o ≤ DerechoSST.num_committed r1.
Proof.
  unfold View.merge_row. intros H.
  apply bind_Ret in H as (r & Hr & H).
  apply bind_Ret in H as (o & Ho & H).
  apply bind_Ret in H as (wa & Hwa & H).
  apply bind_Ret in H as (ra & Hra & H).
  apply bind_Ret in H as (oa & Hoa & H).
  assert (Ha : local_grows me w wa
               ∧ DerechoSST.num_changes o ≤ DerechoSST.num_changes ra
               ∧ DerechoSST.num_committed r ≤ DerechoSST.num_committed ra
               ∧ oa = o).
  { destruct (decide (DerechoSST.num_changes r < DerechoSST.num_changes o))
      as [Hlt|Hge].
    - apply bind_Ret in Hwa as (wb & Hwb & Hwa).
      apply bind_Ret in Hwa as (ob & Hob & Hwa).
      unfold gmssst.set_changes in Hwb.
      apply bind_Ret in Hwb as (r' & Hr' & Hwb).
      apply bind_Ret in Hwb as (a & _ & Hwb).
      assert (r' = r) as -> by congruence.
      assert (Hne : Z.to_nat n ≠ Z.to_nat me).
      { intros Heq. apply get_row_Ret in Hr as [? Hr], Ho as [? Ho].
        rewrite Heq in Ho. assert (o = r) by congruence. subst. lia. }
      rewrite (get_row_write_ne _ _ _ _ _ _ Hwb Hne) in Hob.
      assert (ob = o) as -> by congruence.
      unfold gmssst.set_num_changes in Hwa.
      apply bind_Ret in Hwa as (rb & Hrb & Hwa).
      rewrite (get_row_write_eq _ _ _ _ _ Hwb) in Hrb. injection Hrb as <-.
      rewrite (get_row_write_eq _ _ _ _ _ Hwa) in Hra. injection Hra as <-.
      rewrite (get_row_write_ne _ _ _ _ _ _ Hwa Hne),
              (get_row_write_ne _ _ _ _ _ _ Hwb Hne) in Hoa.
      split; [|split; [simpl; lia|split; [simpl; lia|congruence]]].
      eapply local_grows_trans.
      + eapply (write_row_grows w wb); [done|done|simpl; lia|simpl; lia].
      + eapply (write_row_grows wb wa); [by eapply get_row_write_eq|done|simpl; lia|simpl; lia].
    - injection Hwa as <-. assert (ra = r) as -> by congruence.
      split; [apply local_grows_refl|]. split; [lia|]. split; [lia|congruence]. }
  destruct Ha as (Hga & Hca & Hma & ->).
  destruct (decide (DerechoSST.num_committed ra < DerechoSST.num_committed o))
    as [Hlt|Hge].
  - unfold gmssst.set_num_committed in H.
    apply bind_Ret in H as (rb & Hrb & H).
    assert (rb = ra) as -> by congruence.
    split.
    + eapply local_grows_trans; [exact Hga|].
      eapply write_row_grows; [done|done|simpl; lia|simpl; lia].
    + intros o' Ho'. assert (o' = o) as -> by congruence.
      eexists. split; [by eapply get_row_write_eq|]. simpl. lia.
  - injection H as <-. split; [done|].
    intros o' Ho'. assert (o' = o) as -> by congruence.
    exists ra. split; [done|]. lia.
Qed.

Lemma merge_rows_spec (me : Z) (ns : list Z) (w w1 : World) :
  for_each ns (View.merge_row me) w = Ret w1 →
  local_grows me w w1
  ∧ ∀ n o, n ∈ ns → gmssst.get_row w n = Ret o →
      ∃ r1, gmssst.get_row w1 me = Ret r1
            ∧ DerechoSST.num_changes o ≤ DerechoSST.num_changes r1
            ∧ DerechoSST.num_committed o ≤ DerechoSST.num_committed r1.
Proof.
  revert w. induction ns as [|n ns IH]; intros w H.
  - injection H as <-. split; [apply local_grows_refl|].
    intros n o Hn. by apply elem_of_nil in Hn.
  - simpl in H. apply bind_Ret in H as (wa & Hstep & Hrest).
    pose proof Hstep as Hme. unfold View.merge_row in Hme.
    apply bind_Ret in Hme as (r & Hr & _).
    destruct (merge_row_spec _ _ _ _ Hstep) as [Hga Hhead].
    destruct (IH _ Hrest) as [Hgb Htail].
    assert (Hg : local_grows me w w1) by (eapply local_grows_trans; done).
    split; [done|]. intros n' o Hn' Ho.
    destruct (decide (Z.to_nat n' = Z.to_nat me)) as [Heq|Hne].
    + assert (n' = me) as ->.
      { apply get_row_Ret in Hr as [? _], Ho as [? _]. lia. }
      destruct Hg as (_ & _ & _ & Hloc). apply (Hloc o Ho).
    + apply elem_of_cons in Hn' as [->|Hn'].
      * destruct (Hhead o Ho) as (ra & Hra & ? & ?).
        destruct Hgb as (_ & _ & _ & Hloc).
        destruct (Hloc ra Hra) as (r1 & Hr1 & ? & ?).
        exists r1. split; [done|]. lia.
      * apply (Htail n' o Hn').
        destruct Hga as (_ & _ & Hoth & _).
        apply get_row_Ret in Ho as [? Ho]. apply get_row_Ret.
        split; [done|]. by rewrite Hoth.
Qed.

Lemma propose_failure_grows (v : View.t) (n : Z) (st st' : bool * World) :
  View.propose_failure v n st = Ret st' →
  local_grows (View.my_rank v) st.2 st'.2.
Proof.
  destruct st as [found w]. unfold View.propose_failure. intros H.
  apply bind_Ret in H as (f & _ & H).
  apply bind_Ret in H as (found1 & _ & H).
  destruct found1.
  - injection H as <-. apply local_grows_refl.
  - apply bind_Ret in H as (r & Hr & H).
    apply bind_Ret in H as (m & _ & H).
    apply bind_Ret in H as (w1 & Hw1 & H).
    apply bind_Ret in H as (w2 & Hw2 & H).
    injection H as <-. simpl.
    unfold gmssst.set_changes_slot in Hw1.
    apply bind_Ret in Hw1 as (r' & Hr' & Hw1).
    apply bind_Ret in Hw1 as (a & _ & Hw1).
    unfold gmssst.increment_num_changes in Hw2.
    apply bind_Ret in Hw2 as (r1 & Hr1 & Hw2).
    destruct (decide _) as [_|_]; [|discriminate].
    eapply local_grows_trans.
    + eapply (write_row_grows w w1); [exact Hr'|exact Hw1|simpl; lia..].
    + eapply (write_row_grows w1 w2); [exact Hr1|exact Hw2|simpl; lia..].
Qed.

Lemma propose_failures_grow (v : View.t) (ns : list Z) (st st' : bool * World) :
  for_each ns (View.propose_failure v) st = Ret st' →
  local_grows (View.my_rank v) st.2 st'.2.
Proof.
  revert st. induction ns as [|n ns IH]; intros st H.
  - injection H as <-. apply local_grows_refl.
  - simpl in H. apply bind_Ret in H as (sa & Hstep & Hrest).
    eapply local_grows_trans; [by eapply propose_failure_grows|by apply IH].
Qed.

Lemma merge_changes_grows (v : View.t) (w w' : World) :
  View.merge_changes v w = Ret w' →
  local_grows (View.my_rank v) w w'
  ∧ ∀ n o, 0 ≤ n < View.num_members v → gmssst.get_row w n = Ret o →
      ∃ r', gmssst.get_row w' (View.my_rank v) = Ret r'
            ∧ DerechoSST.num_changes o ≤ DerechoSST.num_changes r'
            ∧ DerechoSST.num_committed o ≤ DerechoSST.num_committed r'.
Proof.
  unfold View.merge_changes. intros H.
  apply bind_Ret in H as (w1 & Hw1 & H).
  apply bind_Ret in H as (st & Hst & H).
  injection H as <-.
  destruct (merge_rows_spec _ _ _ _ Hw1) as [Hg1 Hrows].
  pose proof (propose_failures_grow _ _ _ _ Hst) as Hg2. simpl in Hg2.
  split.
  - eapply local_grows_trans; [exact Hg1|]. exact Hg2.
  - intros n o Hn Ho.
    destruct (Hrows n o) as (r1 & Hr1 & ? & ?); [|done|].
    { apply elem_of_seqZ. lia. }
    destruct Hg2 as (_ & _ & _ & Hloc).
    destruct (Hloc r1 Hr1) as (r' & Hr' & ? & ?).
    exists r'. split; [exact Hr'|]. lia.
Qed.

(** ** [merge_changes]: it runs to completion *)

Lemma table_bounded_weaken (cap : nat) (B B' : Z) (L : nat) (w : World) :
  B ≤ B' → table_bounded cap B L w → table_bounded cap B' L w.
Proof.
  intros HB (Hc & Hl & Hall). split; [done|]. split; [done|].
  eapply Forall_impl; [exact Hall|]. simpl. intros row [? ?]. split; [done|lia].
Qed.

Lemma table_bounded_get (cap : nat) (B : Z) (L : nat) (w : World) (k : Z) :
  table_bounded cap B L w → 0 ≤ k < Z.of_nat L →
  ∃ r, gmssst.get_row w k = Ret r
       ∧ length (DerechoSST.changes r) = cap
       ∧ DerechoSST.num_changes r ≤ B.
Proof.
  intros (Hc & Hl & Hall) Hk.
  destruct (lookup_lt_is_Some_2 (DerechoSST.rows (gmsSST w)) (Z.to_nat k))
    as [r Hr]; [lia|].
  exists r. split; [apply get_row_Ret; split; [lia|done]|].
  by apply (proj1 (Forall_lookup _ _) Hall (Z.to_nat k)).
Qed.

Lemma table_bounded_write (cap : nat) (B : Z) (L : nat) (w : World) (me : Z)
    (f : DerechoSST.Field) (r : DerechoSST.Row) :
  table_bounded cap B L w → 0 ≤ me < Z.of_nat L →
  length (DerechoSST.changes r) = cap → DerechoSST.num_changes r ≤ B →
  ∃ w', gmssst.write_row w me f r = Ret w' ∧ table_bounded cap B L w'.
Proof.
  intros (Hc & Hl & Hall) Hme Hlen Hnc. eexists. split.
  - apply write_row_Ret. split; [lia|]. split; [lia|reflexivity].
  - split; [done|]. split; [simpl; by rewrite length_insert|]. simpl.
    apply Forall_insert; done.
Qed.

Lemma changes_index_range (w : World) (c : Z) :
  0 ≤ View.changes_index w c
  < Z.of_nat (DerechoSST.changes_size (gmsSST w)).
Proof.
  unfold View.changes_index. apply Z.mod_pos_bound.
  unfold DerechoSST.changes_size. simpl. lia.
Qed.

Section merge_defined.

Variable v : View.t.
Variables (cap L : nat).
Hypothesis Hme : 0 ≤ View.my_rank v < Z.of_nat L.

Lemma merge_row_defined (B : Z) (n : Z) (w : World) :
  table_bounded cap B L w → 0 ≤ n < Z.of_nat L →
  ∃ w1, View.merge_row (View.my_rank v) n w = Ret w1 ∧ table_bounded cap B L w1.
Proof.
  intros Hw Hn. unfold View.merge_row.
  destruct (table_bounded_get _ _ _ _ _ Hw Hme) as (r & -> & Hrl & Hrb).
  destruct (table_bounded_get _ _ _ _ _ Hw Hn) as (o & -> & Hol & Hob).
  simpl.
  assert (Hfirst : ∃ wa,
    (if decide (DerechoSST.num_changes r < DerechoSST.num_changes o)
     then
       w' ← gmssst.set_changes w (View.my_rank v) (DerechoSST.changes o)
              (DerechoSST.changes_size (gmsSST w));
       other' ← gmssst.get_row w' n;
       gmssst.set_num_changes w' (View.my_rank v) (DerechoSST.num_changes other')
     else Ret w) = Ret wa ∧ table_bounded cap B L wa).
  { destruct (decide _) as [Hlt|Hge]; [|eauto].
    unfold gmssst.set_changes.
    destruct (table_bounded_get _ _ _ _ _ Hw Hme) as (r' & -> & Hrl' & Hrb').
    simpl. unfold gmssst.memcpy.
    destruct Hw as (Hc & Hw'). rewrite Hc.
    rewrite decide_True by lia. simpl.
    destruct (table_bounded_write cap B L w (View.my_rank v) DerechoSST.F_changes
                (DerechoSST.with_changes r'
                   (take cap (DerechoSST.changes o)
                    ++ drop cap (DerechoSST.changes r'))))
      as (wb & -> & Hwb); [done|done| |done|].
    { simpl. rewrite length_app, length_take, length_drop. lia. }
    simpl.
    destruct (table_bounded_get _ _ _ _ _ Hwb Hn) as (ob & -> & Hobl & Hobb).
    simpl. unfold gmssst.set_num_changes.
    destruct (table_bounded_get _ _ _ _ _ Hwb Hme) as (rb & -> & Hrbl & Hrbb).
    simpl. apply table_bounded_write; done. }
  destruct Hfirst as (wa & -> & Hwa). simpl.
  destruct (table_bounded_get _ _ _ _ _ Hwa Hme) as (ra & -> & Hral & Hrab).
  destruct (table_bounded_get _ _ _ _ _ Hwa Hn) as (oa & -> & Hoal & Hoab).
  simpl. destruct (decide _) as [Hlt|Hge]; [|eauto].
  unfold gmssst.set_num_committed.
  destruct (table_bounded_get _ _ _ _ _ Hwa Hme) as (rc & -> & Hrcl & Hrcb).
  simpl. apply table_bounded_write; done.
Qed.

Lemma merge_rows_defined (B : Z) (ns : list Z) (w : World) :
  table_bounded cap B L w → Forall (λ n, 0 ≤ n < Z.of_nat L) ns →
  ∃ w1, for_each ns (View.merge_row (View.my_rank v)) w = Ret w1
        ∧ table_bounded cap B L w1.
Proof.
  revert w. induction ns as [|n ns IH]; intros w Hw Hns.
  - simpl. eauto.
  - apply Forall_cons in Hns as [Hn Hns]. simpl.
    destruct (merge_row_defined B n w Hw Hn) as (wa & -> & Hwa). simpl.
    by apply IH.
Qed.

Lemma scan_changes_defined (B : Z) (n : Z) (w : World) (cs : list Z)
    (found : bool) :
  table_bounded cap B L w →
  0 ≤ n < Z.of_nat (length (View.members v)) →
  ∃ b, View.scan_changes v w n cs found = Ret b.
Proof.
  intros Hw Hn. revert found. induction cs as [|c cs IH]; intros found.
  - simpl. eauto.
  - simpl. destruct found; [eauto|].
    destruct (table_bounded_get _ _ _ _ _ Hw Hme) as (r & -> & Hrl & Hrb).
    simpl.
    pose proof (changes_index_range w c) as Hidx.
    destruct Hw as (Hc & _). rewrite Hc in Hidx.
    destruct (lookup_lt_is_Some_2 (DerechoSST.changes r)
                (Z.to_nat (View.changes_index w c))) as [x Hx]; [lia|].
    rewrite (proj2 (vec_get_Ret _ _ _) (conj (proj1 Hidx) Hx)). simpl.
    destruct (lookup_lt_is_Some_2 (View.members v) (Z.to_nat n)) as [m Hm];
      [lia|].
    rewrite (proj2 (vec_get_Ret _ _ _) (conj (proj1 Hn) Hm)). simpl.
    apply IH.
Qed.

Lemma propose_failure_defined (B : Z) (n : Z) (found : bool) (w : World) :
  table_bounded cap B L w → B < INT_MAX →
  0 ≤ n < Z.of_nat (length (View.members v)) →
  0 ≤ n < Z.of_nat (length (View.failed v)) →
  ∃ st', View.propose_failure v n (found, w) = Ret st'
         ∧ table_bounded cap (B + 1) L st'.2.
Proof.
  intros Hw HB Hnm Hnf. unfold View.propose_failure.
  destruct (lookup_lt_is_Some_2 (View.failed v) (Z.to_nat n)) as [f Hf]; [lia|].
  rewrite (proj2 (vec_get_Ret _ _ _) (conj (proj1 Hnf) Hf)). simpl.
  destruct (table_bounded_get _ _ _ _ _ Hw Hme) as (r & Hr & Hrl & Hrb).
  assert (Hfound : ∃ found1,
    (if f
     then me ← gmssst.get_row w (View.my_rank v);
          View.scan_changes v w n
            (seqZ (DerechoSST.num_committed me)
               (DerechoSST.num_changes me - DerechoSST.num_committed me)) found
     else Ret true) = Ret found1).
  { destruct f; [|eauto]. rewrite Hr. simpl.
    by eapply scan_changes_defined. }
  destruct Hfound as (found1 & ->). simpl.
  destruct found1.
  { eexists. split; [reflexivity|]. simpl.
    eapply table_bounded_weaken; [|exact Hw]. lia. }
  rewrite Hr. simpl.
  destruct (lookup_lt_is_Some_2 (View.members v) (Z.to_nat n)) as [m Hm]; [lia|].
  rewrite (proj2 (vec_get_Ret _ _ _) (conj (proj1 Hnm) Hm)). simpl.
  unfold gmssst.set_changes_slot. rewrite Hr. simpl.
  pose proof (changes_index_range w (DerechoSST.num_changes r)) as Hidx.
  pose proof Hw as (Hc & _). rewrite Hc in Hidx.
  assert (Hset : vec_set (DerechoSST.changes r)
                   (View.changes_index w (DerechoSST.num_changes r)) m
                 = Ret (<[Z.to_nat (View.changes_index w (DerechoSST.num_changes r)) := m]>
                          (DerechoSST.changes r))).
  { apply vec_set_Ret. split; [lia|]. split; [lia|done]. }
  rewrite Hset. simpl.
  destruct (table_bounded_write cap B L w (View.my_rank v) DerechoSST.F_changes
              (DerechoSST.with_changes r
                 (<[Z.to_nat (View.changes_index w (DerechoSST.num_changes r)) := m]>
                    (DerechoSST.changes r))))
    as (w1 & -> & Hw1); [done|done| |done|].
  { simpl. by rewrite length_insert. }
  simpl. unfold gmssst.increment_num_changes.
  destruct (table_bounded_get _ _ _ _ _ Hw1 Hme) as (r1 & -> & Hr1l & Hr1b).
  simpl. rewrite decide_True by lia.
  destruct (table_bounded_write cap (B + 1) L w1 (View.my_rank v)
              DerechoSST.F_num_changes
              (DerechoSST.with_num_changes r1 (DerechoSST.num_changes r1 + 1)))
    as (w2 & -> & Hw2); [|done|done|simpl; lia|].
  { eapply table_bounded_weaken; [|exact Hw1]. lia. }
  simpl. eexists. split; [reflexivity|]. exact Hw2.
Qed.

Lemma propose_failures_defined (ns : list Z) (B : Z) (st : bool * World) :
  table_bounded cap B L st.2 → B + Z.of_nat (length ns) ≤ INT_MAX →
  Forall (λ n, 0 ≤ n < Z.of_nat (length (View.members v))
               ∧ 0 ≤ n < Z.of_nat (length (View.failed v))) ns →
  ∃ st', for_each ns (View.propose_failure v) st = Ret st'.
Proof.
  revert B st. induction ns as [|n ns IH]; intros B [found w] Hw HB Hns.
  - simpl. eauto.
  - apply Forall_cons in Hns as [[Hnm Hnf] Hns]. simpl in Hw, HB.
    cbn [for_each].
    destruct (propose_failure_defined B n found w Hw ltac:(lia) Hnm Hnf)
      as (sa & -> & Hsa).
    cbn [mbind res_bind]. apply (IH (B + 1)); [done|lia|done].
Qed.

End merge_defined.

Lemma merge_changes_defined (v : View.t) (w : World) :
  merge_ready v w → ∃ w', View.merge_changes v w = Ret w'.
Proof.
  intros (Hme & Hrows & Hfailed & Hmembers & Hall).
  set (L := length (DerechoSST.rows (gmsSST w))).
  set (cap := DerechoSST.changes_size (gmsSST w)).
  set (B := INT_MAX - Z.max 0 (View.num_members v)).
  assert (Hw : table_bounded cap B L w).
  { split; [done|]. split; [done|]. eapply Forall_impl; [exact Hall|].
    simpl. intros row [? ?]. split; [done|]. unfold B. lia. }
  unfold View.merge_changes.
  destruct (merge_rows_defined v cap L Hme B (seqZ 0 (View.num_members v)) w Hw)
    as (w1 & -> & Hw1).
  { apply Forall_forall. intros n Hn%elem_of_seqZ. lia. }
  simpl.
  destruct (propose_failures_defined v cap L Hme (seqZ 0 (View.num_members v))
              B (false, w1) Hw1) as (st & ->).
  { rewrite length_seqZ. unfold B. lia. }
  { apply Forall_forall. intros n Hn%elem_of_seqZ. lia. }
  simpl. eauto.
Qed.

(** C7. [merge_changes] never decreases the local row's [num_changes] or
    [num_committed]: when the call returns, both are at least their values
    before the call and at least the values of every row of rank below
    [num_members], the rows the merge reads. The call does return on a
    table that is ready for it. *)
Theorem merge_changes_counters_never_decrease (v : View.t) (w : World) :
  (merge_ready v w → ∃ w', View.merge_changes v w = Ret w')
  ∧ ∀ w', View.merge_changes v w = Ret w' →
      ∀ r, gmssst.get_row w (View.my_rank v) = Ret r →
        ∃ r', gmssst.get_row w' (View.my_rank v) = Ret r'
              ∧ DerechoSST.num_changes r ≤ DerechoSST.num_changes r'
              ∧ DerechoSST.num_committed r ≤ DerechoSST.num_committed r'
              ∧ ∀ n o, 0 ≤ n < View.num_members v →
                  gmssst.get_row w n = Ret o →
                  DerechoSST.num_changes o ≤ DerechoSST.num_changes r'
                  ∧ DerechoSST.num_committed o ≤ DerechoSST.num_committed r'.
Proof.
  split; [apply merge_changes_defined|].
  intros w' Hrun r Hr.
  destruct (merge_changes_grows v w w' Hrun) as [(_ & _ & _ & Hloc) Hrows].
  destruct (Hloc r Hr) as (r' & Hr' & Hc & Hm).
  exists r'. split; [done|]. split; [done|]. split; [done|].
  intros n o Hn Ho. destruct (Hrows n o Hn Ho) as (r'' & Hr'' & ? & ?).
  assert (r'' = r') as -> by congruence. done.
Qed.

Lemma view3_merge_ready : merge_ready view3 world3_behind.
Proof.
  split; [simpl; lia|]. split; [simpl; lia|]. split; [simpl; lia|].
  split; [simpl; lia|].
  apply Forall_forall. intros row Hrow.
  apply list_elem_of_lookup in Hrow as [i Hi].
  destruct i as [|[|[|i]]]; simpl in Hi; [..|done];
    injection Hi as <-; (split; [reflexivity|vm_compute; discriminate]).
Qed.

Lemma merge_changes_counters_never_decrease_witness :
  merge_ready view3 world3_behind
  ∧ ∃ w' r', View.merge_changes view3 world3_behind = Ret w'
             ∧ gmssst.get_row w' 1 = Ret r'
             ∧ DerechoSST.num_changes r' = 4
             ∧ DerechoSST.num_committed r' = 1
             ∧ take 4 (DerechoSST.changes r') = [13%N; 14%N; 15%N; 10%N].
Proof.
  split; [exact view3_merge_ready|].
  destruct (merge_changes_counters_never_decrease view3 world3_behind)
    as [Hdef Hmono].
  destruct (Hdef view3_merge_ready) as (w' & Hw').
  destruct (Hmono w' Hw' _ eq_refl) as (r' & Hr' & _).
  exists w', r'. split; [exact Hw'|]. split; [exact Hr'|].
  vm_compute in Hw'. injection Hw' as <-.
  vm_compute in Hr'. injection Hr' as <-.
  repeat split.
Defined.

(** ** [merge_changes]: proposing the local failures *)

(** Once [found] is true it stays true for every later member: the search
    is skipped and nothing is appended. *)
Lemma propose_failure_after_found (v : View.t) (n : Z) (w : World)
    (st' : bool * World) :
  View.propose_failure v n (true, w) = Ret st' → st' = (true, w).
Proof.
  unfold View.propose_failure. intros H.
  apply bind_Ret in H as (f & _ & H).
  apply bind_Ret in H as (found1 & Hfound & H).
  assert (found1 = true) as ->.
  { destruct f; [|by injection Hfound].
    apply bind_Ret in Hfound as (me & _ & Hscan).
    destruct (seqZ _ _); simpl in Hscan; by injection Hscan. }
  by injection H.
Qed.

(** C1 on [view2]: the member of rank 1 is marked failed and its id is
    nowhere in the log, yet [merge_changes] returns with the local row's
    log still empty ([num_changes] and [num_committed] both 0), so no slot
    between them holds the id. The member of rank 0 has not failed, which
    sets [found], and [found] is never cleared for the next member. *)
Theorem merge_changes_skips_later_failure :
  View.failed view2 !! 1%nat = Some true
  ∧ View.members view2 !! 1%nat = Some 11%N
  ∧ ∃ w' r', View.merge_changes view2 world2 = Ret w'
             ∧ gmssst.get_row w' (View.my_rank view2) = Ret r'
             ∧ DerechoSST.num_changes r' = 0
             ∧ DerechoSST.num_committed r' = 0
             ∧ ¬ ∃ c, DerechoSST.num_committed r' ≤ c < DerechoSST.num_changes r'
                      ∧ DerechoSST.changes r' !! Z.to_nat (View.changes_index w' c)
                        = Some 11%N.
Proof.
  split; [reflexivity|]. split; [reflexivity|].
  eexists _, _. split; [vm_compute; reflexivity|].
  split; [vm_compute; reflexivity|].
  split; [reflexivity|]. split; [reflexivity|].
  intros (c & Hc & _). simpl in Hc. lia.
Qed.

(** ** The RPC manager's view-change callback *)


Lemma all_responded_not_waiting (p : PendingResults.t) (n : node_id_t) :
  PendingResults.all_responded p = true → ¬ PendingResults.waiting_on p n.
Proof.
  unfold PendingResults.all_responded. intros [_ Hall]%andb_true_iff (_ & Hn & Hnone).
  rewrite forallb_forall in Hall. apply list_elem_of_In in Hn.
  apply Hall, bool_decide_eq_true in Hn as [o Ho]. congruence.
Qed.

(** One call of [PendingResults.set_exception_for_removed_node]: the targets stay, no
    completed entry changes, the removed node is no longer waited on, and
    it carries the error when it was waited on. *)
Lemma set_exception_spec (p : PendingResults.t) (n : node_id_t) :
  let p' := PendingResults.set_exception_for_removed_node p n in
  PendingResults.map_fulfilled p' = PendingResults.map_fulfilled p
  ∧ PendingResults.dest_nodes p' = PendingResults.dest_nodes p
  ∧ (∀ m o, PendingResults.outcomes p !! m = Some o → PendingResults.outcomes p' !! m = Some o)
  ∧ (∀ m o, PendingResults.outcomes p' !! m = Some o →
       PendingResults.outcomes p !! m = Some o ∨ (m = n ∧ o = PendingResults.node_removed ∧ PendingResults.waiting_on p n))
  ∧ ¬ PendingResults.waiting_on p' n
  ∧ (PendingResults.waiting_on p n → PendingResults.outcomes p' !! n = Some PendingResults.node_removed).
Proof.
  unfold PendingResults.set_exception_for_removed_node.
  destruct (decide _) as [Hw|Hnw]; simpl.
  - destruct Hw as (Hf & Hd & Hnone).
    split; [done|]. split; [done|]. split.
    { intros m o Hm. rewrite lookup_insert_ne; [done|]. intros ->. congruence. }
    split.
    { intros m o. destruct (decide (n = m)) as [->|Hne].
      - rewrite lookup_insert_eq. intros [= <-]. right. done.
      - rewrite lookup_insert_ne by done. by left. }
    split.
    { intros (_ & _ & H). simpl in H. by rewrite lookup_insert_eq in H. }
    intros _. apply lookup_insert_eq.
  - split; [done|]. split; [done|]. split; [done|].
    split; [by left|]. split; [done|]. intros Hw. by destruct Hnw.
Qed.

Lemma waiting_on_antitone (p p' : PendingResults.t) (m : node_id_t) :
  PendingResults.map_fulfilled p' = PendingResults.map_fulfilled p → PendingResults.dest_nodes p' = PendingResults.dest_nodes p →
  (∀ k o, PendingResults.outcomes p !! k = Some o → PendingResults.outcomes p' !! k = Some o) →
  PendingResults.waiting_on p' m → PendingResults.waiting_on p m.
Proof.
  intros Hf Hd Hmono (Hf' & Hd' & Hnone).
  split; [congruence|]. split; [congruence|].
  destruct (PendingResults.outcomes p !! m) as [o|] eqn:E; [|done].
  apply Hmono in E. congruence.
Qed.


Lemma completed_for_nil (p : PendingResults.t) : completed_for [] p p.
Proof.
  split; [done|]. split; [done|]. split; [done|]. split; [by left|].
  split; intros d Hd; by apply elem_of_nil in Hd.
Qed.

Lemma completed_for_step (ds : list node_id_t) (p p1 : PendingResults.t)
    (n : node_id_t) :
  completed_for ds p p1 →
  completed_for (ds ++ [n]) p (PendingResults.set_exception_for_removed_node p1 n).
Proof.
  intros (Hf & Hd & Hmono & Hinv & Hnw & Herr).
  destruct (set_exception_spec p1 n) as (Hf' & Hd' & Hmono' & Hinv' & Hnw' & Herr').
  split; [congruence|]. split; [congruence|]. split; [by auto|].
  split.
  { intros m o Hm. apply Hinv' in Hm as [Hm|(-> & -> & Hw)].
    - apply Hinv in Hm as [Hm|(Hin & -> & Hw)]; [by left|].
      right. split; [apply elem_of_app; by left|done].
    - right. split; [apply elem_of_app; right; by apply list_elem_of_singleton|].
      split; [done|]. by eapply waiting_on_antitone. }
  split.
  { intros d [Hin|Hin%list_elem_of_singleton]%elem_of_app; [|by subst].
    intros Hw. apply (Hnw d Hin). by eapply waiting_on_antitone. }
  intros d [Hin|Hin%list_elem_of_singleton]%elem_of_app Hw.
  - apply Hmono'. by apply Herr.
  - subst d. destruct (PendingResults.outcomes p1 !! n) as [o|] eqn:E.
    + apply Hmono'. rewrite E.
      apply Hinv in E as [E|(_ & -> & _)]; [|done].
      destruct Hw as (_ & _ & Hnone). congruence.
    + apply Herr'. destruct Hw as (? & ? & _).
      split; [congruence|]. split; [congruence|done].
Qed.

Lemma completed_for_fold (ds ds0 : list node_id_t) (p q : PendingResults.t) :
  completed_for ds0 p q →
  completed_for (ds0 ++ ds) p (fold_left PendingResults.set_exception_for_removed_node ds q).
Proof.
  revert ds0 q. induction ds as [|n ds IH]; intros ds0 q Hq.
  - by rewrite app_nil_r.
  - simpl. replace (ds0 ++ n :: ds) with ((ds0 ++ [n]) ++ ds)
      by (by rewrite <- app_assoc).
    apply IH. by apply completed_for_step.
Qed.

Lemma remove_departed_flat (shards : list SubView.t) (p : PendingResults.t) :
  RPCManager.remove_departed shards p
  = fold_left PendingResults.set_exception_for_removed_node
      (concat (map SubView.departed shards)) p.
Proof.
  unfold RPCManager.remove_departed. revert p.
  induction shards as [|shard shards IH]; intros p; [done|].
  simpl. by rewrite fold_left_app, IH.
Qed.

Lemma remove_departed_completed (shards : list SubView.t) (p : PendingResults.t) :
  completed_for (concat (map SubView.departed shards)) p
    (RPCManager.remove_departed shards p).
Proof.
  rewrite remove_departed_flat.
  apply (completed_for_fold _ [] p p), completed_for_nil.
Qed.

Lemma elem_of_all_departed (shards : list SubView.t) (n : node_id_t) :
  n ∈ concat (map SubView.departed shards)
  ↔ ∃ shard, shard ∈ shards ∧ n ∈ SubView.departed shard.
Proof.
  induction shards as [|shard shards IH]; simpl.
  - split; [intros H; by apply elem_of_nil in H|].
    intros (shard & H & _). by apply elem_of_nil in H.
  - rewrite elem_of_app, IH. split.
    + intros [H|(shard' & ? & ?)].
      * exists shard. split; [left|done].
      * exists shard'. split; [by right|done].
    + intros (shard' & [->|H]%elem_of_cons & Hn); [by left|].
      right. eauto.
Qed.

Lemma departed_in_flat (new_view : View.t) (subgroup_id : nat)
    (shards : list SubView.t) (n : node_id_t) :
  View.subgroup_shard_views new_view !! subgroup_id = Some shards →
  departed_in new_view subgroup_id n
  ↔ n ∈ concat (map SubView.departed shards).
Proof.
  intros Hsg. unfold departed_in. rewrite elem_of_all_departed. split.
  - intros (shards' & shard & Hsg' & Hshard & Hn).
    assert (shards' = shards) as -> by congruence. eauto.
  - intros (shard & Hshard & Hn). eauto.
Qed.

Lemma sweep_spec (new_view : View.t) (subgroup_id : nat)
    (prs : list PendingResults.t) :
  (∀ p, p ∈ prs → PendingResults.all_responded p = false →
        is_Some (View.subgroup_shard_views new_view !! subgroup_id)) →
  ∃ prs', RPCManager.sweep new_view subgroup_id prs = Ret prs'
          ∧ (∀ p, p ∈ prs → PendingResults.all_responded p = false →
               ∃ shards,
                 View.subgroup_shard_views new_view !! subgroup_id = Some shards
                 ∧ RPCManager.remove_departed shards p ∈ prs')
          ∧ (∀ p', p' ∈ prs' →
               ∃ p shards,
                 p ∈ prs ∧ PendingResults.all_responded p = false
                 ∧ View.subgroup_shard_views new_view !! subgroup_id = Some shards
                 ∧ p' = RPCManager.remove_departed shards p).
Proof.
  induction prs as [|p prs IH]; intros Hsg.
  - exists []. split; [done|]. split; intros p Hp; by apply elem_of_nil in Hp.
  - destruct IH as (prs' & Hrun & Hfw & Hbw).
    { intros q Hq. apply Hsg. by right. }
    simpl. destruct (PendingResults.all_responded p) eqn:Hall.
    + exists prs'. split; [done|]. split.
      * intros q [->|Hq]%elem_of_cons Hq'; [congruence|by apply Hfw].
      * intros p' Hp'. destruct (Hbw p' Hp') as (q & shards & ? & ? & ? & ?).
        exists q, shards. split; [by right|done].
    + destruct (Hsg p) as [shards Hshards]; [left|done|].
      rewrite (vec_get_nat _ _ _ Hshards). simpl. rewrite Hrun. simpl.
      eexists. split; [reflexivity|]. split.
      * intros q [->|Hq]%elem_of_cons Hq'.
        -- exists shards. split; [done|]. left.
        -- destruct (Hfw q Hq Hq') as (shards' & ? & ?).
           exists shards'. split; [done|]. by right.
      * intros p' [->|Hp']%elem_of_cons.
        -- exists p, shards. split; [left|done].
        -- destruct (Hbw p' Hp') as (q & shards' & ? & ? & ? & ?).
           exists q, shards'. split; [by right|done].
Qed.

Lemma sweep_all_spec (new_view : View.t)
    (m : list (nat * list PendingResults.t)) :
  (∀ sg prs p, (sg, prs) ∈ m → p ∈ prs → PendingResults.all_responded p = false →
        is_Some (View.subgroup_shard_views new_view !! sg)) →
  ∃ m', RPCManager.sweep_all new_view m = Ret m'
        ∧ (∀ sg prs, (sg, prs) ∈ m →
             ∃ prs', (sg, prs') ∈ m'
                     ∧ RPCManager.sweep new_view sg prs = Ret prs')
        ∧ (∀ sg prs', (sg, prs') ∈ m' →
             ∃ prs, (sg, prs) ∈ m
                    ∧ RPCManager.sweep new_view sg prs = Ret prs').
Proof.
  induction m as [|[sg prs] m IH]; intros Hsg.
  - exists []. split; [done|]. split; intros ? ? H; by apply elem_of_nil in H.
  - destruct IH as (m' & Hrun & Hfw & Hbw).
    { intros sg' prs' p H. apply Hsg. by right. }
    destruct (sweep_spec new_view sg prs) as (prs1 & Hprs1 & _).
    { intros p. apply Hsg. left. }
    simpl. rewrite Hprs1. simpl. rewrite Hrun. simpl.
    eexists. split; [reflexivity|]. split.
    + intros sg' prs' [[= -> ->]|H]%elem_of_cons.
      * exists prs1. split; [left|done].
      * destruct (Hfw _ _ H) as (prs'' & ? & ?). exists prs''.
        split; [by right|done].
    + intros sg' prs' [[= -> ->]|H]%elem_of_cons.
      * exists prs. split; [left|done].
      * destruct (Hbw _ _ H) as (prs'' & ? & ?). exists prs''.
        split; [by right|done].
Qed.

(** C2. When [new_view_callback] runs for a new view (whose shard table
    covers the subgroups that still have unfinished results), it returns,
    and every tracked pending result that had not received all of its
    responses is still tracked, with the same targets and the replies it
    had, and is completed with [node_removed] for every node, listed as
    departed in a shard of its subgroup, that it was waiting on.
    Afterwards no pending result with a reply map waits on such a node;
    the results still in [pending_results_to_fulfill] are untouched and,
    having no reply map yet, wait on no node. *)
Theorem new_view_callback_completes_departed (new_view : View.t)
    (st : RPCManager.t) :
  (∀ sg prs p, (sg, prs) ∈ RPCManager.fulfilled_pending_results st →
     p ∈ prs → PendingResults.all_responded p = false →
     is_Some (View.subgroup_shard_views new_view !! sg)) →
  ∃ st', RPCManager.new_view_callback new_view st = Ret st'
    ∧ RPCManager.pending_results_to_fulfill st'
      = RPCManager.pending_results_to_fulfill st
    ∧ (∀ sg prs p, (sg, prs) ∈ RPCManager.fulfilled_pending_results st →
         p ∈ prs → PendingResults.all_responded p = false →
         ∃ prs' p',
           (sg, prs') ∈ RPCManager.fulfilled_pending_results st'
           ∧ p' ∈ prs'
           ∧ PendingResults.dest_nodes p' = PendingResults.dest_nodes p
           ∧ (∀ d o, PendingResults.outcomes p !! d = Some o →
                     PendingResults.outcomes p' !! d = Some o)
           ∧ (∀ d, departed_in new_view sg d → PendingResults.waiting_on p d →
                   PendingResults.outcomes p' !! d
                   = Some PendingResults.node_removed))
    ∧ (∀ sg prs' p' d, (sg, prs') ∈ RPCManager.fulfilled_pending_results st' →
         p' ∈ prs' → departed_in new_view sg d →
         ¬ PendingResults.waiting_on p' d)
    ∧ (∀ sg q p d, (sg, q) ∈ RPCManager.pending_results_to_fulfill st' →
         p ∈ q → PendingResults.map_fulfilled p = false →
         ¬ PendingResults.waiting_on p d).
Proof.
  intros Hsg. unfold RPCManager.new_view_callback.
  destruct (sweep_all_spec new_view _ Hsg) as (m' & Hrun & Hfw & Hbw).
  rewrite Hrun. simpl. eexists. split; [reflexivity|]. simpl.
  split; [done|]. split; [|split].
  - intros sg prs p Hin Hp Hall.
    destruct (Hfw sg prs Hin) as (prs' & Hin' & Hsweep).
    destruct (sweep_spec new_view sg prs) as (prs'' & Hsweep' & Hfw' & _).
    { intros q. by apply Hsg. }
    assert (prs'' = prs') as -> by congruence.
    destruct (Hfw' p Hp Hall) as (shards & Hshards & Hp').
    destruct (remove_departed_completed shards p)
      as (_ & Hd & Hmono & _ & _ & Herr).
    exists prs', (RPCManager.remove_departed shards p).
    split; [done|]. split; [done|]. split; [done|]. split; [done|].
    intros d Hdep. apply Herr. by apply (departed_in_flat new_view sg).
  - intros sg prs' p' d Hin' Hp' Hdep.
    destruct (Hbw sg prs' Hin') as (prs & Hin & Hsweep).
    destruct (sweep_spec new_view sg prs) as (prs'' & Hsweep' & _ & Hbw').
    { intros q. by apply Hsg. }
    assert (prs'' = prs') as -> by congruence.
    destruct (Hbw' p' Hp') as (p & shards & _ & _ & Hshards & ->).
    destruct (remove_departed_completed shards p) as (_ & _ & _ & _ & Hnw & _).
    apply Hnw. by apply (departed_in_flat new_view sg).
  - intros sg q p d _ _ Hmap (Hf & _). congruence.
Qed.

Lemma new_view_callback_completes_departed_witness :
  (∀ sg prs p, (sg, prs) ∈ RPCManager.fulfilled_pending_results manager3 →
     p ∈ prs → PendingResults.all_responded p = false →
     is_Some (View.subgroup_shard_views view_after !! sg))
  ∧ PendingResults.waiting_on pending_on_10 10%N
  ∧ departed_in view_after 0 10%N
  ∧ ∃ st' p',
      RPCManager.new_view_callback view_after manager3 = Ret st'
      ∧ RPCManager.fulfilled_pending_results st' = [(0%nat, [p'])]
      ∧ PendingResults.outcomes p' !! 10%N = Some PendingResults.node_removed
      ∧ PendingResults.outcomes p' !! 11%N = Some PendingResults.replied.
Proof.
  assert (H : ∀ sg prs p,
             (sg, prs) ∈ RPCManager.fulfilled_pending_results manager3 →
             p ∈ prs → PendingResults.all_responded p = false →
             is_Some (View.subgroup_shard_views view_after !! sg)).
  { intros sg prs p Hin _ _. simpl in Hin.
    apply list_elem_of_singleton in Hin. injection Hin as -> _.
    simpl. eauto. }
  split; [exact H|].
  split; [split; [done|]; split; [left|done]|].
  split.
  { exists [shard_after], shard_after. split; [done|]. split; left. }
  destruct (new_view_callback_completes_departed view_after manager3 H)
    as (st' & Hst' & _).
  exists st', (RPCManager.remove_departed [shard_after] pending_on_10).
  split; [exact Hst'|].
  vm_compute in Hst'. injection Hst' as <-.
  split; [reflexivity|]. split; reflexivity.
Defined.

(** ** View: what the local constructor establishes *)

(** A view built by the local constructor from parallel vectors over a
    duplicate-free member list is well formed. *)
Lemma make_well_formed (vid : Z) (members : list node_id_t)
    (ips : list ip_and_ports) (failed : list bool)
    (joined departed : list node_id_t) (my_rank next_unassigned_rank : Z)
    (order : list type_index) (v : View.t) :
  View.make vid members ips failed joined departed my_rank
            next_unassigned_rank order = Ret v →
  Z.of_nat (length members) ≤ INT_MAX →
  length failed = length members → length ips = length members →
  NoDup members →
  well_formed_view v.
Proof.
  unfold View.make. intros H Hmax Hf Hi Hnd.
  apply bind_Ret in H as (idx & Hidx & H).
  apply bind_Ret in H as (nf & _ & H). injection H as <-.
  rewrite to_int32_small in Hidx by lia.
  split; simpl; [apply to_int32_small; lia|done|done| |done].
  by rewrite to_int32_small by lia.
Qed.

(** * Further properties of the embedded code *)

(** ** SubView: ranks and sender ranks *)

Lemma rank_of_from_find_pos (rank : nat) (ms : list node_id_t) (who : node_id_t) :
  SubView.rank_of_from rank ms who
  = if decide (View.find_pos ms who = length ms) then -1
    else to_int32 (Z.of_nat (rank + View.find_pos ms who)).
Proof.
  revert rank. induction ms as [|m ms IH]; intros rank; simpl; [done|].
  destruct (decide (m = who)) as [->|Hne].
  - rewrite decide_False by lia. f_equal. lia.
  - rewrite IH. destruct (decide (View.find_pos ms who = length ms)) as [He|Hn].
    + by rewrite decide_True by lia.
    + rewrite decide_False by lia. f_equal. lia.
Qed.

(** X1. [SubView::rank_of] returns -1 exactly for a node that is not a
    member of the shard; for a member it returns the first rank that
    holds the node. (Member lists up to [INT_MAX], the range of the [int]
    result.) *)
Theorem subview_rank_of_first_occurrence (sv : SubView.t) (who : node_id_t) :
  Z.of_nat (length (SubView.members sv)) ≤ INT_MAX →
  (SubView.rank_of sv who = -1 ↔ who ∉ SubView.members sv)
  ∧ (who ∈ SubView.members sv →
     ∃ k : nat, SubView.rank_of sv who = Z.of_nat k
                ∧ SubView.members sv !! k = Some who
                ∧ ∀ j : nat, (j < k)%nat → SubView.members sv !! j ≠ Some who).
Proof.
  intros Hlen. unfold SubView.rank_of. rewrite rank_of_from_find_pos.
  pose proof (find_pos_le (SubView.members sv) who) as Hle.
  pose proof (find_pos_absent (SubView.members sv) who) as Habs.
  destruct (decide _) as [He|Hn].
  - split; [by rewrite <- Habs|]. intros Hin. by apply Habs in He.
  - rewrite to_int32_small by (simpl; lia). split.
    + split; [lia|]. intros Hout. by apply Habs in Hout.
    + intros Hin. destruct (find_pos_first _ _ Hin) as [Hat Hbefore].
      exists (View.find_pos (SubView.members sv) who). done.
Qed.

Lemma subview_rank_of_first_occurrence_witness :
  Z.of_nat (length (SubView.members shard_10_11)) ≤ INT_MAX
  ∧ SubView.rank_of shard_10_11 11%N = 1
  ∧ SubView.rank_of shard_10_11 12%N = -1.
Proof.
  assert (H : Z.of_nat (length (SubView.members shard_10_11)) ≤ INT_MAX)
    by (vm_compute; discriminate).
  split; [exact H|].
  destruct (subview_rank_of_first_occurrence shard_10_11 12%N H) as [Hout _].
  split; [reflexivity|]. apply Hout. simpl.
  rewrite !not_elem_of_cons. repeat split; try discriminate.
  apply not_elem_of_nil.
Defined.

Lemma for_each_app {A S} (l1 l2 : list A) (body : A → S → res S) (s : S) :
  for_each (l1 ++ l2) body s = for_each l1 body s ≫= for_each l2 body.
Proof.
  revert s. induction l1 as [|x l1 IH]; intros s; simpl; [done|].
  destruct (body x s) as [s'| |]; simpl; [apply IH|done|done].
Qed.

Lemma seqZ_snoc (n : nat) : seqZ 0 (Z.of_nat (S n)) = seqZ 0 (Z.of_nat n) ++ [Z.of_nat n].
Proof.
  replace (Z.of_nat (S n)) with (Z.of_nat n + 1) by lia.
  rewrite seqZ_app by lia. f_equal.
Qed.

Lemma senders_below_S (sv : SubView.t) (n : nat) (s : Z) :
  SubView.is_sender sv !! n = Some s →
  senders_below sv (S n)
  = (senders_below sv n + if decide (s = 0%Z) then 0 else 1)%nat.
Proof.
  intros Hs. unfold senders_below. rewrite (take_S_r _ _ _ Hs), filter_app.
  rewrite length_app. f_equal. rewrite filter_cons, filter_nil.
  destruct (decide (s = 0)) as [->|Hne].
  - by rewrite decide_False by (intros H; by apply H).
  - by rewrite decide_True.
Qed.

Lemma senders_below_le (sv : SubView.t) (n : nat) : (senders_below sv n ≤ n)%nat.
Proof.
  unfold senders_below. etrans; [apply length_filter|].
  rewrite length_take. lia.
Qed.

Lemma count_senders_below (sv : SubView.t) (n : nat) :
  (n ≤ length (SubView.is_sender sv))%nat → Z.of_nat n ≤ INT_MAX →
  for_each (seqZ 0 (Z.of_nat n))
    (λ i num,
       si ← vec_get (SubView.is_sender sv) i;
       if decide (si = 0) then Ret num
       else if decide (num < INT_MAX) then Ret (num + 1) else Undef)
    0 = Ret (Z.of_nat (senders_below sv n)).
Proof.
  induction n as [|n IH]; intros Hlen Hmax; [done|].
  rewrite seqZ_snoc, for_each_app. rewrite IH; [|lia|lia]. simpl.
  unfold INT_MAX in *.
  destruct (lookup_lt_is_Some_2 (SubView.is_sender sv) n) as [s Hs]; [lia|].
  rewrite (vec_get_nat _ _ _ Hs). simpl.
  rewrite (senders_below_S sv n s Hs).
  pose proof (senders_below_le sv n).
  destruct (decide (s = 0)) as [->|Hne].
  - simpl. apply f_equal. lia.
  - simpl. rewrite decide_True by lia. simpl. apply f_equal. lia.
Qed.

Lemma sender_rank_of_value (sv : SubView.t) (rank : nat) (s : Z) :
  Z.of_nat (length (SubView.is_sender sv)) ≤ INT_MAX →
  SubView.is_sender sv !! rank = Some s →
  SubView.sender_rank_of sv (Z.of_nat rank)
  = Ret (if decide (s = 0) then -1 else Z.of_nat (senders_below sv rank)).
Proof.
  intros Hmax Hs. unfold SubView.sender_rank_of.
  rewrite (vec_get_nat _ _ _ Hs). simpl.
  destruct (decide (s = 0)); [done|].
  pose proof (lookup_lt_Some _ _ _ Hs).
  apply count_senders_below; lia.
Qed.


(** X2. For a rank of the shard, [sender_rank_of] returns -1 when the
    member is not a sender and otherwise the number of senders of lower
    rank. (Shards of up to [INT_MAX] members.) *)
Theorem sender_rank_of_counts_lower_senders (sv : SubView.t) (rank : nat) (s : Z) :
  Z.of_nat (length (SubView.is_sender sv)) ≤ INT_MAX →
  SubView.is_sender sv !! rank = Some s →
  SubView.sender_rank_of sv (Z.of_nat rank)
  = Ret (if decide (s = 0) then -1 else Z.of_nat (senders_below sv rank)).
Proof. apply sender_rank_of_value. Qed.

Lemma sender_rank_of_counts_lower_senders_witness :
  SubView.sender_rank_of
    (SubView.make ORDERED [4%N; 7%N; 9%N] [1; 0; 1] []) 2 = Ret 1
  ∧ SubView.sender_rank_of
      (SubView.make ORDERED [4%N; 7%N; 9%N] [1; 0; 1] []) 1 = Ret (-1).
Proof.
  split.
  - apply (sender_rank_of_counts_lower_senders
             (SubView.make ORDERED [4%N; 7%N; 9%N] [1; 0; 1] []) 2 1);
      [vm_compute; discriminate|reflexivity].
  - apply (sender_rank_of_counts_lower_senders
             (SubView.make ORDERED [4%N; 7%N; 9%N] [1; 0; 1] []) 1 0);
      [vm_compute; discriminate|reflexivity].
Defined.

Lemma senders_below_mono (sv : SubView.t) (n m : nat) :
  (n ≤ m)%nat → (senders_below sv n ≤ senders_below sv m)%nat.
Proof.
  intros Hnm. unfold senders_below.
  replace m with (n + (m - n))%nat by lia.
  rewrite <- take_take_drop, filter_app, length_app. lia.
Qed.

Lemma num_senders_fold (l : list Z) (acc : Z) :
  0 ≤ acc → acc + Z.of_nat (length l) < 2 ^ 32 →
  fold_left (λ num i, if decide (i = 0) then num else to_uint32 (num + 1)) l acc
  = acc + Z.of_nat (length (filter (λ s, s ≠ 0) l)).
Proof.
  revert acc. induction l as [|s l IH]; intros acc H0 Hb; simpl; [lia|].
  simpl in Hb. rewrite filter_cons. destruct (decide (s = 0)) as [->|Hne].
  - rewrite decide_False by (intros H; by apply H). apply IH; lia.
  - rewrite decide_True by done. unfold to_uint32 at 2.
    rewrite Z.mod_small by lia. rewrite IH by lia. simpl. lia.
Qed.

(** X3. Sender ranks number the senders of a shard: two senders have
    different sender ranks, in the order of their ranks, and every sender
    rank is below [num_senders]. *)
Theorem sender_ranks_enumerate_senders (sv : SubView.t) (r1 r2 : nat)
    (s1 s2 : Z) :
  Z.of_nat (length (SubView.is_sender sv)) ≤ INT_MAX →
  SubView.is_sender sv !! r1 = Some s1 → s1 ≠ 0 →
  SubView.is_sender sv !! r2 = Some s2 → s2 ≠ 0 →
  (r1 < r2)%nat →
  ∃ i1 i2, SubView.sender_rank_of sv (Z.of_nat r1) = Ret i1
           ∧ SubView.sender_rank_of sv (Z.of_nat r2) = Ret i2
           ∧ 0 ≤ i1 < i2 ∧ i2 < SubView.num_senders sv.
Proof.
  intros Hmax H1 Hs1 H2 Hs2 Hlt.
  rewrite (sender_rank_of_value sv r1 s1 Hmax H1).
  rewrite (sender_rank_of_value sv r2 s2 Hmax H2).
  rewrite !decide_False by done.
  eexists _, _. split; [done|]. split; [done|].
  pose proof (senders_below_S sv r1 s1 H1) as E1.
  rewrite decide_False in E1 by done.
  pose proof (senders_below_mono sv (S r1) r2 ltac:(lia)).
  pose proof (senders_below_S sv r2 s2 H2) as E2.
  rewrite decide_False in E2 by done.
  pose proof (lookup_lt_Some _ _ _ H2) as Hr2.
  pose proof (senders_below_mono sv (S r2) (length (SubView.is_sender sv))
                ltac:(lia)).
  assert (Hnum : SubView.num_senders sv
                 = Z.of_nat (senders_below sv (length (SubView.is_sender sv)))).
  { unfold SubView.num_senders, senders_below.
    rewrite num_senders_fold; [|lia|unfold INT_MAX in Hmax; lia].
    by rewrite take_ge. }
  rewrite Hnum. lia.
Qed.

Lemma sender_ranks_enumerate_senders_witness :
  ∃ i1 i2,
    SubView.sender_rank_of
      (SubView.make ORDERED [4%N; 7%N; 9%N] [1; 0; 1] []) 0 = Ret i1
    ∧ SubView.sender_rank_of
        (SubView.make ORDERED [4%N; 7%N; 9%N] [1; 0; 1] []) 2 = Ret i2
    ∧ 0 ≤ i1 < i2
    ∧ i2 < SubView.num_senders (SubView.make ORDERED [4%N; 7%N; 9%N] [1; 0; 1] []).
Proof.
  apply (sender_ranks_enumerate_senders
           (SubView.make ORDERED [4%N; 7%N; 9%N] [1; 0; 1] []) 0 2 1 1);
    [vm_compute; discriminate|reflexivity|lia|reflexivity|lia|lia].
Defined.

(** ** View: the local constructor and the rank searches *)

Lemma count_failed_loop (failed : list bool) (acc : Z) :
  acc + Z.of_nat (length failed) ≤ INT_MAX →
  for_each failed
    (λ (c : bool) nf,
       if c then (if decide (nf < INT_MAX) then Ret (nf + 1) else Undef)
       else Ret nf)
    acc = Ret (acc + Z.of_nat (count_failed failed)).
Proof.
  revert acc. induction failed as [|c failed IH]; intros acc Hb.
  - simpl. apply f_equal. unfold count_failed. simpl. lia.
  - simpl in Hb. unfold count_failed. rewrite filter_cons. destruct c.
    + cbn [for_each]. rewrite (decide_True (P := acc < INT_MAX)) by lia.
      cbn [mbind res_bind]. rewrite IH by lia.
      rewrite decide_True by done. apply f_equal. unfold count_failed.
      simpl. lia.
    + cbn [for_each mbind res_bind]. rewrite IH by lia.
      rewrite decide_False by done. done.
Qed.

Lemma count_failed_le (failed : list bool) :
  (count_failed failed ≤ length failed)%nat.
Proof. apply length_filter. Qed.

(** X4. The local constructor, given at most [INT_MAX] members and
    [failed] flags, builds a view whose [num_members] is the member count
    and whose [num_failed] is the number of set flags of [failed]; rank
    fields are stored as given, the subgroup tables start empty and the
    view does not yet know itself to be the leader. *)
Theorem make_counts_members_and_failures (vid : Z) (members : list node_id_t)
    (ips : list ip_and_ports) (failed : list bool)
    (joined departed : list node_id_t) (my_rank next_unassigned_rank : Z)
    (order : list type_index) :
  Z.of_nat (length members) ≤ INT_MAX →
  Z.of_nat (length failed) ≤ INT_MAX →
  ∃ v, View.make vid members ips failed joined departed my_rank
                 next_unassigned_rank order = Ret v
       ∧ View.num_members v = Z.of_nat (length members)
       ∧ View.num_failed v = Z.of_nat (count_failed failed)
       ∧ View.num_failed v ≤ Z.of_nat (length failed)
       ∧ View.members v = members ∧ View.failed v = failed
       ∧ View.my_rank v = my_rank
       ∧ View.next_unassigned_rank v = next_unassigned_rank
       ∧ View.subgroup_shard_views v = []
       ∧ View.i_know_i_am_leader v = false.
Proof.
  intros Hm Hf. unfold View.make, View.index_members.
  rewrite to_int32_small by lia.
  destruct (index_members_defined members (length members) 0 ∅) as [idx ->];
    [lia..|].
  simpl. rewrite count_failed_loop by lia. simpl.
  eexists. split; [reflexivity|]. simpl.
  pose proof (count_failed_le failed).
  repeat split; lia.
Qed.

Lemma make_counts_members_and_failures_witness :
  ∃ v, View.make 5 [10%N; 11%N; 12%N] [addr 0; addr 1; addr 2]
                 [true; false; true] [] [] 1 3 [] = Ret v
       ∧ View.num_members v = 3 ∧ View.num_failed v = 2.
Proof.
  destruct (make_counts_members_and_failures 5 [10%N; 11%N; 12%N]
              [addr 0; addr 1; addr 2] [true; false; true] [] [] 1 3 [])
    as (v & Hv & Hn & Hf & _); [vm_compute; discriminate..|].
  exists v. split; [exact Hv|]. split; [exact Hn|exact Hf].
Defined.

(** X5. In a view built by the local constructor from a duplicate-free
    member list, [rank_of] a node id is the rank of that node, and -1
    exactly for a node that is not a member. *)
Theorem view_rank_of_inverts_members (vid : Z) (members : list node_id_t)
    (ips : list ip_and_ports) (failed : list bool)
    (joined departed : list node_id_t) (my_rank next_unassigned_rank : Z)
    (order : list type_index) (v : View.t) :
  View.make vid members ips failed joined departed my_rank
            next_unassigned_rank order = Ret v →
  Z.of_nat (length members) ≤ INT_MAX → NoDup members →
  (∀ (k : nat) who, members !! k = Some who → View.rank_of v who = Z.of_nat k)
  ∧ (∀ who, View.rank_of v who = -1 ↔ who ∉ members).
Proof.
  unfold View.make, View.index_members. intros H Hmax Hnd.
  apply bind_Ret in H as (idx & Hidx & H).
  apply bind_Ret in H as (nf & _ & H). injection H as <-.
  rewrite to_int32_small in Hidx by lia.
  destruct (index_members_lookup _ _ 0 _ _ ltac:(lia) Hidx) as [Hout Hin].
  assert (Hrank : ∀ (k : nat) who, members !! k = Some who →
            idx !! who = Some (Z.of_nat k)).
  { intros k who Hk. apply (Hin Hnd); [|by rewrite Nat2Z.id].
    apply lookup_lt_Some in Hk. lia. }
  unfold View.rank_of. simpl. split.
  - intros k who Hk. by rewrite (Hrank k who Hk).
  - intros who. split.
    + intros Hm Hwho. apply list_elem_of_lookup in Hwho as [k Hk].
      rewrite (Hrank k who Hk) in Hm. lia.
    + intros Hwho. rewrite Hout; [by rewrite lookup_empty|].
      intros k Hk Hlook. apply Hwho. by eapply list_elem_of_lookup_2.
Qed.

Lemma view_rank_of_inverts_members_witness :
  ∃ v, View.make 5 [10%N; 11%N; 12%N] [addr 0; addr 1; addr 2]
                 [true; false; true] [] [] 1 3 [] = Ret v
       ∧ View.rank_of v 12%N = 2 ∧ View.rank_of v 13%N = -1.
Proof.
  assert (Hrun : ∃ v, View.make 5 [10%N; 11%N; 12%N] [addr 0; addr 1; addr 2]
                        [true; false; true] [] [] 1 3 [] = Ret v)
    by (eexists; vm_compute; reflexivity).
  destruct Hrun as (v & Hv).
  destruct (view_rank_of_inverts_members _ _ _ _ _ _ _ _ _ v Hv) as [Hin Hout].
  { vm_compute; discriminate. }
  { by apply (bool_decide_unpack _). }
  exists v. split; [exact Hv|]. split.
  - apply (Hin 2%nat). reflexivity.
  - apply Hout. rewrite !not_elem_of_cons. repeat split; try discriminate.
    apply not_elem_of_nil.
Defined.

Lemma first_with_address_spec (ips : list ip_and_ports) (who : ip_and_ports)
    (n : nat) (a : Z) :
  0 ≤ a → a + Z.of_nat n ≤ Z.of_nat (length ips) →
  ∃ r, View.first_with_address ips who (seqZ a (Z.of_nat n)) = Ret r
       ∧ ((r = -1 ∧ ∀ k, a ≤ k < a + Z.of_nat n → ips !! Z.to_nat k ≠ Some who)
          ∨ (a ≤ r < a + Z.of_nat n
             ∧ ips !! Z.to_nat r = Some who
             ∧ ∀ k, a ≤ k < r → ips !! Z.to_nat k ≠ Some who)).
Proof.
  revert a. induction n as [|n IH]; intros a Ha Hlen.
  - simpl. exists (-1). split; [done|]. left. split; [done|]. intros; lia.
  - rewrite seqZ_cons by lia. simpl.
    destruct (lookup_lt_is_Some_2 ips (Z.to_nat a)) as [x Hx]; [lia|].
    rewrite (proj2 (vec_get_Ret ips a x)) by auto. simpl.
    replace (Z.pred (Z.of_nat (S n))) with (Z.of_nat n) by lia.
    destruct (decide (x = who)) as [->|Hne].
    + exists a. split; [done|]. right. split; [lia|]. split; [done|].
      intros; lia.
    + destruct (IH (Z.succ a)) as (r & Hr & Hcase); [lia..|].
      exists r. split; [done|].
      destruct Hcase as [[-> Hall]|(Hrng & Hat & Hall)].
      * left. split; [done|]. intros k Hk.
        destruct (decide (k = a)) as [->|]; [congruence|]. apply Hall. lia.
      * right. split; [lia|]. split; [done|]. intros k Hk.
        destruct (decide (k = a)) as [->|]; [congruence|]. apply Hall. lia.
Qed.

(** X6. [rank_of] an address returns the lowest rank below [num_members]
    whose address entry equals the argument, and -1 when no such rank has
    it. *)
Theorem rank_of_address_lowest_match (v : View.t) (who : ip_and_ports) :
  View.num_members v ≤ Z.of_nat (length (View.member_ips_and_ports v)) →
  ∃ r, View.rank_of_address v who = Ret r
       ∧ ((r = -1 ∧ ∀ k, 0 ≤ k < View.num_members v →
                      View.member_ips_and_ports v !! Z.to_nat k ≠ Some who)
          ∨ (0 ≤ r < View.num_members v
             ∧ View.member_ips_and_ports v !! Z.to_nat r = Some who
             ∧ ∀ k, 0 ≤ k < r →
                    View.member_ips_and_ports v !! Z.to_nat k ≠ Some who)).
Proof.
  intros Hlen. unfold View.rank_of_address.
  destruct (decide (0 ≤ View.num_members v)) as [Hn|Hn].
  - destruct (first_with_address_spec (View.member_ips_and_ports v) who
                (Z.to_nat (View.num_members v)) 0) as (r & Hr & Hcase); [lia..|].
    rewrite Z2Nat.id in Hr, Hcase by done. rewrite Z.add_0_l in Hcase.
    eauto.
  - rewrite seqZ_nil by lia. simpl. exists (-1). split; [done|].
    left. split; [done|]. intros; lia.
Qed.

Lemma rank_of_address_lowest_match_witness :
  View.num_members view3 ≤ Z.of_nat (length (View.member_ips_and_ports view3))
  ∧ View.rank_of_address view3 (addr 2) = Ret 2
  ∧ View.rank_of_address view3 (addr 7) = Ret (-1).
Proof.
  assert (H : View.num_members view3
              ≤ Z.of_nat (length (View.member_ips_and_ports view3)))
    by (simpl; lia).
  split; [exact H|].
  destruct (rank_of_address_lowest_match view3 (addr 2) H) as (r & Hr & _).
  split; [|reflexivity].
  rewrite Hr. vm_compute in Hr. congruence.
Defined.

(** ** View: becoming the new leader, wedging twice *)

Lemma elem_of_leader_pairs (m n row : Z) :
  (n, row) ∈ View.leader_pairs m ↔ 0 ≤ n < m ∧ 0 ≤ row < m.
Proof.
  unfold View.leader_pairs. rewrite list_elem_of_In, in_concat. split.
  - intros (l & Hl & Hin). apply in_map_iff in Hl as (n' & <- & Hn').
    apply in_map_iff in Hin as (row' & [= <- <-] & Hrow').
    apply list_elem_of_In, elem_of_seqZ in Hn', Hrow'. lia.
  - intros [Hn Hrow]. exists (map (λ row, (n, row)) (seqZ 0 m)). split.
    + apply in_map_iff. exists n. split; [done|].
      apply list_elem_of_In, elem_of_seqZ. lia.
    + apply in_map_iff. exists row. split; [done|].
      apply list_elem_of_In, elem_of_seqZ. lia.
Qed.

Lemma all_below_gone_spec (v : View.t) (w : World) (ps : list (Z * Z)) :
  Forall (λ '(n, row),
            0 ≤ n < Z.of_nat (length (View.failed v))
            ∧ ∃ r, gmssst.get_row w row = Ret r
                   ∧ n < Z.of_nat (length (DerechoSST.suspected r))) ps →
  ∃ b, View.all_below_gone v w ps = Ret b
       ∧ (b = true ↔
          ∀ n row, (n, row) ∈ ps →
            View.failed v !! Z.to_nat n = Some true
            ∨ ∃ r, gmssst.get_row w row = Ret r
                   ∧ DerechoSST.suspected r !! Z.to_nat n = Some true).
Proof.
  induction ps as [|[n row] ps IH]; intros Hps.
  - exists true. split; [done|]. split; [|done].
    intros _ n row H. by apply elem_of_nil in H.
  - apply Forall_cons in Hps as [(Hn & r & Hr & Hs) Hps].
    destruct (IH Hps) as (b & Hb & Hiff). simpl.
    destruct (lookup_lt_is_Some_2 (View.failed v) (Z.to_nat n)) as [f Hf]; [lia|].
    rewrite (proj2 (vec_get_Ret _ _ _) (conj (proj1 Hn) Hf)). simpl.
    destruct (lookup_lt_is_Some_2 (DerechoSST.suspected r) (Z.to_nat n))
      as [s Hsn]; [lia|].
    assert (Hhead :
      (∀ n' row', (n', row') ∈ (n, row) :: ps →
         View.failed v !! Z.to_nat n' = Some true
         ∨ ∃ r', gmssst.get_row w row' = Ret r'
                 ∧ DerechoSST.suspected r' !! Z.to_nat n' = Some true)
      ↔ (f = true ∨ s = true)
        ∧ ∀ n' row', (n', row') ∈ ps →
            View.failed v !! Z.to_nat n' = Some true
            ∨ ∃ r', gmssst.get_row w row' = Ret r'
                    ∧ DerechoSST.suspected r' !! Z.to_nat n' = Some true).
    { split.
      - intros H. split.
        + destruct (H n row) as [Hf'|(r' & Hr' & Hs')]; [left|left; congruence|].
          right. assert (r' = r) as -> by congruence. congruence.
        + intros n' row' Hin. apply H. by right.
      - intros [Hfs Hrest] n' row' [[= -> ->]|Hin]%elem_of_cons; [|by apply Hrest].
        destruct Hfs as [->| ->]; [by left|]. right. eauto. }
    destruct f.
    + exists b. split; [done|]. rewrite Hhead, <- Hiff. tauto.
    + rewrite Hr. simpl.
      rewrite (proj2 (vec_get_Ret _ _ _) (conj (proj1 Hn) Hsn)). simpl.
      destruct s.
      * exists b. split; [done|]. rewrite Hhead, <- Hiff. tauto.
      * exists false. split; [done|]. rewrite Hhead. split; [done|].
        intros [[?|?] _]; discriminate.
Qed.

(** X7. A view that does not yet know itself to be the leader is told by
    [i_am_new_leader] that it is the new leader exactly when every member
    of lower rank is marked failed or is suspected by every row of lower
    rank (so the member of rank 0 is told so on its first call); being
    told so sets [i_know_i_am_leader] and changes nothing else. *)
Theorem i_am_new_leader_iff_lower_ranks_gone (v : View.t) (w : World) :
  View.i_know_i_am_leader v = false →
  View.my_rank v ≤ Z.of_nat (length (View.failed v)) →
  (∀ row, 0 ≤ row < View.my_rank v →
     ∃ r, gmssst.get_row w row = Ret r
          ∧ View.my_rank v ≤ Z.of_nat (length (DerechoSST.suspected r))) →
  ∃ b : bool, View.i_am_new_leader v w
       = Ret (b, if b then View.set_i_know_i_am_leader v true else v)
       ∧ (b = true ↔
          ∀ n row, 0 ≤ n < View.my_rank v → 0 ≤ row < View.my_rank v →
            View.failed v !! Z.to_nat n = Some true
            ∨ ∃ r, gmssst.get_row w row = Ret r
                   ∧ DerechoSST.suspected r !! Z.to_nat n = Some true).
Proof.
  intros Hknow Hf Hrows. unfold View.i_am_new_leader. rewrite Hknow.
  destruct (all_below_gone_spec v w (View.leader_pairs (View.my_rank v)))
    as (b & Hb & Hiff).
  { apply Forall_forall. intros [n row] [Hn Hrow]%elem_of_leader_pairs.
    split; [lia|]. destruct (Hrows row Hrow) as (r & Hr & Hlen).
    exists r. split; [done|lia]. }
  rewrite Hb. simpl. exists b. split; [by destruct b|].
  rewrite Hiff. split.
  - intros H n row Hn Hrow. apply H, elem_of_leader_pairs. done.
  - intros H n row [Hn Hrow]%elem_of_leader_pairs. by apply H.
Qed.

Lemma i_am_new_leader_iff_lower_ranks_gone_witness :
  View.i_am_new_leader view3 world3
  = Ret (true, View.set_i_know_i_am_leader view3 true).
Proof.
  destruct (i_am_new_leader_iff_lower_ranks_gone view3 world3)
    as (b & Hb & Hiff); [reflexivity|simpl; lia| |].
  { intros row Hrow. simpl in Hrow. assert (row = 0) as -> by lia.
    eexists. split; [reflexivity|]. simpl. lia. }
  rewrite Hb. replace b with true; [reflexivity|].
  symmetry. apply Hiff. intros n row Hn Hrow. simpl in Hn.
  assert (n = 0) as -> by lia. by left.
Defined.

(** X8. Wedging a view a second time changes neither the table nor the
    multicast group: the second call only repeats the three effects. *)
Theorem wedge_twice_same_state (v : View.t) (w w1 : World) :
  View.wedge v w = Ret w1 →
  ∃ w2, View.wedge v w1 = Ret w2
        ∧ gmsSST w2 = gmsSST w1
        ∧ multicast_group w2 = multicast_group w1
        ∧ ∃ offset size,
            trace w2 = trace w1 ++ [E_multicast_wedge;
                                    E_set (View.my_rank v) DerechoSST.F_wedged;
                                    E_put offset size].
Proof.
  unfold View.wedge. intros H.
  apply bind_Ret in H as (wa & Hset & [= <-]).
  unfold gmssst.set_wedged in Hset.
  apply bind_Ret in Hset as (r & Hr & Hwrite).
  pose proof (get_row_write_eq _ _ _ _ _ Hwrite) as Hr1.
  apply write_row_Ret in Hwrite as (Hge & Hlt & ->).
  unfold gmssst.set_wedged, gmssst.put.
  unfold gmssst.get_row in *. simpl in *. rewrite Hr1. simpl.
  unfold gmssst.write_row. simpl.
  match goal with
  | |- context [vec_set ?l ?i ?x] =>
      assert (Hset2 : vec_set l i x = Ret (<[Z.to_nat i := x]> l))
        by (apply vec_set_Ret; rewrite length_insert; done)
  end.
  rewrite Hset2. simpl. eexists. split; [reflexivity|]. simpl.
  split; [by rewrite list_insert_insert_eq|]. split; [done|].
  eexists _, _. by rewrite <- !app_assoc.
Qed.

Lemma wedge_twice_same_state_witness :
  ∃ w1 w2, View.wedge view3 world3 = Ret w1
           ∧ View.wedge view3 w1 = Ret w2
           ∧ gmsSST w2 = gmsSST w1.
Proof.
  eexists. 
  destruct (wedge_twice_same_state view3 world3 _ eq_refl) as (w2 & Hw2 & Hsst & _).
  exists w2. split; [reflexivity|]. split; [exact Hw2|exact Hsst].
Defined.

(** ** [merge_changes]: what it writes and what it publishes *)

Lemma log_fields_only_refl (r : DerechoSST.Row) : log_fields_only r r.
Proof. repeat split. Qed.

Lemma log_fields_only_trans (r1 r2 r3 : DerechoSST.Row) :
  log_fields_only r1 r2 → log_fields_only r2 r3 → log_fields_only r1 r3.
Proof.
  unfold log_fields_only. intros H1 H2.
  repeat match goal with H : _ ∧ _ |- _ => destruct H end.
  repeat split; congruence.
Qed.

Lemma log_writes_trans (me : Z) (w1 w2 w3 : World) :
  log_writes me w1 w2 → log_writes me w2 w3 → log_writes me w1 w3.
Proof.
  intros H12 H23. revert H12.
  induction H23 as [w|w wa wb r0 r1 f _ IH Hr0 Hw Hf Hfr]; intros H12; [done|].
  eapply log_writes_more; [by apply IH|exact Hr0|exact Hw|exact Hf|exact Hfr].
Qed.

Lemma log_writes_one (me : Z) (w w' : World) (r0 r1 : DerechoSST.Row)
    (f : DerechoSST.Field) :
  gmssst.get_row w me = Ret r0 → gmssst.write_row w me f r1 = Ret w' →
  log_field f → log_fields_only r0 r1 → log_writes me w w'.
Proof.
  intros Hr Hw Hf Hfr.
  eapply log_writes_more; [apply log_writes_none|exact Hr|exact Hw|exact Hf|exact Hfr].
Qed.

Lemma merge_row_log_writes (me n : Z) (w w1 : World) :
  View.merge_row me n w = Ret w1 → log_writes me w w1.
Proof.
  unfold View.merge_row. intros H.
  apply bind_Ret in H as (r & Hr & H).
  apply bind_Ret in H as (o & Ho & H).
  apply bind_Ret in H as (wa & Hwa & H).
  apply bind_Ret in H as (ra & Hra & H).
  apply bind_Ret in H as (oa & Hoa & H).
  assert (Ha : log_writes me w wa).
  { destruct (decide (DerechoSST.num_changes r < DerechoSST.num_changes o))
      as [Hlt|Hge]; [|injection Hwa as <-; apply log_writes_none].
    apply bind_Ret in Hwa as (wb & Hwb & Hwa).
    apply bind_Ret in Hwa as (ob & Hob & Hwa).
    unfold gmssst.set_changes in Hwb.
    apply bind_Ret in Hwb as (r' & Hr' & Hwb).
    apply bind_Ret in Hwb as (a & _ & Hwb).
    unfold gmssst.set_num_changes in Hwa.
    apply bind_Ret in Hwa as (rb & Hrb & Hwa).
    eapply log_writes_trans.
    - eapply (log_writes_one me w wb); [exact Hr'|exact Hwb|by left|repeat split].
    - eapply (log_writes_one me wb wa); [exact Hrb|exact Hwa|by right; left|repeat split]. }
  destruct (decide (DerechoSST.num_committed ra < DerechoSST.num_committed oa))
    as [Hlt|Hge]; [|by injection H as <-].
  unfold gmssst.set_num_committed in H.
  apply bind_Ret in H as (rb & Hrb & H).
  eapply log_writes_trans; [exact Ha|].
  eapply log_writes_one; [exact Hrb|exact H|by right; right|repeat split].
Qed.

Lemma propose_failure_log_writes (v : View.t) (n : Z) (st st' : bool * World) :
  View.propose_failure v n st = Ret st' →
  log_writes (View.my_rank v) st.2 st'.2.
Proof.
  destruct st as [found w]. unfold View.propose_failure. intros H.
  apply bind_Ret in H as (f & _ & H).
  apply bind_Ret in H as (found1 & _ & H).
  destruct found1.
  - injection H as <-. apply log_writes_none.
  - apply bind_Ret in H as (r & Hr & H).
    apply bind_Ret in H as (m & _ & H).
    apply bind_Ret in H as (w1 & Hw1 & H).
    apply bind_Ret in H as (w2 & Hw2 & H).
    injection H as <-. simpl.
    unfold gmssst.set_changes_slot in Hw1.
    apply bind_Ret in Hw1 as (r' & Hr' & Hw1).
    apply bind_Ret in Hw1 as (a & _ & Hw1).
    unfold gmssst.increment_num_changes in Hw2.
    apply bind_Ret in Hw2 as (r1 & Hr1 & Hw2).
    destruct (decide _) as [_|_]; [|discriminate].
    eapply log_writes_trans.
    + eapply (log_writes_one _ w w1); [exact Hr'|exact Hw1|by left|repeat split].
    + eapply (log_writes_one _ w1 w2); [exact Hr1|exact Hw2|by right; left|repeat split].
Qed.

Lemma for_each_log_writes {A S} (me : Z) (proj : S → World)
    (body : A → S → res S) (l : list A) (s s' : S) :
  (∀ x s1 s2, body x s1 = Ret s2 → log_writes me (proj s1) (proj s2)) →
  for_each l body s = Ret s' → log_writes me (proj s) (proj s').
Proof.
  intros Hbody. revert s. induction l as [|x l IH]; intros s H.
  - injection H as <-. apply log_writes_none.
  - simpl in H. apply bind_Ret in H as (s1 & Hstep & Hrest).
    eapply log_writes_trans; [by eapply Hbody|by apply IH].
Qed.

(** What a sequence of log writes amounts to. *)
Lemma log_writes_effect (me : Z) (w w' : World) :
  log_writes me w w' →
  multicast_group w' = multicast_group w
  ∧ DerechoSST.params (gmsSST w') = DerechoSST.params (gmsSST w)
  ∧ (∀ k : nat, k ≠ Z.to_nat me →
       DerechoSST.rows (gmsSST w') !! k = DerechoSST.rows (gmsSST w) !! k)
  ∧ (∀ r, gmssst.get_row w me = Ret r →
       ∃ r', gmssst.get_row w' me = Ret r' ∧ log_fields_only r r')
  ∧ ∃ es, trace w' = trace w ++ es
          ∧ Forall (λ e, ∃ f, e = E_set me f ∧ log_field f) es.
Proof.
  induction 1 as [w|w w1 w2 r0 r1 f _ IH Hr0 Hw Hf Hfr].
  - split; [done|]. split; [done|]. split; [done|]. split.
    + intros r Hr. exists r. split; [done|apply log_fields_only_refl].
    + exists []. split; [by rewrite app_nil_r|constructor].
  - destruct IH as (Hmc & Hp & Hoth & Hloc & es & Htr & Hes).
    pose proof (get_row_write_eq _ _ _ _ _ Hw) as Hr1.
    apply write_row_Ret in Hw as (Hge & Hlt & ->). simpl.
    split; [done|]. split; [done|]. split.
    { intros k Hk. rewrite list_lookup_insert_ne by done. by apply Hoth. }
    split.
    { intros r Hr. destruct (Hloc r Hr) as (r' & Hr' & Hfr').
      assert (r' = r0) as -> by congruence.
      exists r1. split; [done|]. by eapply log_fields_only_trans. }
    exists (es ++ [E_set me f]). split.
    { by rewrite Htr, app_assoc. }
    apply Forall_app. split; [done|]. constructor; [eauto|constructor].
Qed.

Lemma merge_changes_log_writes (v : View.t) (w w' : World) :
  View.merge_changes v w = Ret w' →
  ∃ w2, log_writes (View.my_rank v) w w2
        ∧ gmsSST w' = gmsSST w2 ∧ multicast_group w' = multicast_group w2
        ∧ trace w'
          = trace w2
            ++ (let p := DerechoSST.params (gmsSST w) in
                [E_put (DerechoSST.get_base p DerechoSST.F_changes)
                       (DerechoSST.get_base p DerechoSST.F_joiner_ips
                        - DerechoSST.get_base p DerechoSST.F_changes);
                 E_put (DerechoSST.get_base p DerechoSST.F_joiner_ips)
                       (DerechoSST.get_base p DerechoSST.F_num_changes
                        - DerechoSST.get_base p DerechoSST.F_joiner_ips);
                 E_put (DerechoSST.get_base p DerechoSST.F_num_changes)
                       (DerechoSST.get_base p DerechoSST.F_num_committed
                        - DerechoSST.get_base p DerechoSST.F_num_changes);
                 E_put (DerechoSST.get_base p DerechoSST.F_num_committed)
                       (DerechoSST.get_base p DerechoSST.F_num_acked
                        - DerechoSST.get_base p DerechoSST.F_num_committed)]).
Proof.
  unfold View.merge_changes. intros H.
  apply bind_Ret in H as (w1 & Hw1 & H).
  apply bind_Ret in H as (st & Hst & H).
  injection H as <-. exists st.2. split.
  - eapply log_writes_trans.
    + eapply (for_each_log_writes _ id); [|exact Hw1].
      intros n s1 s2. apply merge_row_log_writes.
    + apply (for_each_log_writes _ snd _ _ _ _
               (propose_failure_log_writes v) Hst).
  - split; [done|]. split; [done|]. simpl. by rewrite <- !app_assoc.
Qed.

Lemma offset_in_next (p : DerechoSST.Params) (pre rest : list DerechoSST.Field)
    (f g : DerechoSST.Field) :
  f ∉ pre → g ∉ pre → f ≠ g →
  DerechoSST.offset_in p (pre ++ f :: g :: rest) g
  = (DerechoSST.offset_in p (pre ++ f :: g :: rest) f
     + DerechoSST.field_bytes p f)%nat.
Proof.
  intros Hf Hg Hfg. induction pre as [|h pre IH].
  - simpl app. rewrite offset_in_head, offset_in_tail by done.
    rewrite offset_in_head. lia.
  - apply not_elem_of_cons in Hf as [Hhf Hf], Hg as [Hhg Hg].
    simpl app. rewrite !offset_in_tail by done. rewrite IH by done. lia.
Qed.

(** A [put] from the base of a non-empty field up to the base of the
    field that follows it publishes that field and no other. *)
Lemma put_up_to_next_field (p : DerechoSST.Params)
    (pre rest : list DerechoSST.Field) (f g : DerechoSST.Field) :
  DerechoSST.fields_in_order = pre ++ f :: g :: rest →
  (0 < DerechoSST.field_bytes p f)%nat →
  DerechoSST.published_fields p (DerechoSST.get_base p f)
    (DerechoSST.get_base p g - DerechoSST.get_base p f) = [f].
Proof.
  intros Hsplit Hpos.
  pose proof fields_in_order_NoDup as Hnd. rewrite Hsplit in Hnd.
  apply NoDup_app in Hnd as (_ & Hdisj & Hnd2).
  apply NoDup_cons in Hnd2 as [Hfg _].
  assert (Hf : f ∉ pre) by (intros H; apply (Hdisj f H); left).
  assert (Hg : g ∉ pre) by (intros H; apply (Hdisj g H); right; left).
  assert (Hne : f ≠ g) by (intros ->; apply Hfg; left).
  unfold DerechoSST.published_fields, DerechoSST.get_base.
  rewrite Hsplit, (offset_in_next p pre rest f g Hf Hg Hne), <- Hsplit.
  apply (range_of_field_meets_only_it p).
  - apply fields_in_order_NoDup.
  - rewrite Hsplit. apply elem_of_app. right. left.
  - done.
  - intros h _. lia.
Qed.

(** X9. [merge_changes] first performs all its writes, each to one of
    the fields [changes], [num_changes] and [num_committed] of the local
    row, and then issues exactly four [put]s, which publish, in this
    order, [changes], [joiner_ips], [num_changes] and [num_committed],
    each [put] covering that one field: the log is published before the
    counters that delimit it. *)
Theorem merge_changes_publishes_log_before_counters (v : View.t) (w w' : World) :
  View.merge_changes v w = Ret w' →
  ∃ es o1 s1 o2 s2 o3 s3 o4 s4,
    trace w' = trace w ++ es
               ++ [E_put o1 s1; E_put o2 s2; E_put o3 s3; E_put o4 s4]
    ∧ Forall (λ e, ∃ f, e = E_set (View.my_rank v) f ∧ log_field f) es
    ∧ DerechoSST.published_fields (DerechoSST.params (gmsSST w)) o1 s1
      = [DerechoSST.F_changes]
    ∧ DerechoSST.published_fields (DerechoSST.params (gmsSST w)) o2 s2
      = [DerechoSST.F_joiner_ips]
    ∧ DerechoSST.published_fields (DerechoSST.params (gmsSST w)) o3 s3
      = [DerechoSST.F_num_changes]
    ∧ DerechoSST.published_fields (DerechoSST.params (gmsSST w)) o4 s4
      = [DerechoSST.F_num_committed].
Proof.
  intros H. destruct (merge_changes_log_writes v w w' H)
    as (w2 & Hlw & _ & _ & Htr).
  destruct (log_writes_effect _ _ _ Hlw) as (_ & _ & _ & _ & es & Hes & Hall).
  exists es. do 8 eexists. split.
  { rewrite Htr, Hes. simpl. by rewrite <- app_assoc. }
  split; [exact Hall|].
  split; [|split; [|split]].
  - eapply (put_up_to_next_field _ (take 6 DerechoSST.fields_in_order));
      [reflexivity|].
    unfold DerechoSST.field_bytes, DerechoSST.sizeof_elem, DerechoSST.field_count.
    lia.
  - eapply (put_up_to_next_field _ (take 7 DerechoSST.fields_in_order));
      [reflexivity|].
    unfold DerechoSST.field_bytes, DerechoSST.sizeof_elem, DerechoSST.field_count.
    lia.
  - eapply (put_up_to_next_field _ (take 8 DerechoSST.fields_in_order));
      [reflexivity|].
    unfold DerechoSST.field_bytes, DerechoSST.sizeof_elem, DerechoSST.field_count.
    lia.
  - eapply (put_up_to_next_field _ (take 9 DerechoSST.fields_in_order));
      [reflexivity|].
    unfold DerechoSST.field_bytes, DerechoSST.sizeof_elem, DerechoSST.field_count.
    lia.
Qed.

Lemma merge_changes_publishes_log_before_counters_witness :
  ∃ w' es o1 s1 o2 s2 o3 s3 o4 s4,
    View.merge_changes view3 world3_behind = Ret w'
    ∧ trace w' = trace world3_behind ++ es
                 ++ [E_put o1 s1; E_put o2 s2; E_put o3 s3; E_put o4 s4]
    ∧ DerechoSST.published_fields (DerechoSST.params (gmsSST world3_behind)) o1 s1
      = [DerechoSST.F_changes].
Proof.
  destruct (merge_changes_defined view3 world3_behind view3_merge_ready)
    as (w' & Hw').
  destruct (merge_changes_publishes_log_before_counters _ _ _ Hw')
    as (es & o1 & s1 & o2 & s2 & o3 & s3 & o4 & s4 & Htr & _ & Hp1 & _).
  exists w', es, o1, s1, o2, s2, o3, s3, o4, s4.
  split; [exact Hw'|]. split; [exact Htr|exact Hp1].
Defined.

(** X10. [merge_changes] writes the local row only, and of that row only
    the change log and its two counters: every other row, every other
    field of the local row, the shape of the table and the multicast
    group are as before the call. *)
Theorem merge_changes_writes_only_local_log (v : View.t) (w w' : World) :
  View.merge_changes v w = Ret w' →
  multicast_group w' = multicast_group w
  ∧ DerechoSST.params (gmsSST w') = DerechoSST.params (gmsSST w)
  ∧ (∀ k : nat, k ≠ Z.to_nat (View.my_rank v) →
       DerechoSST.rows (gmsSST w') !! k = DerechoSST.rows (gmsSST w) !! k)
  ∧ (∀ r, gmssst.get_row w (View.my_rank v) = Ret r →
       ∃ r', gmssst.get_row w' (View.my_rank v) = Ret r'
             ∧ log_fields_only r r').
Proof.
  intros H. destruct (merge_changes_log_writes v w w' H)
    as (w2 & Hlw & Hsst & Hmc & _).
  destruct (log_writes_effect _ _ _ Hlw) as (Hmc2 & Hp & Hoth & Hloc & _).
  unfold gmssst.get_row in *. rewrite Hsst, Hmc. done.
Qed.

Lemma merge_changes_writes_only_local_log_witness :
  ∃ w' r',
    View.merge_changes view3 world3_behind = Ret w'
    ∧ gmssst.get_row w' 1 = Ret r'
    ∧ DerechoSST.wedged r' = false
    ∧ DerechoSST.rows (gmsSST w') !! 2%nat = Some row_with_log.
Proof.
  destruct (merge_changes_defined view3 world3_behind view3_merge_ready)
    as (w' & Hw').
  destruct (merge_changes_writes_only_local_log _ _ _ Hw')
    as (_ & _ & Hoth & Hloc).
  destruct (Hloc _ eq_refl) as (r' & Hr' & Hfr).
  exists w', r'. split; [exact Hw'|]. split; [exact Hr'|]. split.
  - destruct Hfr as (_ & _ & _ & _ & _ & _ & _ & _ & _ & _ & -> & _).
    reflexivity.
  - rewrite (Hoth 2%nat); [reflexivity|]. simpl. lia.
Defined.

(** ** [merge_changes]: the values of the merged counters *)

(** One step of the first loop: the counters become the larger of the two
    rows', and the log comes along with [num_changes]. *)
Lemma merge_row_exact (me n : Z) (w w1 : World) (r o : DerechoSST.Row) :
  View.merge_row me n w = Ret w1 →
  gmssst.get_row w me = Ret r → gmssst.get_row w n = Ret o →
  ∃ r1, gmssst.get_row w1 me = Ret r1
        ∧ DerechoSST.num_committed r1
          = Z.max (DerechoSST.num_committed r) (DerechoSST.num_committed o)
        ∧ ((DerechoSST.num_changes o ≤ DerechoSST.num_changes r
            ∧ DerechoSST.num_changes r1 = DerechoSST.num_changes r
            ∧ DerechoSST.changes r1 = DerechoSST.changes r)
           ∨ (DerechoSST.num_changes r < DerechoSST.num_changes o
              ∧ DerechoSST.num_changes r1 = DerechoSST.num_changes o
              ∧ DerechoSST.changes r1
                = take (DerechoSST.changes_size (gmsSST w)) (DerechoSST.changes o)
                  ++ drop (DerechoSST.changes_size (gmsSST w))
                          (DerechoSST.changes r)))
        ∧ ((DerechoSST.num_changes o ≤ DerechoSST.num_changes r
            ∧ DerechoSST.num_committed o ≤ DerechoSST.num_committed r) →
           w1 = w).
Proof.
  unfold View.merge_row. intros H Hr0 Ho0.
  apply bind_Ret in H as (r' & Hr & H).
  apply bind_Ret in H as (o' & Ho & H).
  assert (r' = r) as -> by congruence. assert (o' = o) as -> by congruence.
  apply bind_Ret in H as (wa & Hwa & H).
  apply bind_Ret in H as (ra & Hra & H).
  apply bind_Ret in H as (oa & Hoa & H).
  assert (Ha : DerechoSST.num_committed ra = DerechoSST.num_committed r
               ∧ oa = o
               ∧ ((DerechoSST.num_changes o ≤ DerechoSST.num_changes r
                   ∧ wa = w ∧ ra = r)
                  ∨ (DerechoSST.num_changes r < DerechoSST.num_changes o
                     ∧ DerechoSST.num_changes ra = DerechoSST.num_changes o
                     ∧ DerechoSST.changes ra
                       = take (DerechoSST.changes_size (gmsSST w))
                              (DerechoSST.changes o)
                         ++ drop (DerechoSST.changes_size (gmsSST w))
                                 (DerechoSST.changes r)))).
  { destruct (decide (DerechoSST.num_changes r < DerechoSST.num_changes o))
      as [Hlt|Hge].
    - apply bind_Ret in Hwa as (wb & Hwb & Hwa).
      apply bind_Ret in Hwa as (ob & Hob & Hwa).
      unfold gmssst.set_changes in Hwb.
      apply bind_Ret in Hwb as (r' & Hr' & Hwb).
      apply bind_Ret in Hwb as (a & Hcpy & Hwb).
      assert (r' = r) as -> by congruence.
      unfold gmssst.memcpy in Hcpy.
      destruct (decide _) as [_|_]; [|discriminate]. injection Hcpy as <-.
      assert (Hne : Z.to_nat n ≠ Z.to_nat me).
      { intros Heq. apply get_row_Ret in Hr as [? Hr], Ho as [? Ho].
        rewrite Heq in Ho. assert (o = r) by congruence. subst. lia. }
      rewrite (get_row_write_ne _ _ _ _ _ _ Hwb Hne) in Hob.
      assert (ob = o) as -> by congruence.
      unfold gmssst.set_num_changes in Hwa.
      apply bind_Ret in Hwa as (rb & Hrb & Hwa).
      rewrite (get_row_write_eq _ _ _ _ _ Hwb) in Hrb. injection Hrb as <-.
      rewrite (get_row_write_eq _ _ _ _ _ Hwa) in Hra. injection Hra as <-.
      rewrite (get_row_write_ne _ _ _ _ _ _ Hwa Hne),
              (get_row_write_ne _ _ _ _ _ _ Hwb Hne) in Hoa.
      split; [done|]. split; [congruence|]. right. done.
    - injection Hwa as <-. assert (ra = r) as -> by congruence.
      split; [done|]. split; [congruence|]. left. split; [lia|done]. }
  destruct Ha as (Hcm & -> & Hcase).
  assert (Hcase' :
    (DerechoSST.num_changes o ≤ DerechoSST.num_changes r
     ∧ DerechoSST.num_changes ra = DerechoSST.num_changes r
     ∧ DerechoSST.changes ra = DerechoSST.changes r)
    ∨ (DerechoSST.num_changes r < DerechoSST.num_changes o
       ∧ DerechoSST.num_changes ra = DerechoSST.num_changes o
       ∧ DerechoSST.changes ra
         = take (DerechoSST.changes_size (gmsSST w)) (DerechoSST.changes o)
           ++ drop (DerechoSST.changes_size (gmsSST w)) (DerechoSST.changes r))).
  { destruct Hcase as [(? & _ & ->)|?]; [left|right]; done. }
  destruct (decide (DerechoSST.num_committed ra < DerechoSST.num_committed o))
    as [Hlt|Hge].
  - unfold gmssst.set_num_committed in H.
    apply bind_Ret in H as (rb & Hrb & H).
    assert (rb = ra) as -> by congruence.
    eexists. split; [by eapply get_row_write_eq|]. simpl.
    split; [lia|]. split; [done|]. intros [_ ?]. lia.
  - injection H as <-. exists ra. split; [done|]. split; [lia|].
    split; [done|]. intros [Hn _].
    destruct Hcase as [(_ & -> & _)|(? & _)]; [done|lia].
Qed.

Lemma merge_rows_attained (me : Z) (ns : list Z) (w w1 : World)
    (r : DerechoSST.Row) :
  for_each ns (View.merge_row me) w = Ret w1 →
  gmssst.get_row w me = Ret r →
  ∃ r1, gmssst.get_row w1 me = Ret r1
    ∧ (DerechoSST.num_committed r1 = DerechoSST.num_committed r
       ∨ ∃ n o, n ∈ ns ∧ gmssst.get_row w n = Ret o
                ∧ DerechoSST.num_committed r1 = DerechoSST.num_committed o)
    ∧ (DerechoSST.num_changes r1 = DerechoSST.num_changes r
       ∨ ∃ n o, n ∈ ns ∧ gmssst.get_row w n = Ret o
                ∧ DerechoSST.num_changes r1 = DerechoSST.num_changes o)
    ∧ ((length (DerechoSST.changes r) = DerechoSST.changes_size (gmsSST w)
        ∧ ∀ n o, n ∈ ns → gmssst.get_row w n = Ret o →
            length (DerechoSST.changes o) = DerechoSST.changes_size (gmsSST w)) →
       length (DerechoSST.changes r1) = DerechoSST.changes_size (gmsSST w)
       ∧ ((DerechoSST.num_changes r1 = DerechoSST.num_changes r
           ∧ DerechoSST.changes r1 = DerechoSST.changes r)
          ∨ ∃ n o, n ∈ ns ∧ gmssst.get_row w n = Ret o
                   ∧ DerechoSST.num_changes r1 = DerechoSST.num_changes o
                   ∧ DerechoSST.changes r1 = DerechoSST.changes o))
    ∧ ((∀ n o, n ∈ ns → gmssst.get_row w n = Ret o →
          DerechoSST.num_changes o ≤ DerechoSST.num_changes r
          ∧ DerechoSST.num_committed o ≤ DerechoSST.num_committed r) →
       w1 = w).
Proof.
  revert w r. induction ns as [|n ns IH]; intros w r H Hr.
  - injection H as <-. exists r. split; [done|]. split; [by left|].
    split; [by left|]. split; [|done]. intros [Hlen _]. split; [done|by left].
  - simpl in H. apply bind_Ret in H as (wa & Hstep & Hrest).
    pose proof Hstep as Ho. unfold View.merge_row in Ho.
    apply bind_Ret in Ho as (r' & _ & Ho). apply bind_Ret in Ho as (o & Ho & _).
    destruct (merge_row_exact me n w wa r o Hstep Hr Ho)
      as (ra & Hra & Hcma & Hnca & Hnoop).
    destruct (merge_row_spec _ _ _ _ Hstep) as [(Hp & _ & Hoth & _) _].
    destruct (IH wa ra Hrest Hra) as (r1 & Hr1 & Hcm & Hnc & Hlog & Hnoop1).
    assert (Hme : 0 ≤ me) by (by apply get_row_Ret in Hr as [? _]).
    (* a row of [wa] other than the local one is the row of [w] *)
    assert (Hback : ∀ n' o', gmssst.get_row wa n' = Ret o' →
              (n' = me ∧ o' = ra) ∨ gmssst.get_row w n' = Ret o').
    { intros n' o' Ho'. destruct (decide (Z.to_nat n' = Z.to_nat me)) as [He|Hne].
      - left. apply get_row_Ret in Ho' as [? Ho'].
        assert (n' = me) as -> by lia. split; [done|].
        apply get_row_Ret in Hra as [_ Hra]. congruence.
      - right. apply get_row_Ret in Ho' as [? Ho']. apply get_row_Ret.
        split; [done|]. by rewrite <- Hoth. }
    assert (Hsize : DerechoSST.changes_size (gmsSST wa)
                    = DerechoSST.changes_size (gmsSST w)).
    { unfold DerechoSST.changes_size. by rewrite Hp. }
    exists r1. split; [done|]. split; [|split; [|split]].
    + (* num_committed *)
      assert (Hra_cm : DerechoSST.num_committed ra = DerechoSST.num_committed r
                       ∨ DerechoSST.num_committed ra = DerechoSST.num_committed o)
        by lia.
      assert (Hvia : DerechoSST.num_committed r1 = DerechoSST.num_committed ra →
                DerechoSST.num_committed r1 = DerechoSST.num_committed r
                ∨ ∃ n' o', n' ∈ n :: ns ∧ gmssst.get_row w n' = Ret o'
                   ∧ DerechoSST.num_committed r1 = DerechoSST.num_committed o').
      { intros E. destruct Hra_cm as [E'|E']; [left; congruence|].
        right. exists n, o. split; [left|]. split; [done|congruence]. }
      destruct Hcm as [E|(n' & o' & Hn' & Ho' & E)]; [by apply Hvia|].
      destruct (Hback n' o' Ho') as [[-> ->]|Ho'w]; [by apply Hvia|].
      right. exists n', o'. split; [by right|done].
    + (* num_changes *)
      assert (Hra_nc : DerechoSST.num_changes ra = DerechoSST.num_changes r
                       ∨ DerechoSST.num_changes ra = DerechoSST.num_changes o).
      { destruct Hnca as [(_ & ? & _)|(_ & ? & _)]; [by left|by right]. }
      assert (Hvia : DerechoSST.num_changes r1 = DerechoSST.num_changes ra →
                DerechoSST.num_changes r1 = DerechoSST.num_changes r
                ∨ ∃ n' o', n' ∈ n :: ns ∧ gmssst.get_row w n' = Ret o'
                   ∧ DerechoSST.num_changes r1 = DerechoSST.num_changes o').
      { intros E. destruct Hra_nc as [E'|E']; [left; congruence|].
        right. exists n, o. split; [left|]. split; [done|congruence]. }
      destruct Hnc as [E|(n' & o' & Hn' & Ho' & E)]; [by apply Hvia|].
      destruct (Hback n' o' Ho') as [[-> ->]|Ho'w]; [by apply Hvia|].
      right. exists n', o'. split; [by right|done].
    + (* the log *)
      intros [Hlr Hlo].
      assert (Hlo_head : length (DerechoSST.changes o)
                         = DerechoSST.changes_size (gmsSST w))
        by (apply (Hlo n); [left|done]).
      assert (Hra_log :
        (DerechoSST.num_changes ra = DerechoSST.num_changes r
         ∧ DerechoSST.changes ra = DerechoSST.changes r)
        ∨ (DerechoSST.num_changes ra = DerechoSST.num_changes o
           ∧ DerechoSST.changes ra = DerechoSST.changes o)).
      { destruct Hnca as [(_ & ? & ?)|(_ & ? & Hc)]; [by left|right].
        split; [done|]. rewrite Hc, take_ge, drop_ge by lia.
        by rewrite app_nil_r. }
      assert (Hla : length (DerechoSST.changes ra)
                    = DerechoSST.changes_size (gmsSST wa)).
      { rewrite Hsize. destruct Hra_log as [[_ ->]|[_ ->]]; done. }
      destruct Hlog as [Hl1 Hlog1].
      { split; [done|]. intros n' o' Hn' Ho'. rewrite Hsize.
        destruct (Hback n' o' Ho') as [[-> ->]|Ho'w]; [by rewrite <- Hsize|].
        apply (Hlo n'); [by right|done]. }
      split; [by rewrite <- Hsize|].
      assert (Hvia : DerechoSST.num_changes r1 = DerechoSST.num_changes ra
                     ∧ DerechoSST.changes r1 = DerechoSST.changes ra →
                (DerechoSST.num_changes r1 = DerechoSST.num_changes r
                 ∧ DerechoSST.changes r1 = DerechoSST.changes r)
                ∨ ∃ n' o', n' ∈ n :: ns ∧ gmssst.get_row w n' = Ret o'
                   ∧ DerechoSST.num_changes r1 = DerechoSST.num_changes o'
                   ∧ DerechoSST.changes r1 = DerechoSST.changes o').
      { intros [E1 E2]. destruct Hra_log as [[E1' E2']|[E1' E2']].
        - left. split; congruence.
        - right. exists n, o. split; [left|]. split; [done|].
          split; congruence. }
      destruct Hlog1 as [E|(n' & o' & Hn' & Ho' & E)]; [by apply Hvia|].
      destruct (Hback n' o' Ho') as [[-> ->]|Ho'w]; [by apply Hvia|].
      right. exists n', o'. split; [by right|done].
    + (* nobody ahead: nothing changes *)
      intros Hall.
      assert (wa = w) as -> by (apply Hnoop, (Hall n o); [left|done]).
      assert (ra = r) as -> by congruence.
      apply Hnoop1. intros n' o' Hn' Ho'. apply (Hall n' o'); [by right|done].
Qed.

(** One step of the second loop: [num_committed] stays, [num_changes]
    grows by at most one, and only for a member marked failed. *)
Lemma propose_failure_bound (v : View.t) (n : Z) (found found' : bool)
    (w w' : World) (r : DerechoSST.Row) :
  View.propose_failure v n (found, w) = Ret (found', w') →
  gmssst.get_row w (View.my_rank v) = Ret r →
  ∃ r', gmssst.get_row w' (View.my_rank v) = Ret r'
        ∧ DerechoSST.num_committed r' = DerechoSST.num_committed r
        ∧ DerechoSST.num_changes r ≤ DerechoSST.num_changes r'
        ∧ DerechoSST.num_changes r'
          ≤ DerechoSST.num_changes r
            + (if decide (View.failed v !! Z.to_nat n = Some true) then 1 else 0).
Proof.
  unfold View.propose_failure. intros H Hr.
  apply bind_Ret in H as (f & Hf & H).
  apply bind_Ret in H as (found1 & Hfound & H).
  destruct found1.
  - injection H as <- <-. exists r. split; [done|]. split; [done|].
    destruct (decide _); lia.
  - assert (f = true) as -> by (destruct f; [done|by injection Hfound]).
    apply vec_get_Ret in Hf as [_ Hf]. rewrite decide_True by done.
    apply bind_Ret in H as (r0 & Hr0 & H).
    assert (r0 = r) as -> by congruence.
    apply bind_Ret in H as (m & _ & H).
    apply bind_Ret in H as (w1 & Hw1 & H).
    apply bind_Ret in H as (w2 & Hw2 & H).
    injection H as <- <-.
    unfold gmssst.set_changes_slot in Hw1.
    apply bind_Ret in Hw1 as (r' & Hr' & Hw1).
    assert (r' = r) as -> by congruence.
    apply bind_Ret in Hw1 as (a & _ & Hw1).
    unfold gmssst.increment_num_changes in Hw2.
    apply bind_Ret in Hw2 as (r1 & Hr1 & Hw2).
    rewrite (get_row_write_eq _ _ _ _ _ Hw1) in Hr1. injection Hr1 as <-.
    destruct (decide _) as [_|_]; [|discriminate].
    eexists. split; [by eapply get_row_write_eq|]. simpl. lia.
Qed.

Lemma propose_failures_bound (v : View.t) (ns : list Z) (st st' : bool * World)
    (r : DerechoSST.Row) :
  for_each ns (View.propose_failure v) st = Ret st' →
  gmssst.get_row st.2 (View.my_rank v) = Ret r →
  ∃ r', gmssst.get_row st'.2 (View.my_rank v) = Ret r'
        ∧ DerechoSST.num_committed r' = DerechoSST.num_committed r
        ∧ DerechoSST.num_changes r ≤ DerechoSST.num_changes r'
        ∧ DerechoSST.num_changes r'
          ≤ DerechoSST.num_changes r
            + Z.of_nat (length (filter
                 (λ n, View.failed v !! Z.to_nat n = Some true) ns)).
Proof.
  revert st r. induction ns as [|n ns IH]; intros [found w] r H Hr.
  - injection H as <-. exists r. split; [done|]. simpl. lia.
  - cbn [for_each] in H. apply bind_Ret in H as ([founda wa] & Hstep & Hrest).
    simpl in Hr.
    destruct (propose_failure_bound _ _ _ _ _ _ _ Hstep Hr)
      as (ra & Hra & Hcm & Hlo & Hhi).
    destruct (IH _ ra Hrest Hra) as (r' & Hr' & Hcm' & Hlo' & Hhi').
    exists r'. split; [done|]. split; [congruence|]. split; [lia|].
    rewrite filter_cons. destruct (decide _); simpl length; lia.
Qed.

Lemma propose_failures_after_found (v : View.t) (ns : list Z) (w : World)
    (st' : bool * World) :
  for_each ns (View.propose_failure v) (true, w) = Ret st' → st' = (true, w).
Proof.
  induction ns as [|n ns IH]; intros H.
  - by injection H.
  - cbn [for_each] in H. apply bind_Ret in H as (sa & Hstep & Hrest).
    apply propose_failure_after_found in Hstep as ->. by apply IH.
Qed.

Lemma propose_failure_live (v : View.t) (n : Z) (w : World) (found : bool)
    (st' : bool * World) :
  View.failed v !! Z.to_nat n = Some false →
  View.propose_failure v n (found, w) = Ret st' → st' = (true, w).
Proof.
  unfold View.propose_failure. intros Hlive H.
  apply bind_Ret in H as (f & Hf & H).
  apply vec_get_Ret in Hf as [_ Hf]. assert (f = false) as -> by congruence.
  simpl in H. by injection H.
Qed.

(** When the member of rank 0 is not failed the second loop changes
    nothing. *)
Lemma propose_failures_rank0_live (v : View.t) (w : World)
    (st' : bool * World) :
  View.failed v !! 0%nat = Some false →
  for_each (seqZ 0 (View.num_members v)) (View.propose_failure v) (false, w)
  = Ret st' →
  st'.2 = w.
Proof.
  intros Hlive H.
  destruct (decide (0 < View.num_members v)) as [Hpos|Hneg].
  - rewrite seqZ_cons in H by done. cbn [for_each] in H.
    apply bind_Ret in H as (sa & Hstep & Hrest).
    apply (propose_failure_live v 0 w false sa Hlive) in Hstep as ->.
    by apply propose_failures_after_found in Hrest as ->.
  - rewrite seqZ_nil in H by lia. by injection H as <-.
Qed.

Lemma row_read_rows (v : View.t) (w : World) (r : DerechoSST.Row)
    (P : DerechoSST.Row → Prop) :
  gmssst.get_row w (View.my_rank v) = Ret r →
  (P r ∨ ∃ n o, n ∈ seqZ 0 (View.num_members v)
                ∧ gmssst.get_row w n = Ret o ∧ P o) →
  ∃ o, row_read v w o ∧ P o.
Proof.
  intros Hr [HP|(n & o & Hn%elem_of_seqZ & Ho & HP)].
  - exists r. split; [by left|done].
  - exists o. split; [right; exists n; split; [lia|done]|done].
Qed.

Lemma merge_changes_counters_core (v : View.t) (w w' : World)
    (r : DerechoSST.Row) :
  View.merge_changes v w = Ret w' →
  gmssst.get_row w (View.my_rank v) = Ret r →
  ∃ r', gmssst.get_row w' (View.my_rank v) = Ret r'
    ∧ (∃ o, row_read v w o
            ∧ DerechoSST.num_committed r' = DerechoSST.num_committed o)
    ∧ (∃ o, row_read v w o
            ∧ (∀ o', row_read v w o' →
                     DerechoSST.num_changes o' ≤ DerechoSST.num_changes o)
            ∧ DerechoSST.num_changes o ≤ DerechoSST.num_changes r'
            ∧ DerechoSST.num_changes r'
              ≤ DerechoSST.num_changes o + Z.of_nat (length (failed_ranks v))).
Proof.
  unfold View.merge_changes. intros H Hr.
  apply bind_Ret in H as (w1 & Hw1 & H).
  apply bind_Ret in H as (st & Hst & H). injection H as <-.
  destruct (merge_rows_attained _ _ _ _ r Hw1 Hr)
    as (r1 & Hr1 & Hcm & Hnc & _ & _).
  destruct (merge_rows_spec _ _ _ _ Hw1) as [(_ & _ & _ & Hloc) Hrows].
  destruct (propose_failures_bound v _ (false, w1) st r1 Hst Hr1)
    as (r' & Hr' & Hcm' & Hlo & Hhi).
  exists r'. split; [exact Hr'|]. split.
  - apply (row_read_rows v w r
             (λ o, DerechoSST.num_committed r' = DerechoSST.num_committed o) Hr).
    rewrite Hcm'. exact Hcm.
  - destruct (row_read_rows v w r
                (λ o, DerechoSST.num_changes r1 = DerechoSST.num_changes o) Hr Hnc)
      as (o & Ho & Eo).
    exists o. split; [done|]. split; [|unfold failed_ranks; lia].
    intros o' [Ho'|(n & Hn & Ho')].
    + destruct (Hloc o' Ho') as (r1' & Hr1' & ? & _).
      assert (r1' = r1) as -> by congruence. lia.
    + destruct (Hrows n o') as (r1' & Hr1' & ? & _); [apply elem_of_seqZ; lia|done|].
      assert (r1' = r1) as -> by congruence. lia.
Qed.


(** X11. After [merge_changes] the local [num_committed] is the
    [num_committed] of one of the rows read, and the local [num_changes]
    lies between the largest [num_changes] read and that value plus the
    number of ranks marked failed: the merge invents no commit and adds
    at most one proposal per failed member. *)
Theorem merge_changes_counters_come_from_rows (v : View.t) (w w' : World)
    (r : DerechoSST.Row) :
  View.merge_changes v w = Ret w' →
  gmssst.get_row w (View.my_rank v) = Ret r →
  ∃ r', gmssst.get_row w' (View.my_rank v) = Ret r'
    ∧ (∃ o, row_read v w o
            ∧ DerechoSST.num_committed r' = DerechoSST.num_committed o)
    ∧ (∃ o, row_read v w o
            ∧ (∀ o', row_read v w o' →
                     DerechoSST.num_changes o' ≤ DerechoSST.num_changes o)
            ∧ DerechoSST.num_changes o ≤ DerechoSST.num_changes r'
            ∧ DerechoSST.num_changes r'
              ≤ DerechoSST.num_changes o + Z.of_nat (length (failed_ranks v))).
Proof. apply merge_changes_counters_core. Qed.

Lemma merge_changes_counters_come_from_rows_witness :
  ∃ w' r', View.merge_changes view3 world3_behind = Ret w'
    ∧ gmssst.get_row w' (View.my_rank view3) = Ret r'
    ∧ (∃ o, row_read view3 world3_behind o
            ∧ DerechoSST.num_committed r' = DerechoSST.num_committed o).
Proof.
  destruct (merge_changes_defined view3 world3_behind view3_merge_ready)
    as (w' & Hw').
  destruct (merge_changes_counters_come_from_rows _ _ _ _ Hw' eq_refl)
    as (r' & Hr' & Hcm & _).
  exists w', r'. split; [exact Hw'|]. split; [exact Hr'|exact Hcm].
Defined.

(** X12. When the member of rank 0 is not marked failed,
    [merge_changes] proposes nothing, whatever the other [failed] flags
    are: the local row ends with the [num_changes] and, the logs having
    the table's capacity, with the very log of a row with the largest
    [num_changes] among those read. *)
Theorem merge_changes_rank0_live_copies_longest_log (v : View.t) (w w' : World)
    (r : DerechoSST.Row) :
  View.merge_changes v w = Ret w' →
  gmssst.get_row w (View.my_rank v) = Ret r →
  View.failed v !! 0%nat = Some false →
  (∀ o, row_read v w o →
        length (DerechoSST.changes o) = DerechoSST.changes_size (gmsSST w)) →
  ∃ r' o, gmssst.get_row w' (View.my_rank v) = Ret r'
    ∧ row_read v w o
    ∧ (∀ o', row_read v w o' →
             DerechoSST.num_changes o' ≤ DerechoSST.num_changes o)
    ∧ DerechoSST.num_changes r' = DerechoSST.num_changes o
    ∧ DerechoSST.changes r' = DerechoSST.changes o.
Proof.
  unfold View.merge_changes. intros H Hr Hlive Hlen.
  apply bind_Ret in H as (w1 & Hw1 & H).
  apply bind_Ret in H as (st & Hst & H). injection H as <-.
  apply (propose_failures_rank0_live v w1 st Hlive) in Hst.
  destruct (merge_rows_attained _ _ _ _ r Hw1 Hr)
    as (r1 & Hr1 & _ & _ & Hlog & _).
  destruct (merge_rows_spec _ _ _ _ Hw1) as [(_ & _ & _ & Hloc) Hrows].
  destruct Hlog as [_ Hlog].
  { split; [apply Hlen; by left|].
    intros n o Hn%elem_of_seqZ Ho. apply Hlen. right. exists n.
    split; [lia|done]. }
  destruct (row_read_rows v w r
              (λ o, DerechoSST.num_changes r1 = DerechoSST.num_changes o
                    ∧ DerechoSST.changes r1 = DerechoSST.changes o) Hr)
    as (o & Ho & Enc & Elog).
  { destruct Hlog as [?|(n & o & ? & ? & ? & ?)]; [by left|].
    right. exists n, o. done. }
  exists r1, o. unfold gmssst.get_row, gmssst.put. simpl. rewrite Hst.
  split; [exact Hr1|]. split; [done|]. split; [|done].
  intros o' [Ho'|(n & Hn & Ho')].
  - destruct (Hloc o' Ho') as (r1' & Hr1' & ? & _).
    assert (r1' = r1) as -> by congruence. lia.
  - destruct (Hrows n o') as (r1' & Hr1' & ? & _); [apply elem_of_seqZ; lia|done|].
    assert (r1' = r1) as -> by congruence. lia.
Qed.

Lemma init_rows_log_capacity (p : DerechoSST.Params) (g : MulticastGroup.t)
    (tr : list Effect) (o : DerechoSST.Row) :
  o ∈ DerechoSST.rows (gmsSST (mkWorld (DerechoSST.init p) g tr)) →
  o = DerechoSST.initial_row p.
Proof. simpl. by intros [-> _]%elem_of_replicate. Qed.

Lemma row_read_elem_of (v : View.t) (w : World) (o : DerechoSST.Row) :
  row_read v w o → o ∈ DerechoSST.rows (gmsSST w).
Proof.
  intros [Ho|(n & _ & Ho)]; apply get_row_Ret in Ho as [_ Ho];
    by eapply list_elem_of_lookup_2.
Qed.

Lemma merge_changes_rank0_live_copies_longest_log_witness :
  View.failed view2 !! 0%nat = Some false
  ∧ ∃ w' r' o, View.merge_changes view2 world2 = Ret w'
      ∧ gmssst.get_row w' (View.my_rank view2) = Ret r'
      ∧ row_read view2 world2 o
      ∧ DerechoSST.num_changes r' = DerechoSST.num_changes o
      ∧ DerechoSST.changes r' = DerechoSST.changes o.
Proof.
  split; [reflexivity|].
  assert (Hrun : ∃ w', View.merge_changes view2 world2 = Ret w')
    by (eexists; vm_compute; reflexivity).
  destruct Hrun as (w' & Hw').
  destruct (merge_changes_rank0_live_copies_longest_log view2 world2 w' _
              Hw' eq_refl eq_refl) as (r' & o & Hr' & Ho & _ & Hnc & Hlog).
  { intros o Ho%row_read_elem_of.
    apply init_rows_log_capacity in Ho as ->. reflexivity. }
  exists w', r', o. done.
Defined.

Lemma propose_failures_none_failed (v : View.t) (ns : list Z)
    (st st' : bool * World) :
  (∀ n, n ∈ ns → View.failed v !! Z.to_nat n ≠ Some true) →
  for_each ns (View.propose_failure v) st = Ret st' → st'.2 = st.2.
Proof.
  revert st. induction ns as [|n ns IH]; intros [found w] Hnone H.
  - by injection H as <-.
  - cbn [for_each] in H. apply bind_Ret in H as (sa & Hstep & Hrest).
    assert (Hlive : View.failed v !! Z.to_nat n = Some false).
    { pose proof Hstep as Hf. unfold View.propose_failure in Hf.
      apply bind_Ret in Hf as (f & Hf & _). apply vec_get_Ret in Hf as [_ Hf].
      destruct f; [|done]. exfalso. apply (Hnone n); [left|done]. }
    apply (propose_failure_live v n w found sa Hlive) in Hstep as ->.
    rewrite (IH (true, w)); [done| |done].
    intros n' Hn'. apply Hnone. by right.
Qed.

(** X13. On a quiescent table, where no rank below [num_members] is
    marked failed and no row read is ahead of the local row in
    [num_changes] or [num_committed], [merge_changes] leaves the whole
    table as it is; it only repeats the four [put]s. *)
Theorem merge_changes_quiescent_table_unchanged (v : View.t) (w w' : World)
    (r : DerechoSST.Row) :
  View.merge_changes v w = Ret w' →
  gmssst.get_row w (View.my_rank v) = Ret r →
  failed_ranks v = [] →
  (∀ o, row_read v w o →
        DerechoSST.num_changes o ≤ DerechoSST.num_changes r
        ∧ DerechoSST.num_committed o ≤ DerechoSST.num_committed r) →
  gmsSST w' = gmsSST w
  ∧ ∃ o1 s1 o2 s2 o3 s3 o4 s4,
      trace w' = trace w ++ [E_put o1 s1; E_put o2 s2; E_put o3 s3; E_put o4 s4].
Proof.
  unfold View.merge_changes. intros H Hr Hnone Hbehind.
  apply bind_Ret in H as (w1 & Hw1 & H).
  apply bind_Ret in H as (st & Hst & H). injection H as <-.
  destruct (merge_rows_attained _ _ _ _ r Hw1 Hr) as (_ & _ & _ & _ & _ & Hnoop).
  assert (w1 = w) as ->.
  { apply Hnoop. intros n o Hn%elem_of_seqZ Ho. apply Hbehind. right.
    exists n. split; [lia|done]. }
  apply (propose_failures_none_failed v) in Hst.
  2:{ intros n Hn Hf.
      assert (Hin : n ∈ failed_ranks v)
        by (apply list_elem_of_filter; done).
      rewrite Hnone in Hin. by apply elem_of_nil in Hin. }
  simpl in Hst. unfold gmssst.put. simpl. rewrite Hst.
  split; [done|]. do 8 eexists. by rewrite <- !app_assoc.
Qed.

Lemma merge_changes_quiescent_table_unchanged_witness :
  failed_ranks view_after = []
  ∧ ∃ w', View.merge_changes view_after world3 = Ret w'
          ∧ gmsSST w' = gmsSST world3.
Proof.
  split; [reflexivity|].
  assert (Hrun : ∃ w', View.merge_changes view_after world3 = Ret w')
    by (eexists; vm_compute; reflexivity).
  destruct Hrun as (w' & Hw').
  destruct (merge_changes_quiescent_table_unchanged view_after world3 w' _
              Hw' eq_refl eq_refl) as [Hsst _].
  { intros o Ho%row_read_elem_of.
    apply init_rows_log_capacity in Ho as ->. simpl. lia. }
  exists w'. done.
Defined.

Lemma init_merge_ready (v : View.t) (p : DerechoSST.Params)
    (g : MulticastGroup.t) (tr : list Effect) :
  0 ≤ View.my_rank v < Z.of_nat (DerechoSST.num_rows p) →
  View.num_members v ≤ Z.of_nat (DerechoSST.num_rows p) →
  View.num_members v ≤ Z.of_nat (length (View.failed v)) →
  View.num_members v ≤ Z.of_nat (length (View.members v)) →
  View.num_members v ≤ INT_MAX →
  merge_ready v (mkWorld (DerechoSST.init p) g tr).
Proof.
  intros Hme Hrows Hf Hm Hmax. unfold merge_ready. simpl.
  rewrite length_replicate. repeat split; try lia.
  apply Forall_forall. intros o [-> _]%elem_of_replicate. split.
  - simpl. by rewrite length_replicate.
  - simpl. unfold INT_MAX in *. lia.
Qed.

(** X14. On a table as its constructor leaves it, for a view whose ranks
    fit the table and the [failed] and [members] vectors, [merge_changes]
    runs to completion; afterwards the local row has committed nothing
    and holds at most one proposal per rank marked failed. *)
Theorem merge_changes_on_fresh_table (v : View.t) (p : DerechoSST.Params)
    (g : MulticastGroup.t) (tr : list Effect) :
  0 ≤ View.my_rank v < Z.of_nat (DerechoSST.num_rows p) →
  View.num_members v ≤ Z.of_nat (DerechoSST.num_rows p) →
  View.num_members v ≤ Z.of_nat (length (View.failed v)) →
  View.num_members v ≤ Z.of_nat (length (View.members v)) →
  View.num_members v ≤ INT_MAX →
  ∃ w' r', View.merge_changes v (mkWorld (DerechoSST.init p) g tr) = Ret w'
    ∧ gmssst.get_row w' (View.my_rank v) = Ret r'
    ∧ DerechoSST.num_committed r' = 0
    ∧ 0 ≤ DerechoSST.num_changes r' ≤ Z.of_nat (length (failed_ranks v)).
Proof.
  intros Hme Hrows Hf Hm Hmax.
  destruct (merge_changes_defined v _ (init_merge_ready v p g tr Hme Hrows Hf Hm Hmax))
    as (w' & Hw').
  assert (Hr : gmssst.get_row (mkWorld (DerechoSST.init p) g tr) (View.my_rank v)
               = Ret (DerechoSST.initial_row p)).
  { apply get_row_Ret. split; [lia|]. simpl. apply lookup_replicate. split; [done|lia]. }
  destruct (merge_changes_counters_core v _ w' _ Hw' Hr)
    as (r' & Hr' & (oc & Hoc & Hcm) & (on & Hon & _ & Hlo & Hhi)).
  apply row_read_elem_of, init_rows_log_capacity in Hoc as ->.
  apply row_read_elem_of, init_rows_log_capacity in Hon as ->.
  exists w', r'. split; [done|]. split; [done|]. simpl in *. split; [done|lia].
Qed.

Lemma merge_changes_on_fresh_table_witness :
  ∃ w' r', View.merge_changes view3 world3 = Ret w'
    ∧ gmssst.get_row w' (View.my_rank view3) = Ret r'
    ∧ DerechoSST.num_committed r' = 0
    ∧ 0 ≤ DerechoSST.num_changes r' ≤ Z.of_nat (length (failed_ranks view3)).
Proof.
  apply (merge_changes_on_fresh_table view3 (DerechoSST.mkParams 3 1 3 16 256)
           (MulticastGroup.mk false) []); simpl; try lia.
  vm_compute. discriminate.
Defined.

(** ** The layout functions of the sample applications *)

Lemma make_subview_present (v : View.t) (with_members : list node_id_t)
    (mode : Mode) (is_sender : list Z) :
  length (View.member_ips_and_ports v) = length (View.members v) →
  (∀ id, id ∈ with_members → id ∈ View.members v) →
  ∃ ips, View.make_subview v with_members mode is_sender
         = Ret (SubView.make mode with_members is_sender ips)
         ∧ length ips = length with_members
         ∧ ∀ (rank : nat) id, with_members !! rank = Some id →
             ips !! rank
             = View.member_ips_and_ports v !! View.find_pos (View.members v) id.
Proof.
  intros Hips Hall. unfold View.make_subview.
  destruct (fill_all_present v with_members Hips (length with_members) 0
              (replicate (length with_members) View.default_ip_and_ports))
    as (ips & Hrun & Hlen & _ & Hfill).
  { lia. }
  { apply length_replicate. }
  { intros rank id _ Hid. apply Hall. by eapply list_elem_of_lookup_2. }
  rewrite Hrun. simpl. exists ips. split; [done|]. split; [done|].
  intros rank id Hid. apply Hfill; [|done]. apply lookup_lt_Some in Hid. lia.
Qed.

Lemma make_subview_absent (v : View.t) (with_members : list node_id_t)
    (mode : Mode) (is_sender : list Z) (id : node_id_t) :
  length (View.member_ips_and_ports v) = length (View.members v) →
  id ∈ with_members → id ∉ View.members v →
  View.make_subview v with_members mode is_sender
  = Throw subgroup_provisioning_exception.
Proof.
  intros Hips Hid Hout. unfold View.make_subview.
  apply list_elem_of_lookup in Hid as [rank Hrank].
  rewrite (fill_one_absent v with_members Hips (length with_members) 0);
    [done|lia|apply length_replicate|].
  exists rank, id. split; [|done]. apply lookup_lt_Some in Hrank. lia.
Qed.

Lemma find_pos_nodup (ms : list node_id_t) (k : nat) (x : node_id_t) :
  NoDup ms → ms !! k = Some x → View.find_pos ms x = k.
Proof.
  intros Hnd Hk.
  destruct (find_pos_first ms x) as [Hat _]; [by eapply list_elem_of_lookup_2|].
  by eapply NoDup_lookup.
Qed.

(** The shard that [make_subview] builds from a slice of the member
    list of a duplicate-free view carries the matching slice of the
    addresses. *)
Lemma make_subview_slice (v : View.t) (first count : nat) (mode : Mode)
    (is_sender : list Z) :
  length (View.member_ips_and_ports v) = length (View.members v) →
  (first + count ≤ length (View.members v))%nat →
  ∃ ips, View.make_subview v (take count (drop first (View.members v)))
           mode is_sender
         = Ret (SubView.make mode (take count (drop first (View.members v)))
                  is_sender ips)
         ∧ (NoDup (View.members v) →
            ips = take count (drop first (View.member_ips_and_ports v))).
Proof.
  intros Hips Hlen.
  destruct (make_subview_present v (take count (drop first (View.members v)))
              mode is_sender Hips) as (ips & Hrun & Hl & Hfill).
  { intros id Hid. by apply (subseteq_drop first), (subseteq_take count). }
  exists ips. split; [done|]. intros Hnd.
  apply list_eq. intros i.
  destruct (decide (i < count)%nat) as [Hi|Hi].
  - assert (Hsome : is_Some (take count (drop first (View.members v)) !! i)).
    { apply lookup_lt_is_Some. rewrite length_take, length_drop. lia. }
    destruct Hsome as [id Hid]. rewrite (Hfill i id Hid).
    rewrite lookup_take_lt, lookup_drop in Hid by done.
    rewrite (find_pos_nodup _ _ _ Hnd Hid).
    by rewrite lookup_take_lt, lookup_drop by done.
  - rewrite (lookup_ge_None_2 ips)
      by (rewrite Hl, length_take, length_drop; lia).
    by rewrite lookup_take_ge by lia.
Qed.

(** X15. On a view with one address per member, the layout function of
    [Foo] and [Bar] throws [subgroup_provisioning_exception] when the
    view has fewer than three members and otherwise returns one subgroup
    with one shard made of the first three members (with their addresses
    when the member list is duplicate-free), raising
    [next_unassigned_rank] to at least 3. *)
Theorem first_three_layout_spec (mode : Mode) (is_sender : list Z)
    (v : View.t) (next_unassigned_rank : Z) :
  View.num_members v = Z.of_nat (length (View.members v)) →
  length (View.member_ips_and_ports v) = length (View.members v) →
  (View.num_members v < 3 →
   Demos.first_three_layout mode is_sender v next_unassigned_rank
   = Throw subgroup_provisioning_exception)
  ∧ (3 ≤ View.num_members v →
     ∃ sv, Demos.first_three_layout mode is_sender v next_unassigned_rank
           = Ret ([[sv]], Z.max next_unassigned_rank 3)
           ∧ SubView.members sv = take 3 (View.members v)
           ∧ SubView.mode sv = mode
           ∧ (NoDup (View.members v) →
              SubView.member_ips_and_ports sv
              = take 3 (View.member_ips_and_ports v))).
Proof.
  intros Hn Hips. unfold Demos.first_three_layout. split.
  - intros Hlt. by rewrite decide_True.
  - intros Hge. rewrite decide_False by lia.
    unfold Demos.vec_range. rewrite decide_True by lia. simpl mbind.
    destruct (make_subview_slice v 0 3 mode is_sender Hips)
      as (ips & Hrun & Hslice); [lia|].
    cbn [drop] in Hrun, Hslice |- *. rewrite Hrun. simpl.
    eexists. split; [reflexivity|]. simpl. done.
Qed.

Lemma first_three_layout_spec_witness :
  Demos.first_three_layout ORDERED [] view2 0
  = Throw subgroup_provisioning_exception
  ∧ ∃ sv, Demos.first_three_layout ORDERED [] view3 0 = Ret ([[sv]], 3)
          ∧ SubView.members sv = [10%N; 11%N; 12%N].
Proof.
  destruct (first_three_layout_spec ORDERED [] view2 0 eq_refl eq_refl)
    as [Hthrow _].
  destruct (first_three_layout_spec ORDERED [] view3 0 eq_refl eq_refl)
    as [_ Hok].
  split; [apply Hthrow; simpl; lia|].
  destruct Hok as (sv & Hsv & Hm & _); [simpl; lia|].
  exists sv. split; [exact Hsv|exact Hm].
Defined.

(** X16. The layout function of [Cache] throws
    [subgroup_provisioning_exception] on fewer than six members and
    otherwise returns one shard made of the members of ranks 3 to 5,
    advancing [next_unassigned_rank] by 3; in a duplicate-free view that
    shard shares no member with the shard of [Foo]. *)
Theorem next_three_layout_spec (mode : Mode) (is_sender : list Z)
    (v : View.t) (next_unassigned_rank : Z) :
  View.num_members v = Z.of_nat (length (View.members v)) →
  length (View.member_ips_and_ports v) = length (View.members v) →
  next_unassigned_rank + 3 ≤ INT_MAX →
  (View.num_members v < 6 →
   Demos.next_three_layout mode is_sender v next_unassigned_rank
   = Throw subgroup_provisioning_exception)
  ∧ (6 ≤ View.num_members v →
     ∃ sv, Demos.next_three_layout mode is_sender v next_unassigned_rank
           = Ret ([[sv]], next_unassigned_rank + 3)
           ∧ SubView.members sv = take 3 (drop 3 (View.members v))
           ∧ (NoDup (View.members v) →
              ∀ id, id ∈ SubView.members sv →
                    id ∉ take 3 (View.members v))).
Proof.
  intros Hn Hips Hmax. unfold Demos.next_three_layout. split.
  - intros Hlt. by rewrite decide_True.
  - intros Hge. rewrite decide_False by lia.
    unfold Demos.vec_range. rewrite decide_True by lia. simpl mbind.
    destruct (make_subview_slice v 3 3 mode is_sender Hips)
      as (ips & Hrun & _); [lia|].
    rewrite Hrun. simpl. rewrite decide_True by done.
    eexists. split; [reflexivity|]. simpl. split; [done|].
    intros Hnd id Hin Hfirst.
    rewrite <- (take_drop 3 (View.members v)) in Hnd.
    apply NoDup_app in Hnd as (_ & Hdisj & _).
    apply (Hdisj id Hfirst). by apply (subseteq_take 3).
Qed.

Lemma next_three_layout_spec_witness :
  Demos.next_three_layout ORDERED [] view3 3
  = Throw subgroup_provisioning_exception
  ∧ ∃ sv, Demos.next_three_layout ORDERED [] view6 3 = Ret ([[sv]], 6)
          ∧ SubView.members sv = [23%N; 24%N; 25%N].
Proof.
  destruct (next_three_layout_spec ORDERED [] view3 3 eq_refl eq_refl)
    as [Hthrow _]; [vm_compute; discriminate|].
  destruct (next_three_layout_spec ORDERED [] view6 3 eq_refl eq_refl)
    as [_ Hok]; [vm_compute; discriminate|].
  split; [apply Hthrow; simpl; lia|].
  destruct Hok as (sv & Hsv & Hm & _); [simpl; lia|].
  exists sv. split; [exact Hsv|exact Hm].
Defined.

(** X17. The layout function of [PFoo] checks only that the view has two
    members but asks for the nodes with ids 0 and 1: it throws
    [subgroup_provisioning_exception] exactly when the view has fewer
    than two members or lacks node 0 or node 1, and otherwise returns one
    shard with members 0 and 1. *)
Theorem pfoo_layout_needs_nodes_0_and_1 (mode : Mode) (is_sender : list Z)
    (v : View.t) (next_unassigned_rank : Z) :
  length (View.member_ips_and_ports v) = length (View.members v) →
  (Demos.pfoo_layout mode is_sender v next_unassigned_rank
   = Throw subgroup_provisioning_exception
   ↔ View.num_members v < 2 ∨ 0%N ∉ View.members v ∨ 1%N ∉ View.members v)
  ∧ (2 ≤ View.num_members v → 0%N ∈ View.members v → 1%N ∈ View.members v →
     ∃ sv, Demos.pfoo_layout mode is_sender v next_unassigned_rank
           = Ret ([[sv]], Z.max next_unassigned_rank 2)
           ∧ SubView.members sv = [0%N; 1%N]).
Proof.
  intros Hips. unfold Demos.pfoo_layout.
  assert (Hok : 0%N ∈ View.members v → 1%N ∈ View.members v →
    ∃ sv, View.make_subview v [0%N; 1%N] mode is_sender = Ret sv
          ∧ SubView.members sv = [0%N; 1%N]).
  { intros H0 H1.
    destruct (make_subview_present v [0%N; 1%N] mode is_sender Hips)
      as (ips & Hrun & _).
    { intros id [->|[->|Hid]%elem_of_cons]%elem_of_cons; [done|done|].
      by apply elem_of_nil in Hid. }
    eexists. split; [exact Hrun|done]. }
  split.
  - destruct (decide (View.num_members v < 2)) as [Hlt|Hge]; [by split; auto|].
    destruct (decide (0%N ∈ View.members v)) as [H0|H0].
    + destruct (decide (1%N ∈ View.members v)) as [H1|H1].
      * destruct (Hok H0 H1) as (sv & -> & _). simpl. split; [discriminate|].
        intros [?|[?|?]]; done.
      * rewrite (make_subview_absent v _ mode is_sender 1%N Hips); [|by right; left|done].
        simpl. split; auto.
    + rewrite (make_subview_absent v _ mode is_sender 0%N Hips); [|by left|done].
      simpl. split; auto.
  - intros Hge H0 H1. rewrite decide_False by lia.
    destruct (Hok H0 H1) as (sv & -> & Hm). simpl. eauto.
Qed.

Lemma pfoo_layout_needs_nodes_0_and_1_witness :
  2 ≤ View.num_members view2
  ∧ Demos.pfoo_layout ORDERED [] view2 0 = Throw subgroup_provisioning_exception.
Proof.
  split; [simpl; lia|].
  destruct (pfoo_layout_needs_nodes_0_and_1 ORDERED [] view2 0 eq_refl)
    as [Hthrow _].
  apply Hthrow. right. left. simpl.
  rewrite !not_elem_of_cons. repeat split; try discriminate.
  apply not_elem_of_nil.
Defined.

(** ** Type packs of [Group] *)

Lemma index_of_type_impl_spec (pack : list type_index) (target : type_index)
    (counter : Z) :
  0 ≤ counter → counter + Z.of_nat (length pack) < 2 ^ 32 →
  (target ∉ pack → Group.index_of_type_impl counter target pack = None)
  ∧ (∀ k : nat, pack !! k = Some target →
       (∀ j : nat, (j < k)%nat → pack !! j ≠ Some target) →
       Group.index_of_type_impl counter target pack = Some (counter + Z.of_nat k)).
Proof.
  revert counter. induction pack as [|first rest IH]; intros counter H0 Hb.
  - split; [done|]. intros k Hk. done.
  - simpl in Hb. simpl. destruct (decide (target = first)) as [->|Hne].
    + split; [intros Hout; exfalso; apply Hout; left|].
      intros [|k] Hk Hfirst; [simpl; by rewrite Z.add_0_r|].
      exfalso. apply (Hfirst 0%nat); [lia|done].
    + destruct (IH (to_uint32 (counter + 1))) as [Hnone Hsome].
      { unfold to_uint32. apply Z.mod_pos_bound. lia. }
      { unfold to_uint32. rewrite Z.mod_small; lia. }
      split.
      * intros Hout. apply Hnone. intros Hin. apply Hout. by right.
      * intros [|k] Hk Hfirst; simpl in Hk; [congruence|].
        rewrite (Hsome k Hk).
        -- unfold to_uint32. apply lookup_lt_Some in Hk.
           rewrite Z.mod_small by lia. apply f_equal. lia.
        -- intros j Hj. apply (Hfirst (S j)). lia.
Qed.

Lemma first_occurrence (pack : list type_index) (target : type_index) :
  target ∈ pack →
  ∃ k : nat, pack !! k = Some target
             ∧ ∀ j : nat, (j < k)%nat → pack !! j ≠ Some target.
Proof.
  induction pack as [|first rest IH]; intros Hin.
  - by apply elem_of_nil in Hin.
  - destruct (decide (first = target)) as [->|Hne].
    + exists 0%nat. split; [done|]. intros; lia.
    + apply elem_of_cons in Hin as [->|Hin]; [done|].
      destruct (IH Hin) as (k & Hk & Hfirst). exists (S k). split; [done|].
      intros [|j] Hj; simpl; [congruence|]. apply Hfirst. lia.
Qed.

(** X18. Over a pack of fewer than 2^32 types, [contains] tells whether the
    target type occurs in the pack, and [index_of_type] is defined
    exactly for a type of the pack and is then the position of its first
    occurrence. *)
Theorem index_of_type_first_position (target : type_index)
    (pack : list type_index) :
  Z.of_nat (length pack) < 2 ^ 32 →
  (Group.contains target pack = true ↔ target ∈ pack)
  ∧ (Group.index_of_type target pack = None ↔ target ∉ pack)
  ∧ (∀ k : nat,
       Group.index_of_type target pack = Some (Z.of_nat k)
       ↔ pack !! k = Some target
         ∧ ∀ j : nat, (j < k)%nat → pack !! j ≠ Some target).
Proof.
  intros Hlen. unfold Group.index_of_type.
  destruct (index_of_type_impl_spec pack target 0 ltac:(lia) ltac:(lia))
    as [Hnone Hsome].
  split; [|split].
  - unfold Group.contains. induction pack as [|t pack IH]; simpl.
    + split; [discriminate|]. intros H. by apply elem_of_nil in H.
    + rewrite orb_true_iff, bool_decide_eq_true, elem_of_cons.
      simpl in Hlen.
      rewrite IH; [done|lia| |].
      * intros Hout. destruct (index_of_type_impl_spec pack target 0
                                 ltac:(lia) ltac:(lia)) as [H _]. by apply H.
      * intros k Hk Hfirst.
        destruct (index_of_type_impl_spec pack target 0
                    ltac:(lia) ltac:(lia)) as [_ H]. by apply H.
  - split; [|exact Hnone]. intros Hn Hin.
    destruct (first_occurrence pack target Hin) as (k & Hk & Hfirst).
    rewrite (Hsome k Hk Hfirst) in Hn. discriminate.
  - intros k. split.
    + intros Hk. destruct (decide (target ∈ pack)) as [Hin|Hout].
      * destruct (first_occurrence pack target Hin) as (k0 & Hk0 & Hfirst).
        rewrite (Hsome k0 Hk0 Hfirst) in Hk.
        assert (k0 = k) as -> by (injection Hk; lia). done.
      * rewrite (Hnone Hout) in Hk. discriminate.
    + intros [Hk Hfirst]. by rewrite (Hsome k Hk Hfirst).
Qed.

Lemma index_of_type_first_position_witness :
  Group.index_of_type "Bar"%string ["Foo"; "Bar"; "Cache"; "Bar"]%string = Some 1
  ∧ Group.index_of_type "Baz"%string ["Foo"; "Bar"; "Cache"; "Bar"]%string = None.
Proof.
  destruct (index_of_type_first_position "Baz"%string
              ["Foo"; "Bar"; "Cache"; "Bar"]%string) as (_ & Hnone & _);
    [vm_compute; reflexivity|].
  split; [reflexivity|]. apply Hnone.
  rewrite !not_elem_of_cons. repeat split; try discriminate.
  apply not_elem_of_nil.
Defined.

(** ** The RPC manager: what the view-change callback keeps *)

Lemma sweep_filter (new_view : View.t) (subgroup_id : nat)
    (prs prs' : list PendingResults.t) :
  RPCManager.sweep new_view subgroup_id prs = Ret prs' →
  prs' = map (RPCManager.remove_departed
                (default [] (View.subgroup_shard_views new_view !! subgroup_id)))
             (filter (λ p, PendingResults.all_responded p = false) prs).
Proof.
  revert prs'. induction prs as [|p prs IH]; intros prs' H.
  - by injection H as <-.
  - simpl in H. rewrite filter_cons.
    destruct (PendingResults.all_responded p) eqn:Hall.
    + rewrite decide_False by done. by apply IH.
    + rewrite decide_True by done.
      apply bind_Ret in H as (shards & Hshards & H).
      apply bind_Ret in H as (rest & Hrest & [= <-]).
      apply vec_get_Ret in Hshards as [_ Hshards].
      rewrite Nat2Z.id in Hshards. rewrite Hshards. simpl.
      f_equal. rewrite (IH rest Hrest). by rewrite Hshards.
Qed.

Lemma sweep_all_filter (new_view : View.t)
    (m m' : list (nat * list PendingResults.t)) :
  RPCManager.sweep_all new_view m = Ret m' →
  m' = map (λ '(sg, prs),
              (sg, map (RPCManager.remove_departed
                          (default [] (View.subgroup_shard_views new_view !! sg)))
                       (filter (λ p, PendingResults.all_responded p = false) prs)))
           m.
Proof.
  revert m'. induction m as [|[sg prs] m IH]; intros m' H.
  - by injection H as <-.
  - simpl in H. apply bind_Ret in H as (prs' & Hprs' & H).
    apply bind_Ret in H as (rest & Hrest & [= <-]).
    simpl. f_equal; [|by apply IH].
    f_equal. by apply sweep_filter.
Qed.

(** X19. When [new_view_callback] returns, the connections are those of
    the new view's members and [pending_results_to_fulfill] is as before;
    the table of fulfilled results has the same subgroups in the same
    order, and the list of each subgroup holds, in their old order,
    exactly the results that had not received all their responses (each
    completed for the departed nodes): a result with all its responses is
    dropped, none is added or reordered. *)
Theorem new_view_callback_collects_finished_results (new_view : View.t)
    (st st' : RPCManager.t) :
  RPCManager.new_view_callback new_view st = Ret st' →
  RPCManager.connections st' = View.members new_view
  ∧ RPCManager.pending_results_to_fulfill st'
    = RPCManager.pending_results_to_fulfill st
  ∧ map fst (RPCManager.fulfilled_pending_results st')
    = map fst (RPCManager.fulfilled_pending_results st)
  ∧ ∀ (i : nat) sg prs,
      RPCManager.fulfilled_pending_results st !! i = Some (sg, prs) →
      ∃ prs',
        RPCManager.fulfilled_pending_results st' !! i = Some (sg, prs')
        ∧ prs' = map (RPCManager.remove_departed
                        (default [] (View.subgroup_shard_views new_view !! sg)))
                     (filter (λ p, PendingResults.all_responded p = false) prs)
        ∧ (length prs' ≤ length prs)%nat.
Proof.
  unfold RPCManager.new_view_callback. intros H.
  apply bind_Ret in H as (m' & Hm' & [= <-]). simpl.
  apply sweep_all_filter in Hm' as ->.
  split; [done|]. split; [done|]. split.
  - rewrite map_map. apply map_ext. by intros [sg prs].
  - intros i sg prs Hi. eexists. split.
    + rewrite list_lookup_fmap, Hi. reflexivity.
    + split; [done|]. rewrite length_map. apply length_filter.
Qed.

Lemma new_view_callback_collects_finished_results_witness :
  ∃ st' p', RPCManager.new_view_callback view_after manager3 = Ret st'
    ∧ RPCManager.fulfilled_pending_results st' = [(0%nat, [p'])]
    ∧ PendingResults.dest_nodes p' = [10%N; 11%N].
Proof.
  assert (Hrun : ∃ st', RPCManager.new_view_callback view_after manager3 = Ret st')
    by (eexists; vm_compute; reflexivity).
  destruct Hrun as (st' & Hst').
  destruct (new_view_callback_collects_finished_results _ _ _ Hst')
    as (_ & _ & _ & Hlist).
  destruct (Hlist 0%nat 0%nat [pending_done; pending_on_10] eq_refl)
    as (prs' & Hlook & -> & _).
  exists st', (RPCManager.remove_departed [shard_after] pending_on_10).
  split; [exact Hst'|].
  vm_compute in Hst'. injection Hst' as <-. split; reflexivity.
Defined.

(** ** View: how the leader tests and the constructors fit together *)

Lemma all_below_gone_failed (v : View.t) (w : World) (ps : list (Z * Z)) :
  (∀ n row, (n, row) ∈ ps → 0 ≤ n ∧ View.failed v !! Z.to_nat n = Some true) →
  View.all_below_gone v w ps = Ret true.
Proof.
  induction ps as [|[n row] ps IH]; intros Hall; [done|].
  simpl. destruct (Hall n row) as [Hn Hf]; [left|].
  rewrite (proj2 (vec_get_Ret _ _ _) (conj Hn Hf)). simpl.
  apply IH. intros n' row' Hin. apply (Hall n' row'). by right.
Qed.

(** X20. A member that [i_am_leader] reports as the leader is accepted
    by its first call of [i_am_new_leader], whatever the table holds:
    every lower rank is marked failed, so no suspicion is read. *)
Theorem leader_by_rank_is_new_leader (v : View.t) (w : World) :
  View.num_members v ≤ Z.of_nat (length (View.failed v)) →
  0 ≤ View.my_rank v →
  View.i_know_i_am_leader v = false →
  View.i_am_leader v = Ret true →
  View.i_am_new_leader v w = Ret (true, View.set_i_know_i_am_leader v true).
Proof.
  intros Hlen Hme Hknow Hlead.
  unfold View.i_am_leader, View.rank_of_leader in Hlead.
  apply bind_Ret in Hlead as (r & Hr & [= Heq]).
  apply bool_decide_eq_true in Heq. subst r.
  assert (Hn : 0 ≤ View.num_members v).
  { destruct (decide (0 ≤ View.num_members v)); [done|].
    rewrite seqZ_nil in Hr by lia. injection Hr as Hr. lia. }
  destruct (first_not_failed_spec (View.failed v)
              (Z.to_nat (View.num_members v)) 0) as (r & Hr' & Hcase); [lia..|].
  rewrite Z2Nat.id in Hr', Hcase by done. rewrite Hr in Hr'.
  injection Hr' as <-. destruct Hcase as [[? _]|(_ & _ & Hbelow)]; [lia|].
  unfold View.i_am_new_leader. rewrite Hknow.
  rewrite all_below_gone_failed; [done|].
  intros n row [Hnr _]%elem_of_leader_pairs. split; [lia|]. by apply Hbelow.
Qed.

Lemma leader_by_rank_is_new_leader_witness :
  View.i_am_leader view3 = Ret true
  ∧ View.i_am_new_leader view3 world3_behind
    = Ret (true, View.set_i_know_i_am_leader view3 true).
Proof.
  split; [reflexivity|].
  apply (leader_by_rank_is_new_leader view3 world3_behind);
    [simpl; lia|simpl; lia|reflexivity|reflexivity].
Defined.

(** X21. Deserialization rebuilds the rank index from the member list:
    for a duplicate-free view whose [num_members] is its member count,
    [rank_of] on the view read back is the rank of each member and -1 for
    any other node, whatever index the serialized view carried. *)
Theorem deserialize_rebuilds_rank_index (v v' : View.t) :
  View.deserialize (View.serialize v) = Ret v' →
  View.num_members v = Z.of_nat (length (View.members v)) →
  NoDup (View.members v) →
  (∀ (k : nat) who, View.members v !! k = Some who →
                    View.rank_of v' who = Z.of_nat k)
  ∧ (∀ who, who ∉ View.members v → View.rank_of v' who = -1).
Proof.
  unfold View.deserialize, View.serialize, View.from_fields,
    View.index_members. simpl. intros H Hn Hnd.
  apply bind_Ret in H as (idx & Hidx & [= <-]).
  rewrite Hn in Hidx.
  destruct (index_members_lookup _ _ 0 _ _ ltac:(lia) Hidx) as [Hout Hin].
  unfold View.rank_of. simpl. split.
  - intros k who Hk. rewrite (Hin Hnd (Z.of_nat k) who); [done| |by rewrite Nat2Z.id].
    apply lookup_lt_Some in Hk. lia.
  - intros who Hwho. rewrite Hout; [by rewrite lookup_empty|].
    intros k Hk Hlook. apply Hwho. by eapply list_elem_of_lookup_2.
Qed.

Lemma deserialize_rebuilds_rank_index_witness :
  ∃ v', View.deserialize (View.serialize view6) = Ret v'
        ∧ View.rank_of v' 24%N = 4.
Proof.
  assert (Hrun : ∃ v', View.deserialize (View.serialize view6) = Ret v')
    by (eexists; vm_compute; reflexivity).
  destruct Hrun as (v' & Hv').
  destruct (deserialize_rebuilds_rank_index view6 v' Hv' eq_refl) as [Hin _].
  { by apply (bool_decide_unpack _). }
  exists v'. split; [exact Hv'|]. apply (Hin 4%nat). reflexivity.
Defined.
